(** * slack-assistant: sync engine, status ranker and search aggregator

    A shallow embedding of the Python sources

      - [slack_assistant/db/models.py]       (module [Models])
      - [slack_assistant/db/repository.py]   (module [Repository])
      - [slack_assistant/slack/client.py]    (module [SlackClient])
      - [slack_assistant/slack/poller.py]    (module [SlackPoller])
      - [slack_assistant/services/search.py] (module [SearchService])
      - [slack_assistant/services/status.py] (module [StatusService])
      - [slack_assistant/config.py]          (module [Config])

    Conventions of the embedding.

      - A Python [str] is a [string]; [str | None] is [option string]; an
        [int] is a [Z]; a [datetime] is a [Time] (an integer instant); a
        [float] score is an exact rational [Q].
      - A Slack payload ([dict[str, Any]]) is a record with one optional
        field per key the program reads; an absent key is [None].
      - The PostgreSQL tables are fields of [Database].  Tables with a
        textual primary key are [gmap string _]; [messages] and [reactions]
        are lists of rows in insertion order, each row carrying the id the
        sequence gave it.
      - Code that writes to the database runs in the monad [M]: the database
        is threaded through, and an exception stops the computation while
        the writes made before it stay (every statement of the repository is
        its own transaction).
      - What the program does not define is an explicit parameter gathered
        in [Env]: the Slack Web API, the clock behind [NOW()], the
        conversion of a Slack timestamp to a [datetime], and which rows the
        storage engine refuses. The two functions of [urllib.parse] that
        [find_context] calls are the fields of [UrlLib].
      - Instants are taken within the range of [datetime]: the
        [OverflowError] or [OSError] that [datetime.fromtimestamp] raises
        for a number outside it (and that [from_slack] does not catch), and
        that of [datetime.now() - timedelta(hours=...)] in [get_status],
        are not modelled. The ids of stored rows are taken within the range
        of their columns.
      - A [string] is a sequence of bytes: lengths and positions count
        bytes, and case is folded for the ASCII letters only. *)

From Stdlib Require Import ZArith QArith Lia Lqa Ascii.
From stdpp Require Import base option list gmap strings sorting.

Local Open Scope Z_scope.

(** ** Python values *)

Definition Time := Z.

(** Truthiness of [str | None]: [None] and [''] are falsy. *)
Definition truthy (o : option string) : bool :=
  match o with
  | Some s => negb (String.eqb s "")
  | None => false
  end.

(** [d.get(key, dflt)] on an optional field. *)
Definition get_or {A} (dflt : A) (o : option A) : A := default dflt o.

(** The exceptions that leave the program's functions: an error of the
    storage engine ([asyncpg.PostgresError]), a query argument that the
    driver cannot encode ([asyncpg.DataError]), [ValueError] and
    [RuntimeError]. *)
Inductive exn := StorageError | DataError | ValueError | RuntimeError.

Inductive result (A : Type) :=
| Ok (a : A)
| Raise (e : exn).
Arguments Ok {A} a.
Arguments Raise {A} e.

(** ** Python and SQL primitives *)

(** A stable sort: [insert_sorted before x l] puts [x] in front of the
    first element it may stand before. [stable_sort] inserts from the right,
    so elements that compare equal keep their order, as [sorted], [list.sort]
    (also with [reverse=True]) do. *)
Fixpoint insert_sorted {A} (before : A -> A -> bool) (x : A) (l : list A)
    : list A :=
  match l with
  | [] => [x]
  | y :: l' =>
      if before x y then x :: y :: l' else y :: insert_sorted before x l'
  end.

Definition stable_sort {A} (before : A -> A -> bool) (l : list A) : list A :=
  foldr (insert_sorted before) [] l.

(** [xs[:limit]]: a negative [limit] counts from the end. *)
Definition slice_to {A} (limit : Z) (xs : list A) : list A :=
  if 0 <=? limit then take (Z.to_nat limit) xs
  else take (length xs - Z.to_nat (- limit))%nat xs.

(** [ORDER BY created_at DESC]: nulls come first, later instants before
    earlier ones. Rows the order does not separate are kept in table order. *)
Definition desc_nulls_first (a b : option Time) : bool :=
  match a, b with
  | None, _ => true
  | Some _, None => false
  | Some x, Some y => y <=? x
  end.

(** [ORDER BY time ASC]: nulls come last. *)
Definition asc_nulls_last (a b : option Time) : bool :=
  match a, b with
  | _, None => true
  | None, Some _ => false
  | Some x, Some y => x <=? y
  end.

(** [m.created_at > since], on when [since] is given. *)
Definition created_after (since : option Time) (created_at : option Time)
    : bool :=
  match since with
  | None => true
  | Some s =>
      match created_at with
      | Some t => s <? t
      | None => false
      end
  end.

(** ASCII lower case, for [ILIKE] and [re.IGNORECASE]. *)
Definition lower (c : ascii) : ascii :=
  let n := nat_of_ascii c in
  if (65 <=? n)%nat && (n <=? 90)%nat then ascii_of_nat (n + 32) else c.

Fixpoint lower_string (s : string) : string :=
  match s with
  | EmptyString => EmptyString
  | String c rest => String (lower c) (lower_string rest)
  end.

(** SQL [text LIKE pattern]: [%] matches any run of characters, [_] any one
    character, and a backslash makes the next character literal. *)
Fixpoint like (pattern : string) : string -> bool :=
  match pattern with
  | EmptyString =>
      fun s => match s with EmptyString => true | _ => false end
  | String p pattern' =>
      if Ascii.eqb p "%"%char then
        fix any (s : string) : bool :=
          like pattern' s
          || match s with
             | EmptyString => false
             | String _ s' => any s'
             end
      else if Ascii.eqb p "_"%char then
        fun s =>
          match s with
          | EmptyString => false
          | String _ s' => like pattern' s'
          end
      else if Ascii.eqb p "\"%char then
        match pattern' with
        | EmptyString => fun _ => false
        | String q pattern'' =>
            fun s =>
              match s with
              | EmptyString => false
              | String c s' => Ascii.eqb c q && like pattern'' s'
              end
        end
      else
        fun s =>
          match s with
          | EmptyString => false
          | String c s' => Ascii.eqb c p && like pattern' s'
          end
  end.

(** [text ILIKE pattern]; a null [text] matches nothing. *)
Definition ilike (pattern : string) (s : string) : bool :=
  like (lower_string pattern) (lower_string s).

(** Whether [q] is a prefix of [s], ignoring case. *)
Fixpoint prefix_ci (q s : string) : bool :=
  match q, s with
  | EmptyString, _ => true
  | String _ _, EmptyString => false
  | String a q', String b s' => Ascii.eqb (lower a) (lower b) && prefix_ci q' s'
  end.

(** [re.search(re.escape(q), s, re.IGNORECASE)]: the start of the leftmost
    occurrence of [q] in [s], ignoring case. *)
Fixpoint re_search (q s : string) : option nat :=
  if prefix_ci q s then Some O
  else match s with
       | EmptyString => None
       | String _ s' => S <$> re_search q s'
       end.

(** [xs[start:]]: a negative [start] counts from the end. *)
Definition slice_from {A} (start : Z) (xs : list A) : list A :=
  if 0 <=? start then drop (Z.to_nat start) xs
  else drop (length xs - Z.to_nat (- start))%nat xs.

(** [s[:limit]] and [s[start:]] on a string. *)
Definition str_to (limit : Z) (s : string) : string :=
  String.string_of_list_ascii (slice_to limit (String.list_ascii_of_string s)).

Definition str_from (start : Z) (s : string) : string :=
  String.string_of_list_ascii
    (slice_from start (String.list_ascii_of_string s)).

(** [s.startswith(prefix)] *)
Definition str_startswith (s prefix : string) : bool := String.prefix prefix s.

(** [needle in s] *)
Fixpoint str_contains (needle s : string) : bool :=
  String.prefix needle s
  || match s with
     | EmptyString => false
     | String _ s' => str_contains needle s'
     end.

(** [s.lstrip(c)] and [s.rstrip(c)] for a one-character [c]. *)
Fixpoint str_lstrip (c : ascii) (s : string) : string :=
  match s with
  | EmptyString => EmptyString
  | String x rest => if Ascii.eqb x c then str_lstrip c rest else s
  end.

Fixpoint str_rstrip (c : ascii) (s : string) : string :=
  match s with
  | EmptyString => EmptyString
  | String x rest =>
      match str_rstrip c rest with
      | EmptyString =>
          if Ascii.eqb x c then EmptyString else String x EmptyString
      | rest' => String x rest'
      end
  end.

(** [s.strip(c)] *)
Definition str_strip (c : ascii) (s : string) : string :=
  str_rstrip c (str_lstrip c s).

(** [s.split(sep)] for a one-character [sep]: the pieces between the
    separators, empty ones included; never the empty list. *)
Fixpoint str_split (sep : ascii) (s : string) : list string :=
  match s with
  | EmptyString => [EmptyString]
  | String x rest =>
      if Ascii.eqb x sep then EmptyString :: str_split sep rest
      else match str_split sep rest with
           | part :: parts => String x part :: parts
           | [] => [String x EmptyString]
           end
  end.

(** ** Slack payloads *)

(** One entry of a message's ['reactions'] list. *)
Record SlackReaction := {
  reaction_name : option string;
  reaction_users : option (list string);
  reaction_count : option Z
}.

(** A message as [conversations.history] and [conversations.replies]
    return it. [msg_edited] says whether the key ['edited'] is present;
    [msg_other] holds the keys the program never reads. *)
Record SlackMsg := {
  msg_ts : option string;
  msg_user : option string;
  msg_text : option string;
  msg_thread_ts : option string;
  msg_reply_count : option Z;
  msg_type : option string;
  msg_edited : bool;
  msg_reactions : option (list SlackReaction);
  msg_other : list (string * string)
}.

(** The ['user'] object of [users.info]. *)
Record SlackUser := {
  su_id : string;
  su_name : option string;
  su_real_name : option string;
  su_display_name : option string;
  su_is_bot : option bool;
  su_other : list (string * string)
}.

(** A match of [search.messages]. *)
Record SlackMatch := {
  match_channel_id : option string;
  match_channel_name : option string;
  match_ts : option string;
  match_user : option string;
  match_username : option string;
  match_text : option string;
  match_thread_ts : option string;
  match_score : option Q;
  match_permalink : option string
}.

(** One page of [conversations.history]. *)
Record HistoryPage := {
  page_messages : list SlackMsg;
  page_next_cursor : option string
}.

(** The calls of [slack_sdk]'s [AsyncWebClient] the program makes; [None]
    is a [SlackApiError]. *)
Record WebClient := {
  conversations_history :
    string -> option string -> option string -> Z -> option HistoryPage;
  conversations_replies : string -> string -> Z -> option (list SlackMsg);
  users_info : string -> option (option SlackUser);
  search_messages_api : string -> Z -> option (list SlackMatch)
}.

(** ** db/models.py *)

Module Models.

(** The [metadata] of a message: the keys of the payload that have no
    column of their own. ['reactions'] is one of them. *)
Record Metadata := {
  md_reactions : option (list SlackReaction);
  md_other : list (string * string)
}.

Definition empty_metadata : Metadata :=
  {| md_reactions := None; md_other := [] |}.

Record Channel := {
  ch_id : string;
  ch_name : option string;
  channel_type : string;
  is_archived : bool;
  ch_created_at : option Time;
  ch_updated_at : option Time
}.

Record User := {
  u_id : string;
  u_name : option string;
  u_real_name : option string;
  u_display_name : option string;
  u_is_bot : bool;
  u_updated_at : option Time;
  u_metadata : list (string * string)
}.

Record Message := {
  id : option Z;
  channel_id : string;
  ts : string;
  user_id : option string;
  text : option string;
  thread_ts : option string;
  reply_count : Z;
  is_edited : bool;
  message_type : string;
  created_at : option Time;
  updated_at : option Time;
  metadata : Metadata
}.

Record Reaction := {
  r_id : option Z;
  r_message_id : Z;
  r_name : string;
  r_user_id : string;
  r_created_at : option Time
}.

Record SyncState := {
  ss_channel_id : string;
  last_ts : option string;
  last_sync_at : option Time
}.

Record Reminder := {
  rem_id : string;
  rem_user_id : string;
  rem_text : option string;
  rem_time : option Time;
  rem_complete_ts : option Time;
  rem_recurring : bool
}.

(** [Message.is_thread_reply] *)
Definition is_thread_reply (m : Message) : bool :=
  match thread_ts m with
  | Some t => negb (String.eqb t (ts m))
  | None => false
  end.

(** [Message.is_thread_parent] *)
Definition is_thread_parent (m : Message) : bool := 0 <? reply_count m.

(** [Message.from_slack]. [fromtimestamp] stands for
    [datetime.fromtimestamp(float(ts))], [None] when that raises
    [ValueError] or [TypeError], the exceptions the method catches; a
    number outside the range of [datetime] raises another exception, which
    is not modelled. *)
Definition from_slack (fromtimestamp : string -> option Time)
    (channel : string) (msg : SlackMsg) : Message :=
  let ts := get_or "" (msg_ts msg) in
  let created_at :=
    if truthy (Some ts) then fromtimestamp ts else None in
  {| id := None;
     channel_id := channel;
     ts := ts;
     user_id := msg_user msg;
     text := msg_text msg;
     thread_ts := msg_thread_ts msg;
     reply_count := get_or 0 (msg_reply_count msg);
     is_edited := msg_edited msg;
     message_type := get_or "message" (msg_type msg);
     created_at := created_at;
     updated_at := None;
     metadata := {| md_reactions := msg_reactions msg;
                    md_other := msg_other msg |} |}.

End Models.

(** ** The environment *)

Record Env := {
  (** the Slack Web API *)
  web : WebClient;
  (** [NOW()] *)
  now : Time;
  (** [datetime.fromtimestamp(float(ts))] *)
  fromtimestamp : string -> option Time;
  (** the rows [upsert_message] cannot store: the statement raises *)
  storage_rejects : Models.Message -> bool;
  (** [client.user_id], set by [authenticate()] *)
  client_user_id : option string;
  (** whether the search service was given an embedding service *)
  embedding_service : bool;
  (** the nearest-neighbour query of [_vector_search], rows converted by
      [_row_to_message]: message, channel name, user name, similarity *)
  vector_query :
    list Q -> Z -> list (Models.Message * option string * option string * Q)
}.

(** ** db/repository.py *)

Module Repository.
Import Models.

(** A row of [messages]: [id] is never null in the table. *)
Record MessageRow := {
  row_id : Z;
  row_channel_id : string;
  row_ts : string;
  row_user_id : option string;
  row_text : option string;
  row_thread_ts : option string;
  row_reply_count : Z;
  row_is_edited : bool;
  row_message_type : string;
  row_created_at : option Time;
  row_updated_at : option Time;
  row_metadata : Metadata
}.

(** A row of [reactions]. *)
Record ReactionRow := {
  rr_id : Z;
  rr_message_id : Z;
  rr_name : string;
  rr_user_id : string;
  rr_created_at : Time
}.

Record Database := {
  channels : gmap string Channel;
  users : gmap string User;
  messages : list MessageRow;
  messages_id_seq : Z;
  reactions : list ReactionRow;
  reactions_id_seq : Z;
  sync_state : gmap string SyncState;
  reminders : gmap string Reminder
}.

Definition empty_db : Database :=
  {| channels := ∅; users := ∅; messages := []; messages_id_seq := 1;
     reactions := []; reactions_id_seq := 1; sync_state := ∅;
     reminders := ∅ |}.

Definition set_users (f : gmap string User -> gmap string User)
    (db : Database) : Database :=
  {| channels := channels db; users := f (users db);
     messages := messages db; messages_id_seq := messages_id_seq db;
     reactions := reactions db; reactions_id_seq := reactions_id_seq db;
     sync_state := sync_state db; reminders := reminders db |}.

Definition set_messages (rows : list MessageRow) (seq : Z)
    (db : Database) : Database :=
  {| channels := channels db; users := users db;
     messages := rows; messages_id_seq := seq;
     reactions := reactions db; reactions_id_seq := reactions_id_seq db;
     sync_state := sync_state db; reminders := reminders db |}.

Definition set_reactions (rows : list ReactionRow) (seq : Z)
    (db : Database) : Database :=
  {| channels := channels db; users := users db;
     messages := messages db; messages_id_seq := messages_id_seq db;
     reactions := rows; reactions_id_seq := seq;
     sync_state := sync_state db; reminders := reminders db |}.

Definition set_sync_state (f : gmap string SyncState -> gmap string SyncState)
    (db : Database) : Database :=
  {| channels := channels db; users := users db;
     messages := messages db; messages_id_seq := messages_id_seq db;
     reactions := reactions db; reactions_id_seq := reactions_id_seq db;
     sync_state := f (sync_state db); reminders := reminders db |}.

(** *** The monad of database code *)

Definition M (A : Type) : Type := Database -> Database * result A.

Definition ret {A} (a : A) : M A := fun db => (db, Ok a).

Definition raise {A} (e : exn) : M A := fun db => (db, Raise e).

Definition bind {A B} (c : M A) (k : A -> M B) : M B :=
  fun db =>
    match c db with
    | (db', Ok a) => k a db'
    | (db', Raise e) => (db', Raise e)
    end.

(** [for x in xs: body(x)] *)
Fixpoint for_each {A} (body : A -> M unit) (xs : list A) : M unit :=
  match xs with
  | [] => ret tt
  | x :: rest => bind (body x) (fun _ => for_each body rest)
  end.

(** *** Message operations *)

(** The key of [UNIQUE (channel_id, ts)]. *)
Definition row_key (r : MessageRow) : string * string :=
  (row_channel_id r, row_ts r).

Definition has_key (channel ts : string) (r : MessageRow) : bool :=
  String.eqb (row_channel_id r) channel && String.eqb (row_ts r) ts.

(** [ON CONFLICT (channel_id, ts) DO UPDATE SET ...]: the columns the
    statement assigns take the proposed values, the others stay. *)
Definition conflict_update (env : Env) (m : Message) (r : MessageRow)
    : MessageRow :=
  {| row_id := row_id r;
     row_channel_id := row_channel_id r;
     row_ts := row_ts r;
     row_user_id := user_id m;
     row_text := text m;
     row_thread_ts := thread_ts m;
     row_reply_count := reply_count m;
     row_is_edited := is_edited m;
     row_message_type := row_message_type r;
     row_created_at := row_created_at r;
     row_updated_at := Some (now env);
     row_metadata := metadata m |}.

(** The row [INSERT INTO messages ... VALUES ...] adds. *)
Definition inserted_row (env : Env) (i : Z) (m : Message) : MessageRow :=
  {| row_id := i;
     row_channel_id := channel_id m;
     row_ts := ts m;
     row_user_id := user_id m;
     row_text := text m;
     row_thread_ts := thread_ts m;
     row_reply_count := reply_count m;
     row_is_edited := is_edited m;
     row_message_type := message_type m;
     row_created_at := created_at m;
     row_updated_at := Some (now env);
     row_metadata := metadata m |}.

(** The conflicting row, if there is one, updated in place; the result
    carries its id ([RETURNING id]). *)
Fixpoint update_on_conflict (env : Env) (m : Message)
    (rows : list MessageRow) : option (Z * list MessageRow) :=
  match rows with
  | [] => None
  | r :: rest =>
      if has_key (channel_id m) (ts m) r
      then Some (row_id r, conflict_update env m r :: rest)
      else match update_on_conflict env m rest with
           | Some (i, rest') => Some (i, r :: rest')
           | None => None
           end
  end.

(** [Repository.upsert_message]. The statement draws the next value of the
    id sequence for the row it proposes before the conflict is seen, so the
    sequence moves on also when the statement ends as an update. *)
Definition upsert_message (env : Env) (m : Message) : M Z :=
  fun db =>
    if storage_rejects env m then (db, Raise StorageError)
    else
      let i := messages_id_seq db in
      match update_on_conflict env m (messages db) with
      | Some (j, rows) => (set_messages rows (i + 1) db, Ok j)
      | None =>
          (set_messages (messages db ++ [inserted_row env i m]) (i + 1) db,
           Ok i)
      end.

(** [Repository._row_to_message] *)
Definition _row_to_message (r : MessageRow) : Message :=
  {| id := Some (row_id r);
     channel_id := row_channel_id r;
     ts := row_ts r;
     user_id := row_user_id r;
     text := row_text r;
     thread_ts := row_thread_ts r;
     reply_count := row_reply_count r;
     is_edited := row_is_edited r;
     message_type := row_message_type r;
     created_at := row_created_at r;
     updated_at := row_updated_at r;
     metadata := row_metadata r |}.

(** [Repository.get_message] *)
Definition get_message (channel ts : string) (db : Database)
    : option Message :=
  _row_to_message <$> find (has_key channel ts) (messages db).

(** [Repository.get_message_by_id] *)
Definition get_message_by_id (message_id : Z) (db : Database)
    : option Message :=
  _row_to_message <$> find (fun r => row_id r =? message_id) (messages db).

(** *** Reaction operations *)

(** The key of a reaction row. Modelled from the spec: the schema is not
    part of the sources; the data model gives a reaction the key
    [(message_id, emoji_name, user_id)], which is what
    [ON CONFLICT DO NOTHING] can conflict on. *)
Definition reaction_key (r : ReactionRow) : Z * string * string :=
  (rr_message_id r, rr_name r, rr_user_id r).

(** [INSERT INTO reactions ... ON CONFLICT DO NOTHING], for a [message_id]
    that is the id of a stored message. The id of the proposed row is drawn
    from the sequence before the conflict is seen. *)
Definition insert_reaction (env : Env) (message_id : Z) (name user : string)
    (tbl : list ReactionRow * Z) : list ReactionRow * Z :=
  let '(rows, seq) := tbl in
  if bool_decide ((message_id, name, user) ∈ reaction_key <$> rows)
  then (rows, seq + 1)
  else (rows ++ [{| rr_id := seq; rr_message_id := message_id;
                    rr_name := name; rr_user_id := user;
                    rr_created_at := now env |}], seq + 1).

(** The two nested loops of [upsert_reactions]. *)
Definition insert_reactions (env : Env) (message_id : Z)
    (reactions : list SlackReaction) (tbl : list ReactionRow * Z)
    : list ReactionRow * Z :=
  foldl (fun tbl reaction =>
           let name := get_or "" (reaction_name reaction) in
           let users := get_or [] (reaction_users reaction) in
           foldl (fun tbl user => insert_reaction env message_id name user tbl)
                 tbl users)
        tbl reactions.

(** Whether the two loops of [upsert_reactions] reach no [INSERT]: every
    entry of the snapshot has an empty or absent ['users']. *)
Definition inserts_nothing (snapshot : list SlackReaction) : bool :=
  forallb (fun reaction =>
             match get_or [] (reaction_users reaction) with
             | [] => true
             | _ :: _ => false
             end) snapshot.

(** [Repository.upsert_reactions]: delete the message's rows, insert the
    given ones. [message_id] is a foreign key: for an id that is not the id
    of a stored message the first [INSERT] raises, after the [DELETE] has
    been done (the statements are not in one transaction) and the id of the
    refused row has been drawn. *)
Definition upsert_reactions (env : Env) (message_id : Z)
    (snapshot : list SlackReaction) : M unit :=
  fun db =>
    let kept := filter (fun r => rr_message_id r ≠ message_id) (reactions db) in
    if bool_decide (message_id ∈ row_id <$> messages db)
       || inserts_nothing snapshot
    then
      let '(rows, seq) :=
        insert_reactions env message_id snapshot (kept, reactions_id_seq db) in
      (set_reactions rows seq db, Ok tt)
    else (set_reactions kept (reactions_id_seq db + 1) db, Raise StorageError).

(** [Repository.get_reactions] *)
Definition get_reactions (message_id : Z) (db : Database) : list Reaction :=
  (fun r => {| r_id := Some (rr_id r); r_message_id := rr_message_id r;
               r_name := rr_name r; r_user_id := rr_user_id r;
               r_created_at := Some (rr_created_at r) |})
    <$> filter (fun r => rr_message_id r = message_id) (reactions db).

(** *** Channels and users *)

(** [Repository.get_channel] *)
Definition get_channel (channel : string) (db : Database) : option Channel :=
  channels db !! channel.

(** [Repository.get_all_channels]: the channels that are not archived, in
    the order the table yields them. *)
Definition get_all_channels (db : Database) : list Channel :=
  filter (fun c => is_archived c = false) (snd <$> map_to_list (channels db)).

(** [Repository.get_user] *)
Definition get_user (user : string) (db : Database) : option User :=
  users db !! user.

(** [Repository.upsert_user] *)
Definition upsert_user (env : Env) (u : User) : M unit :=
  fun db =>
    let row := {| u_id := u_id u; u_name := u_name u;
                  u_real_name := u_real_name u;
                  u_display_name := u_display_name u;
                  u_is_bot := u_is_bot u;
                  u_updated_at := Some (now env);
                  u_metadata := u_metadata u |} in
    (set_users (insert (u_id u) row) db, Ok tt).

(** *** Sync state *)

(** [Repository.get_sync_state] *)
Definition get_sync_state (channel : string) (db : Database)
    : option SyncState :=
  sync_state db !! channel.

(** [Repository.upsert_sync_state] *)
Definition upsert_sync_state (env : Env) (s : SyncState) : M unit :=
  fun db =>
    let row := {| ss_channel_id := ss_channel_id s; last_ts := last_ts s;
                  last_sync_at := Some (now env) |} in
    (set_sync_state (insert (ss_channel_id s) row) db, Ok tt).

(** *** Reminders *)

(** [Repository.get_pending_reminders] *)
Definition get_pending_reminders (user : string) (db : Database)
    : list Reminder :=
  stable_sort (fun a b => asc_nulls_last (rem_time a) (rem_time b))
    (filter (fun r => rem_user_id r = user ∧ rem_complete_ts r = None)
       (snd <$> map_to_list (reminders db))).

(** *** Status queries *)

Definition newest_first (rows : list MessageRow) : list MessageRow :=
  stable_sort
    (fun a b => desc_nulls_first (row_created_at a) (row_created_at b)) rows.

(** [m.text LIKE pattern]; a null text satisfies no pattern. *)
Definition text_like (pattern : string) (r : MessageRow) : bool :=
  match row_text r with
  | Some t => like pattern t
  | None => false
  end.

(** [Repository.get_unread_mentions] *)
Definition get_unread_mentions (user : string) (since : option Time)
    (db : Database) : list Message :=
  _row_to_message <$>
    take 50 (newest_first
      (List.filter
         (fun r => text_like ("%<@" +:+ user +:+ ">%") r
                   && created_after since (row_created_at r))
         (messages db))).

(** [JOIN channels c ON m.channel_id = c.id WHERE c.channel_type = 'im'] *)
Definition in_im_channel (db : Database) (r : MessageRow) : bool :=
  match channels db !! row_channel_id r with
  | Some c => String.eqb (channel_type c) "im"
  | None => false
  end.

(** [Repository.get_dm_messages] *)
Definition get_dm_messages (since : option Time) (db : Database)
    : list Message :=
  _row_to_message <$>
    take 50 (newest_first
      (List.filter
         (fun r => in_im_channel db r
                   && created_after since (row_created_at r))
         (messages db))).

(** The CTE [user_threads]:
    [SELECT DISTINCT channel_id, COALESCE(thread_ts, ts) ... WHERE user_id = $1]. *)
Definition user_threads (user : string) (db : Database)
    : list (string * string) :=
  remove_dups
    ((fun r => (row_channel_id r, default (row_ts r) (row_thread_ts r)))
       <$> List.filter
             (fun r => bool_decide (row_user_id r = Some user)) (messages db)).

(** [m.channel_id = ut.channel_id AND (m.ts = ut.thread_ts OR m.thread_ts = ut.thread_ts)] *)
Definition in_thread (r : MessageRow) (ut : string * string) : bool :=
  String.eqb (row_channel_id r) (fst ut)
  && (String.eqb (row_ts r) (snd ut)
      || bool_decide (row_thread_ts r = Some (snd ut))).

(** [m.user_id != $1]: false for a null author. *)
Definition other_author (user : string) (r : MessageRow) : bool :=
  match row_user_id r with
  | Some u => negb (String.eqb u user)
  | None => false
  end.

(** [Repository.get_threads_with_replies]: the rows, each with the
    [channel_name] column of the join. *)
Definition get_threads_with_replies (user : string) (since : option Time)
    (db : Database) : list (MessageRow * option string) :=
  let joined :=
    r ← messages db;
    ut ← List.filter (in_thread r) (user_threads user db);
    match channels db !! row_channel_id r with
    | Some c => [(r, ch_name c)]
    | None => []
    end in
  take 100
    (stable_sort
       (fun a b =>
          desc_nulls_first (row_created_at a.1) (row_created_at b.1))
       (List.filter
          (fun rc => other_author user rc.1
                     && created_after since (row_created_at rc.1))
          joined)).

End Repository.

(** ** slack/client.py *)

Module SlackClient.

(** The [while True] loop of [get_channel_history]. The loop ends when the
    cap is reached or a page carries no continuation cursor; [fuel] bounds
    the number of pages requested, and [None] means the bound was hit.
    A [SlackApiError] discards what was gathered: the method returns [[]]. *)
Fixpoint history_loop (fuel : nat) (w : WebClient) (channel : string)
    (oldest : option string) (limit : Z) (messages : list SlackMsg)
    (cursor : option string) : option (list SlackMsg) :=
  match fuel with
  | O => None
  | S fuel' =>
      let kw_limit := Z.min (limit - Z.of_nat (length messages)) 100 in
      let kw_oldest := if truthy oldest then oldest else None in
      let kw_cursor := if truthy cursor then cursor else None in
      match conversations_history w channel kw_oldest kw_cursor kw_limit with
      | None => Some []
      | Some response =>
          let messages := messages ++ page_messages response in
          if limit <=? Z.of_nat (length messages) then Some messages
          else
            let cursor := page_next_cursor response in
            if truthy cursor
            then history_loop fuel' w channel oldest limit messages cursor
            else Some messages
      end
  end.

(** [SlackClient.get_channel_history] *)
Definition get_channel_history (fuel : nat) (w : WebClient) (channel : string)
    (oldest : option string) (limit : Z) : option (list SlackMsg) :=
  history_loop fuel w channel oldest limit [] None.

(** [SlackClient.get_thread_replies]: the first message of the response is
    the parent, the rest are the replies. *)
Definition get_thread_replies (w : WebClient) (channel thread : string)
    (limit : Z) : list SlackMsg :=
  match conversations_replies w channel thread limit with
  | Some messages =>
      if 1 <? Z.of_nat (length messages) then drop 1 messages else []
  | None => []
  end.

(** [SlackClient.get_user_info] *)
Definition get_user_info (w : WebClient) (user : string) : option SlackUser :=
  match users_info w user with
  | Some response => response
  | None => None
  end.

(** [SlackClient.search_messages] *)
Definition search_messages (w : WebClient) (query : string) (count : Z)
    : list SlackMatch :=
  match search_messages_api w query count with
  | Some matches => matches
  | None => []
  end.

(** [s.replace('.', '')] *)
Fixpoint remove_dots (s : string) : string :=
  match s with
  | EmptyString => EmptyString
  | String c rest =>
      if Ascii.eqb c "."%char then remove_dots rest
      else String c (remove_dots rest)
  end.

(** [SlackClient.get_message_link] *)
Definition get_message_link (channel message_ts : string)
    (thread_ts : option string) : string :=
  let base_url :=
    "https://slack.com/archives/" +:+ channel +:+ "/p"
      +:+ remove_dots message_ts in
  match thread_ts with
  | Some t =>
      if truthy thread_ts && negb (String.eqb t message_ts)
      then base_url +:+ "?thread_ts=" +:+ remove_dots t
      else base_url
  | None => base_url
  end.

End SlackClient.

(** ** slack/poller.py *)

Module SlackPoller.
Import Models Repository SlackClient.

(** [if reactions := data.get('reactions'): upsert_reactions(...)]: an
    absent or empty list is falsy and nothing is written. *)
Definition store_reactions (env : Env) (message_id : Z) (data : SlackMsg)
    : M unit :=
  match msg_reactions data with
  | Some (r :: rs) => upsert_reactions env message_id (r :: rs)
  | _ => ret tt
  end.

(** [SlackPoller._ensure_user_cached] *)
Definition _ensure_user_cached (env : Env) (user : string) : M unit :=
  fun db =>
    match get_user user db with
    | Some _ => (db, Ok tt)
    | None =>
        match get_user_info (web env) user with
        | None => (db, Ok tt)
        | Some info =>
            upsert_user env
              {| u_id := su_id info; u_name := su_name info;
                 u_real_name := su_real_name info;
                 u_display_name := su_display_name info;
                 u_is_bot := get_or false (su_is_bot info);
                 u_updated_at := None;
                 u_metadata := su_other info |} db
        end
    end.

(** [if m.user_id: await self._ensure_user_cached(m.user_id)] *)
Definition cache_author (env : Env) (m : Message) : M unit :=
  match user_id m with
  | Some u => if truthy (Some u) then _ensure_user_cached env u else ret tt
  | None => ret tt
  end.

(** The body of the loop of [_sync_thread_replies]. *)
Definition sync_reply (env : Env) (channel : string) (reply_data : SlackMsg)
    : M unit :=
  let reply := from_slack (fromtimestamp env) channel reply_data in
  bind (upsert_message env reply) (fun message_id =>
  bind (store_reactions env message_id reply_data) (fun _ =>
  cache_author env reply)).

(** [SlackPoller._sync_thread_replies] *)
Definition _sync_thread_replies (env : Env) (channel thread : string)
    : M unit :=
  for_each (sync_reply env channel)
    (get_thread_replies (web env) channel thread 100).

(** [oldest and msg.ts <= oldest] *)
Definition already_seen (oldest : option string) (m : Message) : bool :=
  match oldest with
  | Some o => truthy oldest && String.leb (ts m) o
  | None => false
  end.

(** The body of the loop of [_sync_channel_messages]. *)
Definition sync_message (env : Env) (channel : string)
    (oldest : option string) (msg_data : SlackMsg) : M unit :=
  let msg := from_slack (fromtimestamp env) channel msg_data in
  if already_seen oldest msg then ret tt
  else
    bind (upsert_message env msg) (fun message_id =>
    bind (store_reactions env message_id msg_data) (fun _ =>
    bind (if 0 <? reply_count msg
          then _sync_thread_replies env channel (ts msg)
          else ret tt) (fun _ =>
    cache_author env msg))).

(** [_sync_channel_messages] from the point where the history has been
    fetched. *)
Definition sync_history (env : Env) (channel : Channel)
    (oldest : option string) (messages : list SlackMsg) : M unit :=
  match messages with
  | [] => ret tt
  | first :: _ =>
      let newest_ts := msg_ts first in
      bind (for_each (sync_message env (ch_id channel) oldest)
              (reverse messages)) (fun _ =>
      if truthy newest_ts
      then upsert_sync_state env
             {| ss_channel_id := ch_id channel; last_ts := newest_ts;
                last_sync_at := None |}
      else ret tt)
  end.

(** The [oldest] of a channel: [sync_state.last_ts if sync_state else None]. *)
Definition oldest_of (channel : string) (db : Database) : option string :=
  match get_sync_state channel db with
  | Some s => last_ts s
  | None => None
  end.

(** [SlackPoller._sync_channel_messages]. [None]: the history fetch did not
    finish within [fuel] pages. *)
Definition _sync_channel_messages (fuel : nat) (env : Env) (channel : Channel)
    (db : Database) : option (Database * result unit) :=
  let oldest := oldest_of (ch_id channel) db in
  match get_channel_history fuel (web env) (ch_id channel) oldest 100 with
  | None => None
  | Some messages => Some (sync_history env channel oldest messages db)
  end.

(** The loop of [_sync_all_messages] over the channels. *)
Fixpoint sync_channels_messages (fuel : nat) (env : Env)
    (channels : list Channel) (db : Database)
    : option (Database * result unit) :=
  match channels with
  | [] => Some (db, Ok tt)
  | channel :: rest =>
      match _sync_channel_messages fuel env channel db with
      | None => None
      | Some (db', Ok _) => sync_channels_messages fuel env rest db'
      | Some (db', Raise e) => Some (db', Raise e)
      end
  end.

(** [SlackPoller._sync_all_messages]: one sync cycle. *)
Definition _sync_all_messages (fuel : nat) (env : Env) (db : Database)
    : option (Database * result unit) :=
  sync_channels_messages fuel env (get_all_channels db) db.

End SlackPoller.

(** ** services/search.py *)

Module SearchService.
Import Models Repository SlackClient.

Record SearchResult := {
  message : Message;
  sr_channel_name : option string;
  sr_user_name : option string;
  score : Q;
  link : string;
  match_type : string
}.

(** [EmbeddingService.generate_embedding]: the placeholder of the sources,
    which returns [None] for every text. *)
Definition generate_embedding (text : string) : option (list Q) := None.

(** [SearchService._vector_search] *)
Definition _vector_search (env : Env) (query : string) (limit : Z)
    : list SearchResult :=
  if negb (embedding_service env) then []
  else match generate_embedding query with
       | None => []
       | Some query_embedding =>
           (fun '(m, channel_name, user_name, similarity) =>
              {| message := m;
                 sr_channel_name := channel_name;
                 sr_user_name := user_name;
                 score := similarity;
                 link := get_message_link (channel_id m) (ts m) (thread_ts m);
                 match_type := "vector" |})
             <$> vector_query env query_embedding limit
       end.

(** The relevance of a text match:
    [1.0 - (match.start() / len(text)) if match and text else 0.5]. *)
Definition text_score (query text : string) : Q :=
  match re_search query text with
  | Some start =>
      if negb (String.eqb text "")
      then 1 - inject_Z (Z.of_nat start) / inject_Z (Z.of_nat (String.length text))
      else 1 # 2
  | None => 1 # 2
  end.

(** [m.text ILIKE pattern] *)
Definition text_ilike (pattern : string) (r : MessageRow) : bool :=
  match row_text r with
  | Some t => ilike pattern t
  | None => false
  end.

(** [LEFT JOIN channels c ... c.name as channel_name] *)
Definition joined_channel_name (db : Database) (r : MessageRow)
    : option string :=
  match channels db !! row_channel_id r with
  | Some c => ch_name c
  | None => None
  end.

(** [LEFT JOIN users u ... u.display_name as user_name] *)
Definition joined_user_name (db : Database) (r : MessageRow)
    : option string :=
  match row_user_id r with
  | Some u =>
      match users db !! u with
      | Some row => u_display_name row
      | None => None
      end
  | None => None
  end.

(** The result [_text_search] builds from a row. *)
Definition text_result (query : string) (db : Database) (r : MessageRow)
    : SearchResult :=
  let m := _row_to_message r in
  {| message := m;
     sr_channel_name := joined_channel_name db r;
     sr_user_name := joined_user_name db r;
     score := text_score query (get_or "" (text m));
     link := get_message_link (channel_id m) (ts m) (thread_ts m);
     match_type := "text" |}.

(** [SearchService._text_search]. The argument of [LIMIT $2] is a 64-bit
    integer: the driver refuses a [limit] outside that range, and
    PostgreSQL refuses a negative one. *)
Definition _text_search (query : string) (limit : Z) (db : Database)
    : result (list SearchResult) :=
  if (limit <? - 2 ^ 63) || (2 ^ 63 <=? limit) then Raise DataError
  else if limit <? 0 then Raise StorageError
  else
    Ok (text_result query db <$>
          take (Z.to_nat limit)
            (newest_first
               (List.filter (text_ilike ("%" +:+ query +:+ "%"))
                  (messages db)))).

(** The result [_slack_api_search] builds from a match;
    [datetime.fromtimestamp(float(ts))] is not guarded here. *)
Definition api_result (env : Env) (m : SlackMatch) : result SearchResult :=
  let channel := get_or "" (match_channel_id m) in
  let ts := get_or "" (match_ts m) in
  let build created :=
    Ok {| message :=
            {| id := None; channel_id := channel; ts := ts;
               user_id := match_user m; text := match_text m;
               thread_ts := match_thread_ts m; reply_count := 0;
               is_edited := false; message_type := "message";
               created_at := created; updated_at := None;
               metadata := empty_metadata |};
          sr_channel_name := match_channel_name m;
          sr_user_name := match_username m;
          score := get_or (1 # 2) (match_score m);
          link := get_or (get_message_link channel ts None) (match_permalink m);
          match_type := "slack_api" |} in
  if truthy (Some ts)
  then match fromtimestamp env ts with
       | Some t => build (Some t)
       | None => Raise ValueError
       end
  else build None.

(** [SearchService._slack_api_search] *)
Fixpoint api_results (env : Env) (matches : list SlackMatch)
    : result (list SearchResult) :=
  match matches with
  | [] => Ok []
  | m :: rest =>
      match api_result env m with
      | Raise e => Raise e
      | Ok r =>
          match api_results env rest with
          | Raise e => Raise e
          | Ok rs => Ok (r :: rs)
          end
      end
  end.

Definition _slack_api_search (env : Env) (query : string) (limit : Z)
    : result (list SearchResult) :=
  api_results env (search_messages (web env) query limit).

(** [f'{result.message.channel_id}:{result.message.ts}'] *)
Definition result_key (r : SearchResult) : string :=
  channel_id (message r) +:+ ":" +:+ ts (message r).

(** The deduplication loop of [search]. *)
Fixpoint unique_by_key (seen : gset string) (results : list SearchResult)
    : list SearchResult :=
  match results with
  | [] => []
  | r :: rest =>
      if decide (result_key r ∈ seen) then unique_by_key seen rest
      else r :: unique_by_key ({[result_key r]} ∪ seen) rest
  end.

(** [sorted(results, key=lambda r: r.score, reverse=True)] *)
Definition by_score_desc (results : list SearchResult) : list SearchResult :=
  stable_sort (fun a b => Qle_bool (score b) (score a)) results.

(** What [search] does with the gathered results. *)
Definition combine (limit : Z) (results : list SearchResult)
    : list SearchResult :=
  slice_to limit (unique_by_key ∅ (by_score_desc results)).

(** [SearchService.search] *)
Definition search (env : Env) (query : string) (limit : Z)
    (use_vector use_text use_slack_api : bool) (db : Database)
    : result (list SearchResult) :=
  let vector_results :=
    if use_vector && embedding_service env
    then _vector_search env query limit else [] in
  match (if use_text then _text_search query limit db else Ok []) with
  | Raise e => Raise e
  | Ok text_results =>
      match (if use_slack_api then _slack_api_search env query limit
             else Ok []) with
      | Raise e => Raise e
      | Ok api_results =>
          Ok (combine limit (vector_results ++ text_results ++ api_results))
      end
  end.

(** What [find_context] reads of the result of [urllib.parse.urlparse]. *)
Record ParsedUrl := {
  url_scheme : string;
  url_netloc : string;
  url_path : string;
  url_query : string
}.

(** The two functions of [urllib.parse] that [find_context] calls.
    [parse_qs query key] is [parse_qs(query).get(key)]: the values of the
    key, of which the library gives at least one, as the first and the
    others. *)
Record UrlLib := {
  urlparse : string -> ParsedUrl;
  parse_qs : string -> string -> option (string * list string)
}.

(** The first part of [find_context]: the [channel_id] and [message_ts]
    read from the link. *)
Definition link_target (lib : UrlLib) (message_link : string)
    : option string * option string :=
  let parsed := urlparse lib message_link in
  if str_contains "slack.com" (url_netloc parsed)
     || str_startswith (url_path parsed) "/archives/"
  then
    match str_split "/" (str_strip "/" (url_path parsed)) with
    | part0 :: part1 :: rest =>
        if String.eqb part0 "archives" then
          (Some part1,
           match rest with
           | ts_part :: _ =>
               if str_startswith ts_part "p" then
                 let ts_digits := str_from 1 ts_part in
                 Some (str_to (-6) ts_digits +:+ "." +:+ str_from (-6) ts_digits)
               else None
           | [] => None
           end)
        else (None, None)
    | _ => (None, None)
    end
  else if String.eqb (url_scheme parsed) "slack" then
    let params := parse_qs lib (url_query parsed) in
    (fst <$> params "id", fst <$> params "message")
  else (None, None).

(** [SearchService.find_context] *)
Definition find_context (lib : UrlLib) (env : Env) (message_link : string)
    (limit : Z) (db : Database) : result (list SearchResult) :=
  let '(channel, message_ts) := link_target lib message_link in
  if negb (truthy channel) || negb (truthy message_ts) then Ok []
  else
    match get_message (get_or "" channel) (get_or "" message_ts) db with
    | None => Ok []
    | Some source_message =>
        if truthy (text source_message)
        then search env (get_or "" (text source_message)) limit
               true true false db
        else Ok []
    end.

End SearchService.

(** ** services/status.py *)

Module StatusService.
Import Models Repository SlackClient.

Inductive Priority := CRITICAL | HIGH | MEDIUM | LOW.

(** [Priority.value] *)
Definition value (p : Priority) : Z :=
  match p with
  | CRITICAL => 1
  | HIGH => 2
  | MEDIUM => 3
  | LOW => 4
  end.

Record StatusItem := {
  priority : Priority;
  si_channel_id : string;
  si_channel_name : option string;
  message_ts : string;
  si_thread_ts : option string;
  si_user_id : option string;
  si_user_name : option string;
  text_preview : string;
  timestamp : option Time;
  si_link : string;
  reason : string
}.

(** An entry of [Status.reminders]. *)
Record ReminderView := {
  rv_id : string;
  rv_text : option string;
  rv_time : option Time;
  rv_recurring : bool
}.

Record Status := {
  items : list StatusItem;
  status_reminders : list ReminderView;
  generated_at : Time
}.

(** [StatusService._truncate] *)
Definition _truncate (text : string) (max_len : Z) : string :=
  if Z.of_nat (String.length text) <=? max_len then text
  else String.string_of_list_ascii
         (slice_to (max_len - 3) (String.list_ascii_of_string text)) +:+ "...".

(** [user.display_name or user.name if user else None] *)
Definition shown_name (user : option User) : option string :=
  match user with
  | Some u => if truthy (u_display_name u) then u_display_name u else u_name u
  | None => None
  end.

(** [text or ''] *)
Definition or_empty (text : option string) : string :=
  if truthy text then get_or "" text else "".

(** [await self.repository.get_user(uid) if uid else None] *)
Definition lookup_author (user : option string) (db : Database)
    : option User :=
  match user with
  | Some u => if truthy user then get_user u db else None
  | None => None
  end.

(** The item [_get_mentions] and [_get_dms] build from a message. *)
Definition message_item (p : Priority) (why : string) (db : Database)
    (msg : Message) : StatusItem :=
  let channel := get_channel (channel_id msg) db in
  let user := lookup_author (user_id msg) db in
  {| priority := p;
     si_channel_id := channel_id msg;
     si_channel_name := match channel with
                        | Some c => ch_name c
                        | None => None
                        end;
     message_ts := ts msg;
     si_thread_ts := thread_ts msg;
     si_user_id := user_id msg;
     si_user_name := shown_name user;
     text_preview := _truncate (or_empty (text msg)) 100;
     timestamp := created_at msg;
     si_link := get_message_link (channel_id msg) (ts msg) (thread_ts msg);
     reason := why |}.

(** [StatusService._get_mentions] *)
Definition _get_mentions (me : string) (since : Time) (db : Database)
    : list StatusItem :=
  message_item CRITICAL "You were mentioned" db
    <$> get_unread_mentions me (Some since) db.

(** [StatusService._get_dms] *)
Definition _get_dms (env : Env) (since : Time) (db : Database)
    : list StatusItem :=
  message_item HIGH "Direct message" db
    <$> List.filter
          (fun m => negb (bool_decide (user_id m = client_user_id env)))
          (get_dm_messages (Some since) db).

(** [f'{row["channel_id"]}:{row.get("thread_ts") or row["ts"]}'] *)
Definition thread_key (r : MessageRow) : string :=
  row_channel_id r +:+ ":"
    +:+ (if truthy (row_thread_ts r) then get_or "" (row_thread_ts r)
         else row_ts r).

(** The loop of [_get_thread_replies]: one item for each thread, the first
    row of the thread. *)
Fixpoint thread_items (db : Database) (seen_threads : gset string)
    (rows : list (MessageRow * option string)) : list StatusItem :=
  match rows with
  | [] => []
  | (r, channel_name) :: rest =>
      if decide (thread_key r ∈ seen_threads)
      then thread_items db seen_threads rest
      else
        {| priority := MEDIUM;
           si_channel_id := row_channel_id r;
           si_channel_name := channel_name;
           message_ts := row_ts r;
           si_thread_ts := row_thread_ts r;
           si_user_id := row_user_id r;
           si_user_name := shown_name (lookup_author (row_user_id r) db);
           text_preview := _truncate (or_empty (row_text r)) 100;
           timestamp := row_created_at r;
           si_link :=
             get_message_link (row_channel_id r) (row_ts r) (row_thread_ts r);
           reason := "Reply in thread you participated in" |}
        :: thread_items db ({[thread_key r]} ∪ seen_threads) rest
  end.

(** [StatusService._get_thread_replies] *)
Definition _get_thread_replies (me : string) (since : Time) (db : Database)
    : list StatusItem :=
  thread_items db ∅ (get_threads_with_replies me (Some since) db).

(** [StatusService._get_reminders] *)
Definition _get_reminders (me : string) (db : Database) : list ReminderView :=
  (fun r => {| rv_id := rem_id r; rv_text := rem_text r;
               rv_time := rem_time r; rv_recurring := rem_recurring r |})
    <$> get_pending_reminders me db.

(** The sort key of [get_status]:
    [(x.priority.value, -(x.timestamp.timestamp() if x.timestamp else 0))].
    [timestamp()] is increasing in the instant, so the instant itself is
    compared. *)
Definition sort_key (x : StatusItem) : Z * Z :=
  (value (priority x), - default 0 (timestamp x)).

(** Python's order on pairs. *)
Definition pair_le (a b : Z * Z) : bool :=
  (a.1 <? b.1) || ((a.1 =? b.1) && (a.2 <=? b.2)).

(** [timedelta(hours=n)], with instants counted in microseconds. *)
Definition hours (n : Z) : Z := n * 3600000000.

(** [StatusService.get_status] *)
Definition get_status (env : Env) (hours_back : Z) (db : Database)
    : result Status :=
  match client_user_id env with
  | Some me =>
      if truthy (client_user_id env) then
        let since := now env - hours hours_back in
        let mentions := _get_mentions me since db in
        let dms := _get_dms env since db in
        let threads := _get_thread_replies me since db in
        let reminders := _get_reminders me db in
        Ok {| items :=
                stable_sort (fun x y => pair_le (sort_key x) (sort_key y))
                  (mentions ++ dms ++ threads);
              status_reminders := reminders;
              generated_at := now env |}
      else Raise RuntimeError
  | None => Raise RuntimeError
  end.

#[global] Instance Priority_eq_dec : EqDecision Priority.
Proof. solve_decision. Defined.

(** [Status.by_priority]: the dict starts with an empty list under every
    priority, and the loop appends each item to the list under its own. *)
Definition by_priority (st : Status) : Priority -> list StatusItem :=
  foldl (fun result item p =>
           if decide (p = priority item) then result p ++ [item]
           else result p)
        (fun _ => []) (items st).

End StatusService.

(** ** config.py *)

Module Config.

Record Config := {
  slack_user_token : string;
  database_url : string;
  poll_interval_seconds : Z;
  embedding_model : string
}.

(** [Config.validate] *)
Definition validate (c : Config) : list string :=
  (if negb (truthy (Some (slack_user_token c)))
   then ["SLACK_USER_TOKEN is required"]
   else if negb (str_startswith (slack_user_token c) "xoxp-")
        then ["SLACK_USER_TOKEN should be a user OAuth token (xoxp-...)"]
        else [])
  ++ (if poll_interval_seconds c <? 10
      then ["POLL_INTERVAL_SECONDS should be at least 10 to avoid rate limits"]
      else []).

End Config.

(** ** Example data *)

Module Examples.
Import Models Repository.

(** A workspace that answers no call: every request is a [SlackApiError]. *)
Definition silent_web : WebClient :=
  {| conversations_history := fun _ _ _ _ => None;
     conversations_replies := fun _ _ _ => None;
     users_info := fun _ => None;
     search_messages_api := fun _ _ => None |}.

(** Slack timestamps of the examples are whole seconds. *)
Definition seconds (s : string) : option Time :=
  if String.eqb s "100" then Some 100000000
  else if String.eqb s "200" then Some 200000000
  else if String.eqb s "201" then Some 201000000
  else if String.eqb s "202" then Some 202000000
  else if String.eqb s "300" then Some 300000000
  else None.

Definition env_of (w : WebClient) : Env :=
  {| web := w; now := 1000000000; fromtimestamp := seconds;
     storage_rejects := fun _ => false; client_user_id := Some "U1";
     embedding_service := false; vector_query := fun _ _ => [] |}.

Definition quiet_env : Env := env_of silent_web.

Definition plain_msg (t : string) (user : string) (body : string) : SlackMsg :=
  {| msg_ts := Some t; msg_user := Some user; msg_text := Some body;
     msg_thread_ts := None; msg_reply_count := None; msg_type := None;
     msg_edited := false; msg_reactions := None; msg_other := [] |}.

Definition stored (i : Z) (channel t : string) (user : string)
    (body : string) (created : Time) : MessageRow :=
  {| row_id := i; row_channel_id := channel; row_ts := t;
     row_user_id := Some user; row_text := Some body;
     row_thread_ts := None; row_reply_count := 0; row_is_edited := false;
     row_message_type := "message"; row_created_at := Some created;
     row_updated_at := Some created; row_metadata := empty_metadata |}.

Definition db_with (rows : list MessageRow) : Database :=
  set_messages rows (1 + Z.of_nat (length rows)) empty_db.

(** An edit of the message [C1/100]. *)
Definition hello : MessageRow := stored 1 "C1" "100" "U9" "hello" 100000000.

Definition hello_edited : Message :=
  from_slack seconds "C1"
    {| msg_ts := Some "100"; msg_user := Some "U9";
       msg_text := Some "hello, world"; msg_thread_ts := None;
       msg_reply_count := Some 1; msg_type := Some "message";
       msg_edited := true; msg_reactions := None; msg_other := [] |}.

(** Reactions: a snapshot with one [:+1:] from [U9], and a database that
    still holds an [:eyes:] from [U2] for the message. *)
Definition thumbs_up : SlackReaction :=
  {| reaction_name := Some "+1"; reaction_users := Some ["U9"];
     reaction_count := Some 1 |}.

Definition with_reactions (snapshot : option (list SlackReaction))
    (m : SlackMsg) : SlackMsg :=
  {| msg_ts := msg_ts m; msg_user := msg_user m; msg_text := msg_text m;
     msg_thread_ts := msg_thread_ts m; msg_reply_count := msg_reply_count m;
     msg_type := msg_type m; msg_edited := msg_edited m;
     msg_reactions := snapshot; msg_other := msg_other m |}.

Definition hello_msg : SlackMsg := plain_msg "100" "U9" "hello".

Definition hello_reacted : SlackMsg :=
  with_reactions (Some [thumbs_up]) hello_msg.

Definition stale_db : Database :=
  set_reactions
    [{| rr_id := 1; rr_message_id := 1; rr_name := "eyes";
        rr_user_id := "U2"; rr_created_at := 100000000 |}] 2
    (db_with [hello]).

(** A thread: the message [C1/200] has two replies, and the workspace
    answers [conversations.replies] for it with the parent and the two. *)
Definition threaded (t thread : string) (user body : string)
    (replies : option Z) : SlackMsg :=
  {| msg_ts := Some t; msg_user := Some user; msg_text := Some body;
     msg_thread_ts := Some thread; msg_reply_count := replies;
     msg_type := None; msg_edited := false; msg_reactions := None;
     msg_other := [] |}.

Definition thread_parent : SlackMsg :=
  threaded "200" "200" "U9" "shall we deploy?" (Some 2).

Definition thread_replies : list SlackMsg :=
  [threaded "201" "200" "U2" "yes" None;
   threaded "202" "200" "U9" "tonight then" None].

Definition thread_web : WebClient :=
  {| conversations_history := fun _ _ _ _ => None;
     conversations_replies := fun channel thread _ =>
       if String.eqb channel "C1" && String.eqb thread "200"
       then Some (thread_parent :: thread_replies) else None;
     users_info := fun _ => None;
     search_messages_api := fun _ _ => None |}.

Definition thread_env : Env := env_of thread_web.

Definition parent_row : MessageRow :=
  {| row_id := 1; row_channel_id := "C1"; row_ts := "200";
     row_user_id := Some "U9"; row_text := Some "shall we deploy?";
     row_thread_ts := Some "200"; row_reply_count := 2;
     row_is_edited := false; row_message_type := "message";
     row_created_at := Some 200000000; row_updated_at := Some 200000000;
     row_metadata := empty_metadata |}.

(** A workspace with one channel, [C1], whose history is [remote]
    (newest first): [conversations.history] answers with the messages newer
    than [oldest], in one page. *)
Definition newer_than (oldest : option string) (m : SlackMsg) : bool :=
  match oldest with
  | Some o => negb (String.leb (get_or "" (msg_ts m)) o)
  | None => true
  end.

Definition channel_web (remote : list SlackMsg) : WebClient :=
  {| conversations_history := fun channel oldest _ _ =>
       if String.eqb channel "C1"
       then Some {| page_messages := List.filter (newer_than oldest) remote;
                    page_next_cursor := None |}
       else None;
     conversations_replies := fun _ _ _ => None;
     users_info := fun _ => None;
     search_messages_api := fun _ _ => None |}.

Definition general : Channel :=
  {| ch_id := "C1"; ch_name := Some "general";
     channel_type := "public_channel"; is_archived := false;
     ch_created_at := None; ch_updated_at := None |}.

Definition with_channels (cs : gmap string Channel) (db : Database)
    : Database :=
  {| channels := cs; users := users db; messages := messages db;
     messages_id_seq := messages_id_seq db; reactions := reactions db;
     reactions_id_seq := reactions_id_seq db; sync_state := sync_state db;
     reminders := reminders db |}.

(** The database of a fresh installation that knows the channel. *)
Definition fresh_db : Database :=
  with_channels {[ "C1" := general ]} empty_db.

(** Two messages in [C1], newest first. *)
Definition two_messages : list SlackMsg :=
  [plain_msg "300" "U2" "second"; plain_msg "100" "U9" "hello"].

Definition two_env : Env := env_of (channel_web two_messages).

(** The same workspace seen through a store that refuses the message
    [300]. *)
Definition refusing_env : Env :=
  {| web := channel_web two_messages; now := 1000000000;
     fromtimestamp := seconds;
     storage_rejects := fun m => String.eqb (ts m) "300";
     client_user_id := Some "U1"; embedding_service := false;
     vector_query := fun _ _ => [] |}.

(** The database after the message [100] was synced: the cursor of [C1]
    stands at [100]. *)
Definition cursor_db : Database :=
  set_sync_state
    (insert "C1" {| ss_channel_id := "C1"; last_ts := Some "100";
                    last_sync_at := Some 100000000 |})
    (with_channels {[ "C1" := general ]} (db_with [hello])).

(** A workspace seen by [U1]: a public channel, a direct-message channel
    and a group direct-message channel, with a mention, a direct message,
    a group message and a message of [U1]'s own. *)
Definition channel_of (i : string) (kind : string) : Channel :=
  {| ch_id := i; ch_name := Some i; channel_type := kind;
     is_archived := false; ch_created_at := None; ch_updated_at := None |}.

Definition inbox_db : Database :=
  with_channels
    {[ "C1" := channel_of "C1" "public_channel";
       "D1" := channel_of "D1" "im";
       "G1" := channel_of "G1" "mpim" ]}
    (db_with
       [stored 1 "C1" "100" "U9" "hi <@U1>" 100000000;
        stored 2 "D1" "200" "U2" "ping" 200000000;
        stored 3 "G1" "300" "U2" "group hello" 300000000;
        stored 4 "D1" "201" "U1" "my own" 201000000]).

(** Search: two stored messages that mention a deployment, one with the
    match late in the text, and a workspace whose search API knows one of
    them and a message of another channel. *)
Definition search_db : Database :=
  db_with
    [stored 1 "C1" "100" "U9" "we will deploy tonight!" 100000000;
     stored 2 "C1" "200" "U2" "deploy now" 200000000].

Definition late_match_db : Database :=
  db_with [stored 1 "C1" "100" "U9" "aaaaaaaaab" 100000000].

Definition api_match (channel t : string) (relevance : Q) : SlackMatch :=
  {| match_channel_id := Some channel; match_channel_name := Some channel;
     match_ts := Some t; match_user := Some "U2";
     match_username := Some "someone"; match_text := Some "deploy";
     match_thread_ts := None; match_score := Some relevance;
     match_permalink := None |}.

Definition search_web : WebClient :=
  {| conversations_history := fun _ _ _ _ => None;
     conversations_replies := fun _ _ _ => None;
     users_info := fun _ => None;
     search_messages_api := fun _ _ =>
       Some [api_match "C1" "200" (9 # 10); api_match "C2" "300" (2 # 5)] |}.

Definition search_env : Env := env_of search_web.

(** A workspace whose directory knows [U9]. *)
Definition ann : SlackUser :=
  {| su_id := "U9"; su_name := Some "ann"; su_real_name := Some "Ann Lee";
     su_display_name := Some "annie"; su_is_bot := None; su_other := [] |}.

Definition directory_web : WebClient :=
  {| conversations_history := fun _ _ _ _ => None;
     conversations_replies := fun _ _ _ => None;
     users_info := fun user =>
       if String.eqb user "U9" then Some (Some ann) else None;
     search_messages_api := fun _ _ => None |}.

(** An archived channel that still holds a message, beside [C1]. *)
Definition attic : Channel :=
  {| ch_id := "C9"; ch_name := Some "attic";
     channel_type := "public_channel"; is_archived := true;
     ch_created_at := None; ch_updated_at := None |}.

Definition archive_db : Database :=
  with_channels {[ "C1" := general; "C9" := attic ]}
    (db_with [stored 1 "C9" "100" "U9" "old news" 100000000]).

(** A workspace that serves [C1] with at most as many messages as the
    request asks for. *)
Definition limited_web (remote : list SlackMsg) : WebClient :=
  {| conversations_history := fun _ _ _ limit =>
       Some {| page_messages := take (Z.to_nat limit) remote;
               page_next_cursor := None |};
     conversations_replies := fun _ _ _ => None;
     users_info := fun _ => None;
     search_messages_api := fun _ _ => None |}.

(** A message with a timestamp as Slack writes it, its permalink, and the
    parse [urllib] gives for that link. *)
Definition linked_db : Database :=
  db_with [stored 1 "C1" "1700000000.000100" "U9" "deploy tonight" 100000000].

Definition permalink_lib : SearchService.UrlLib :=
  {| SearchService.urlparse := fun url =>
       if String.eqb url "https://slack.com/archives/C1/p1700000000000100"
       then {| SearchService.url_scheme := "https";
               SearchService.url_netloc := "slack.com";
               SearchService.url_path := "/archives/C1/p1700000000000100";
               SearchService.url_query := "" |}
       else {| SearchService.url_scheme := "";
               SearchService.url_netloc := "";
               SearchService.url_path := url;
               SearchService.url_query := "" |};
     SearchService.parse_qs := fun _ _ => None |}.

(** A thread of [C1] seen by [U1]: [U1] asked at [200], [U2] and [U9]
    replied; the message [300] belongs to no thread of [U1]. *)
Definition reply_row (i : Z) (channel t thread : string) (user : string)
    (body : string) (created : Time) : MessageRow :=
  {| row_id := i; row_channel_id := channel; row_ts := t;
     row_user_id := Some user; row_text := Some body;
     row_thread_ts := Some thread; row_reply_count := 0;
     row_is_edited := false; row_message_type := "message";
     row_created_at := Some created; row_updated_at := Some created;
     row_metadata := empty_metadata |}.

Definition discussion_db : Database :=
  with_channels {[ "C1" := channel_of "C1" "public_channel" ]}
    (db_with
       [stored 1 "C1" "200" "U1" "shall we deploy?" 200000000;
        reply_row 2 "C1" "201" "200" "U2" "yes" 201000000;
        reply_row 3 "C1" "202" "200" "U9" "tonight" 202000000;
        stored 4 "C1" "300" "U9" "unrelated" 300000000]).

End Examples.

(** * Vocabulary of the properties *)

Import Models Repository SlackClient SlackPoller.

(** The effect of the conflict clause on a whole table. *)
Definition updated_rows (env : Env) (m : Message) (rows : list MessageRow)
    : list MessageRow :=
  (fun r => if has_key (channel_id m) (ts m) r
            then conflict_update env m r else r) <$> rows.

(** The rows [(message_id, emoji_name, user_id)] a fetched snapshot stands
    for: one for each user of each entry. *)
Definition snapshot_rows (message_id : Z) (snapshot : list SlackReaction)
    : list (Z * string * string) :=
  reaction ← snapshot;
  (fun user => (message_id, get_or "" (reaction_name reaction), user))
    <$> get_or [] (reaction_users reaction).

(** The rows [(message_id, emoji_name, user_id)] stored for a message. *)
Definition stored_reactions (message_id : Z) (rows : list ReactionRow)
    : list (Z * string * string) :=
  reaction_key <$> filter (fun r => rr_message_id r = message_id) rows.

(** [tbl'] is [tbl] with the keys [ks] of [message_id] added. *)
Definition extends (message_id : Z) (ks : list (Z * string * string))
    (tbl tbl' : list ReactionRow * Z) : Prop :=
  (∀ k, k ∈ reaction_key <$> tbl'.1 <-> k ∈ reaction_key <$> tbl.1 ∨ k ∈ ks)
  ∧ (∀ other, other ≠ message_id ->
       filter (fun r => rr_message_id r = other) tbl'.1
       = filter (fun r => rr_message_id r = other) tbl.1)
  ∧ (NoDup (stored_reactions message_id tbl.1) ->
     NoDup (stored_reactions message_id tbl'.1)).

(** The constraints of the table: [UNIQUE (channel_id, ts)], the primary
    key [id], and ids drawn from the sequence. *)
Definition wf_messages (db : Database) : Prop :=
  NoDup (row_key <$> messages db)
  ∧ NoDup (row_id <$> messages db)
  ∧ (∀ r, r ∈ messages db -> row_id r < messages_id_seq db).

(** The row stored under key [k] has id [i]. *)
Definition has_id (db : Database) (k : string * string) (i : Z) : Prop :=
  ∃ r, r ∈ messages db ∧ row_key r = k ∧ row_id r = i.

Definition msg_key (m : Message) : string * string := (channel_id m, ts m).

(** The timestamp [from_slack] gives a payload. *)
Definition reply_ts (data : SlackMsg) : string := get_or "" (msg_ts data).

(** A reply row of the thread [thread] of [channel]: it carries the
    parent's timestamp as [thread_ts] and another timestamp of its own. *)
Definition is_reply_of (channel thread : string) (r : MessageRow) : Prop :=
  row_channel_id r = channel ∧ row_thread_ts r = Some thread
  ∧ row_ts r ≠ thread.

#[global] Instance is_reply_of_dec channel thread r :
  Decision (is_reply_of channel thread r).
Proof. unfold is_reply_of. apply _. Defined.

Definition thread_reply_rows (channel thread : string) (db : Database)
    : list MessageRow :=
  filter (is_reply_of channel thread) (messages db).

(** What the steps that store messages leave alone. *)
Definition keeps_cursors (db db' : Database) : Prop :=
  sync_state db' = sync_state db ∧ channels db' = channels db.

(** The order on cursors: no cursor comes before every cursor, and
    timestamps are compared as the program compares them, as strings. *)
Definition cursor_le (a b : option string) : Prop :=
  match a, b with
  | None, _ => True
  | Some _, None => False
  | Some x, Some y => String.le x y
  end.

Definition stored_keys (db : Database) : list (string * string) :=
  row_key <$> messages db.

(** No key is lost, and the keys stay distinct. *)
Definition grows (db db' : Database) : Prop :=
  (∀ k, k ∈ stored_keys db -> k ∈ stored_keys db')
  ∧ (NoDup (stored_keys db) -> NoDup (stored_keys db')).

(** The same rows under the same keys, in the same order. *)
Definition same_keys (db db' : Database) : Prop :=
  stored_keys db' = stored_keys db.

(** A message of a page is persisted when its row is stored and, if it is
    a thread parent, the rows of the replies fetched for it are stored. *)
Definition persisted (env : Env) (channel : string) (data : SlackMsg)
    (db : Database)
    : Prop :=
  (channel, reply_ts data) ∈ stored_keys db
  ∧ ((0 <? reply_count (from_slack (fromtimestamp env) channel data)) = true ->
     ∀ reply,
       reply ∈ get_thread_replies (web env) channel (reply_ts data) 100 ->
       (channel, reply_ts reply) ∈ stored_keys db).

(** A channel is settled when everything a fetch from its cursor returns
    is either skipped or persisted already. *)
Definition settled (env : Env) (c : string) (db : Database) : Prop :=
  ∀ fuel msgs data,
    get_channel_history fuel (web env) c (oldest_of c db) 100 = Some msgs ->
    data ∈ msgs ->
    already_seen (oldest_of c db) (from_slack (fromtimestamp env) c data)
    = false ->
    persisted env c data db.

(** The rows [get_dm_messages] selects before ordering and cutting. *)
Definition dm_candidate (since : Time) (db : Database) (r : MessageRow)
    : bool :=
  in_im_channel db r && created_after (Some since) (row_created_at r).

(** The key of a message, as a pair. *)
Definition pair_key (r : SearchService.SearchResult) : string * string :=
  (channel_id (SearchService.message r), ts (SearchService.message r)).

(** Whether a channel id holds the separator of the search key. Slack's
    channel ids are letters and digits. *)
Fixpoint has_colon (s : string) : bool :=
  match s with
  | EmptyString => false
  | String c rest => Ascii.eqb c ":" || has_colon rest
  end.

(** "[a] may stand before [b]": [a] scores at least as high. *)
Definition scores_at_least (a b : SearchService.SearchResult) : Prop :=
  (SearchService.score b <= SearchService.score a)%Q.

(** ** Vocabulary of the further properties *)

(** A computation keeps a relation between the database before it and the
    database after it, whatever its outcome. *)
Definition keeps {A} (R : Database -> Database -> Prop) (c : M A) : Prop :=
  ∀ db db' res, c db = (db', res) -> R db db'.

(** Nothing is dropped: channels and reminders stay, cached users and
    cursors stay known, the id sequence does not go back, and under the
    constraints of [messages] every stored key keeps its id. *)
Definition never_deletes (db db' : Database) : Prop :=
  channels db' = channels db
  ∧ reminders db' = reminders db
  ∧ (∀ u, is_Some (users db !! u) -> is_Some (users db' !! u))
  ∧ (∀ c, is_Some (sync_state db !! c) -> is_Some (sync_state db' !! c))
  ∧ messages_id_seq db <= messages_id_seq db'
  ∧ (wf_messages db ->
     wf_messages db' ∧ ∀ k i, has_id db k i -> has_id db' k i).

(** The message rows of a channel, in table order. *)
Definition rows_of (c : string) (db : Database) : list MessageRow :=
  filter (fun r => row_channel_id r = c) (messages db).

(** The rows and the cursor of channel [c] are as they were. *)
Definition untouched (c : string) (db db' : Database) : Prop :=
  rows_of c db' = rows_of c db ∧ get_sync_state c db' = get_sync_state c db.

(** A string in which the character [c] does not occur. *)
Fixpoint lacks (c : ascii) (s : string) : bool :=
  match s with
  | EmptyString => true
  | String x rest => negb (Ascii.eqb x c) && lacks c rest
  end.

(** A string that holds none of the characters [LIKE] reads specially. *)
Definition literal (s : string) : bool :=
  lacks "%" s && lacks "_" s && lacks "\" s.

(** The rows [get_unread_mentions] selects before ordering and cutting. *)
Definition mention_candidate (me : string) (since : Time) (r : MessageRow)
    : bool :=
  text_like ("%<@" +:+ me +:+ ">%") r
  && created_after (Some since) (row_created_at r).

(** [COALESCE(thread_ts, ts)] *)
Definition thread_of (r : MessageRow) : string :=
  default (row_ts r) (row_thread_ts r).

(** The rows [get_threads_with_replies] selects before ordering and
    cutting; a message is listed once for each thread of [me] the join
    pairs it with. *)
Definition thread_candidates (me : string) (since : Time) (db : Database)
    : list (MessageRow * option string) :=
  List.filter
    (fun rc => other_author me rc.1
               && created_after (Some since) (row_created_at rc.1))
    (r ← messages db;
     ut ← List.filter (in_thread r) (user_threads me db);
     match channels db !! row_channel_id r with
     | Some c => [(r, ch_name c)]
     | None => []
     end).

(** "[a] may stand before [b]" under [ORDER BY created_at DESC]. *)
Definition newer_first (a b : MessageRow * option string) : Prop :=
  desc_nulls_first (row_created_at a.1) (row_created_at b.1) = true.

(** The order of [ORDER BY time ASC] on two optional instants. *)
Definition time_le (a b : option Time) : Prop :=
  match a, b with
  | _, None => True
  | None, Some _ => False
  | Some x, Some y => x <= y
  end.

Section StatusVocabulary.
Import StatusService.

(** The thread an item belongs to, as [_get_thread_replies] keys it. *)
Definition item_thread (item : StatusItem) : string :=
  si_channel_id item +:+ ":"
    +:+ (if truthy (si_thread_ts item) then get_or "" (si_thread_ts item)
         else message_ts item).

(** What holds of every item of a report on the window that starts at
    [since]. *)
Definition in_window (since : Time) (db : Database) (item : StatusItem)
    : Prop :=
  priority item ≠ LOW
  ∧ (∃ t, timestamp item = Some t ∧ since < t)
  ∧ (String.length (text_preview item) <= 100)%nat
  ∧ si_link item
    = get_message_link (si_channel_id item) (message_ts item)
        (si_thread_ts item)
  ∧ ∃ r, r ∈ messages db ∧ row_channel_id r = si_channel_id item
         ∧ row_ts r = message_ts item.

End StatusVocabulary.

Section SearchVocabulary.
Import SearchService.

(** A match whose [ts] is not empty and is no number:
    [datetime.fromtimestamp(float(ts))] raises for it. *)
Definition unconvertible (env : Env) (m : SlackMatch) : Prop :=
  truthy (Some (get_or "" (match_ts m))) = true
  ∧ fromtimestamp env (get_or "" (match_ts m)) = None.

(** The result [_slack_api_search] gives for a match. *)
Definition result_of_match (m : SlackMatch) (r : SearchResult) : Prop :=
  match_type r = "slack_api"
  ∧ pair_key r = (get_or "" (match_channel_id m), get_or "" (match_ts m))
  ∧ text (message r) = match_text m
  ∧ id (message r) = None
  ∧ score r = get_or (1 # 2)%Q (match_score m)
  ∧ link r
    = get_or (get_message_link (get_or "" (match_channel_id m))
                (get_or "" (match_ts m)) None)
        (match_permalink m).

(** "[a] may stand before [b]" in the rows of a text search. *)
Definition newer_result (a b : SearchResult) : Prop :=
  desc_nulls_first (created_at (message a)) (created_at (message b)) = true.

End SearchVocabulary.

(** * Properties *)

(** ** Message upsert *)

Section UpsertMessage.
Context (env : Env).

Lemma has_key_true channel t r :
  has_key channel t r = true <-> row_key r = (channel, t).
Proof.
  unfold has_key, row_key. rewrite andb_true_iff, !String.eqb_eq.
  split; [intros [-> ->]; done | intros [= -> ->]; done].
Qed.

Lemma has_key_false channel t r :
  has_key channel t r = false <-> row_key r ≠ (channel, t).
Proof.
  rewrite <- has_key_true. destruct (has_key channel t r); split; congruence.
Qed.

Lemma conflict_update_key m r : row_key (conflict_update env m r) = row_key r.
Proof. reflexivity. Qed.

Lemma updated_rows_keys m rows :
  row_key <$> updated_rows env m rows = row_key <$> rows.
Proof.
  unfold updated_rows. rewrite <- list_fmap_compose.
  apply list_fmap_ext. intros _ r _. simpl.
  destruct (has_key _ _ r); [apply conflict_update_key | done].
Qed.

Lemma update_on_conflict_miss m rows :
  (channel_id m, ts m) ∉ row_key <$> rows ->
  update_on_conflict env m rows = None.
Proof.
  induction rows as [|r rows IH]; [done|].
  rewrite fmap_cons, not_elem_of_cons. intros [Hr Hrows]. simpl.
  assert (has_key (channel_id m) (ts m) r = false) as ->
    by (apply has_key_false; congruence).
  by rewrite IH.
Qed.

Lemma updated_rows_miss m rows :
  (channel_id m, ts m) ∉ row_key <$> rows -> updated_rows env m rows = rows.
Proof.
  induction rows as [|r rows IH]; [done|].
  rewrite fmap_cons, not_elem_of_cons. intros [Hr Hrows].
  unfold updated_rows in *. rewrite fmap_cons.
  assert (has_key (channel_id m) (ts m) r = false) as ->
    by (apply has_key_false; congruence).
  by rewrite IH.
Qed.

Lemma update_on_conflict_hit m rows old :
  NoDup (row_key <$> rows) ->
  old ∈ rows -> row_key old = (channel_id m, ts m) ->
  update_on_conflict env m rows = Some (row_id old, updated_rows env m rows).
Proof.
  induction rows as [|r rows IH]; intros Hnd Hin Hkey.
  - by apply elem_of_nil in Hin.
  - rewrite fmap_cons, NoDup_cons in Hnd. destruct Hnd as [Hfresh Hnd].
    apply elem_of_cons in Hin as [<- | Hin]; simpl.
    + assert (has_key (channel_id m) (ts m) old = true) as ->
        by (by apply has_key_true).
      rewrite updated_rows_miss; [done | congruence].
    + assert (has_key (channel_id m) (ts m) r = false) as ->.
      { apply has_key_false. intros Hr. apply Hfresh. rewrite Hr, <- Hkey.
        by apply list_elem_of_fmap_2. }
      by rewrite (IH Hnd Hin Hkey).
Qed.

(** Whether [update_on_conflict] finds a row is whether the key is there. *)
Lemma update_on_conflict_some m rows i rows' :
  update_on_conflict env m rows = Some (i, rows') ->
  row_key <$> rows' = row_key <$> rows
  ∧ (channel_id m, ts m) ∈ row_key <$> rows.
Proof.
  revert i rows'. induction rows as [|r rows IH]; intros i rows'; [done|].
  cbn [update_on_conflict]. destruct (has_key _ _ r) eqn:Hk.
  - intros [= <- <-]. split; [done|].
    apply has_key_true in Hk. rewrite fmap_cons, Hk. apply elem_of_cons. by left.
  - destruct (update_on_conflict env m rows) as [[j rest]|] eqn:Hu; [|done].
    intros [= <- <-]. destruct (IH _ _ eq_refl) as [Hkeys Hin].
    rewrite !fmap_cons, Hkeys. split; [done | apply elem_of_cons; by right].
Qed.

End UpsertMessage.

Lemma NoDup_fmap_eq {A B} (f : A -> B) (l : list A) x y :
  NoDup (f <$> l) -> x ∈ l -> y ∈ l -> f x = f y -> x = y.
Proof.
  induction l as [|a l IH]; intros Hnd Hx Hy Hf.
  - by apply elem_of_nil in Hx.
  - rewrite fmap_cons, NoDup_cons in Hnd. destruct Hnd as [Ha Hnd].
    apply elem_of_cons in Hx as [-> | Hx];
      apply elem_of_cons in Hy as [-> | Hy]; auto.
    + destruct Ha. rewrite Hf. by apply list_elem_of_fmap_2.
    + destruct Ha. rewrite <- Hf. by apply list_elem_of_fmap_2.
Qed.

(** C10. Upserting a message whose [(channel_id, ts)] is already stored
    returns the id of the stored row and rewrites that row only: its
    [user_id], [text], [thread_ts], [reply_count], [is_edited], [updated_at]
    and [metadata] take the new values, while its [id], [channel_id], [ts]
    and [created_at] (and [message_type]) stay; every other row and the
    number of rows are as before. The id sequence moves on by one: the
    statement draws a value for the row it proposes, which is then not
    used. *)
Theorem upsert_message_conflict_frame (env : Env) (m : Message)
    (db : Database) (old : MessageRow) :
  storage_rejects env m = false ->
  NoDup (row_key <$> messages db) ->
  old ∈ messages db ->
  row_key old = (channel_id m, ts m) ->
  ∃ db' new,
    upsert_message env m db = (db', Ok (row_id old))
    ∧ (row_id new = row_id old
       ∧ row_channel_id new = row_channel_id old
       ∧ row_ts new = row_ts old
       ∧ row_created_at new = row_created_at old
       ∧ row_message_type new = row_message_type old)
    ∧ (row_user_id new = user_id m
       ∧ row_text new = text m
       ∧ row_thread_ts new = thread_ts m
       ∧ row_reply_count new = reply_count m
       ∧ row_is_edited new = is_edited m
       ∧ row_updated_at new = Some (now env)
       ∧ row_metadata new = metadata m)
    ∧ (∀ r, r ∈ messages db' <->
            r = new ∨ (r ∈ messages db ∧ row_key r ≠ row_key old))
    ∧ length (messages db') = length (messages db)
    ∧ messages_id_seq db' = messages_id_seq db + 1.
Proof.
  intros Hok Hnd Hin Hkey.
  exists (set_messages (updated_rows env m (messages db))
            (messages_id_seq db + 1) db),
    (conflict_update env m old).
  split.
  { unfold upsert_message. rewrite Hok.
    by rewrite (update_on_conflict_hit env m _ old Hnd Hin Hkey). }
  split; [by repeat split|]. split; [by repeat split|].
  split; [|split; [cbn [messages set_messages]; unfold updated_rows; by rewrite length_fmap | done]].
  intros r. cbn [messages set_messages]. unfold updated_rows.
  rewrite list_elem_of_fmap. split.
  - intros (r0 & -> & Hr0). destruct (has_key _ _ r0) eqn:Hk.
    + left. f_equal. apply has_key_true in Hk.
      apply (NoDup_fmap_eq row_key (messages db)); [done..|congruence].
    + right. split; [done|]. apply has_key_false in Hk. congruence.
  - intros [-> | [Hr Hne]].
    + exists old. split; [|done].
      assert (has_key (channel_id m) (ts m) old = true) as ->
        by (by apply has_key_true). done.
    + exists r. split; [|done].
      assert (has_key (channel_id m) (ts m) r = false) as ->
        by (apply has_key_false; congruence). done.
Qed.

Lemma upsert_message_conflict_frame_witness :
  ∃ db' new,
    upsert_message Examples.quiet_env Examples.hello_edited
      (Examples.db_with [Examples.hello]) = (db', Ok 1)
    ∧ (row_id new = 1
       ∧ row_channel_id new = "C1"
       ∧ row_ts new = "100"
       ∧ row_created_at new = Some 100000000
       ∧ row_message_type new = "message")
    ∧ (row_user_id new = Some "U9"
       ∧ row_text new = Some "hello, world"
       ∧ row_thread_ts new = None
       ∧ row_reply_count new = 1
       ∧ row_is_edited new = true
       ∧ row_updated_at new = Some 1000000000
       ∧ row_metadata new = empty_metadata)
    ∧ (∀ r, r ∈ messages db' <->
            r = new ∨ (r ∈ [Examples.hello] ∧ row_key r ≠ ("C1", "100")))
    ∧ length (messages db') = 1%nat
    ∧ messages_id_seq db' = 3.
Proof.
  apply (upsert_message_conflict_frame Examples.quiet_env
           Examples.hello_edited (Examples.db_with [Examples.hello])
           Examples.hello).
  - reflexivity.
  - apply (bool_decide_unpack _). vm_compute. exact I.
  - simpl. apply elem_of_cons. by left.
  - reflexivity.
Defined.

(** ** Reactions *)

Lemma filter_none {A} (P : A -> Prop) `{!∀ x, Decision (P x)} (l : list A) :
  (∀ x, x ∈ l -> ¬ P x) -> filter P l = [].
Proof.
  induction l as [|a l IH]; intros Hall; [done|].
  rewrite filter_cons_False.
  - apply IH. intros x Hx. apply Hall, elem_of_cons. by right.
  - apply Hall, elem_of_cons. by left.
Qed.

Section Reactions.
Context (env : Env) (message_id : Z).

Lemma extends_refl tbl : extends message_id [] tbl tbl.
Proof.
  repeat split; auto. intros [H|H]; [done | by apply elem_of_nil in H].
Qed.

Lemma extends_trans ks1 ks2 t1 t2 t3 :
  extends message_id ks1 t1 t2 -> extends message_id ks2 t2 t3 -> extends message_id (ks1 ++ ks2) t1 t3.
Proof.
  intros (Hk1 & Ho1 & Hn1) (Hk2 & Ho2 & Hn2). repeat split.
  - rewrite Hk2, Hk1, elem_of_app. tauto.
  - rewrite Hk2, Hk1, elem_of_app. tauto.
  - intros other Hne. by rewrite Ho2, Ho1.
  - auto.
Qed.

Lemma stored_reactions_subseteq k rows :
  k ∈ stored_reactions message_id rows -> k ∈ reaction_key <$> rows.
Proof.
  unfold stored_reactions. rewrite !list_elem_of_fmap.
  intros (r & -> & Hr). apply list_elem_of_filter in Hr as [_ Hr].
  by exists r.
Qed.

Lemma insert_reaction_extends name user tbl :
  extends message_id [(message_id, name, user)] tbl
    (insert_reaction env message_id name user tbl).
Proof.
  destruct tbl as [rows seq]. unfold insert_reaction.
  case_bool_decide as Hin.
  - repeat split; auto.
    intros [H|H]; [done|]. apply list_elem_of_singleton in H. by subst.
  - repeat split; cbn [fst].
    + rewrite fmap_app, elem_of_app. simpl. tauto.
    + rewrite fmap_app, elem_of_app. simpl. tauto.
    + intros other Hne. rewrite filter_app, filter_cons_False, filter_nil.
      * by rewrite app_nil_r.
      * simpl. congruence.
    + intros Hnd. unfold stored_reactions.
      rewrite filter_app, filter_cons_True, filter_nil by done.
      rewrite fmap_app. apply NoDup_app. split; [done|]. split.
      * intros k Hk Hk'. apply list_elem_of_singleton in Hk'. subst k.
        by apply Hin, stored_reactions_subseteq.
      * apply NoDup_singleton.
Qed.

Lemma insert_users_extends name users tbl :
  extends message_id ((fun user => (message_id, name, user)) <$> users) tbl
    (foldl (fun tbl user => insert_reaction env message_id name user tbl)
       tbl users).
Proof.
  revert tbl. induction users as [|u users IH]; intros tbl.
  - apply extends_refl.
  - simpl. change (?k :: ?ks) with ([k] ++ ks).
    eapply extends_trans; [apply insert_reaction_extends | apply IH].
Qed.

Lemma insert_reactions_extends snapshot tbl :
  extends message_id (snapshot_rows message_id snapshot) tbl
    (insert_reactions env message_id snapshot tbl).
Proof.
  revert tbl. induction snapshot as [|reaction snapshot IH]; intros tbl.
  - apply extends_refl.
  - unfold snapshot_rows. rewrite bind_cons. simpl.
    eapply extends_trans; [apply insert_users_extends | apply IH].
Qed.

Lemma snapshot_rows_message k snapshot :
  k ∈ snapshot_rows message_id snapshot -> k.1.1 = message_id.
Proof.
  unfold snapshot_rows. rewrite list_elem_of_bind.
  intros (reaction & Hk & _). apply list_elem_of_fmap in Hk.
  by destruct Hk as (user & -> & _).
Qed.

End Reactions.

(** What the [DELETE] and the [INSERT]s of [upsert_reactions] leave in the
    table: for the message, the rows of the snapshot and no other, each
    once; for other messages, the rows they had. *)
Lemma insert_reactions_replaces env message_id snapshot rows0 seq0 :
  let kept := filter (fun r => rr_message_id r ≠ message_id) rows0 in
  let rows := (insert_reactions env message_id snapshot (kept, seq0)).1 in
  NoDup (stored_reactions message_id rows)
  ∧ (∀ k, k ∈ stored_reactions message_id rows
          <-> k ∈ snapshot_rows message_id snapshot)
  ∧ (∀ other, other ≠ message_id ->
       stored_reactions other rows = stored_reactions other rows0).
Proof.
  intros kept rows.
  pose proof (insert_reactions_extends env message_id snapshot (kept, seq0))
    as (Hk & Ho & Hn).
  fold rows in Hk, Ho, Hn. cbn [fst] in *.
  assert (filter (fun r => rr_message_id r = message_id) kept = []) as Hnone.
  { apply filter_none. intros r Hr. unfold kept in Hr.
    apply list_elem_of_filter in Hr. tauto. }
  split_and!.
  - apply Hn. unfold stored_reactions. rewrite Hnone. constructor.
  - intros k. split.
    + intros Hin. pose proof (stored_reactions_subseteq _ _ _ Hin) as Hin'.
      apply Hk in Hin' as [Hkept | Hsnap]; [|done].
      unfold stored_reactions in Hin. apply list_elem_of_fmap in Hin.
      destruct Hin as (r & -> & Hr). apply list_elem_of_filter in Hr.
      apply list_elem_of_fmap in Hkept. destruct Hkept as (r' & Heq & Hr').
      unfold kept in Hr'. apply list_elem_of_filter in Hr'.
      destruct Hr' as [Hne _]. destruct Hr as [He _].
      unfold reaction_key in Heq. congruence.
    + intros Hin. pose proof (snapshot_rows_message _ _ _ Hin) as Hmid.
      assert (k ∈ reaction_key <$> rows) as Hrows by (apply Hk; by right).
      unfold stored_reactions. apply list_elem_of_fmap in Hrows.
      destruct Hrows as (r & -> & Hr). apply list_elem_of_fmap_2.
      apply list_elem_of_filter. split; [|done]. exact Hmid.
  - intros other Hne. unfold stored_reactions. rewrite (Ho other Hne).
    f_equal. unfold kept. rewrite list_filter_filter.
    apply list_filter_iff. intros r. split; [tauto | intros ->; done].
Qed.

(** [upsert_reactions] for a stored message. *)
Lemma upsert_reactions_spec env message_id snapshot db :
  (message_id ∈ row_id <$> messages db) ->
  ∃ db',
    upsert_reactions env message_id snapshot db = (db', Ok tt)
    ∧ messages db' = messages db
    ∧ messages_id_seq db' = messages_id_seq db
    ∧ users db' = users db
    ∧ sync_state db' = sync_state db
    ∧ channels db' = channels db
    ∧ NoDup (stored_reactions message_id (reactions db'))
    ∧ (∀ k, k ∈ stored_reactions message_id (reactions db')
            <-> k ∈ snapshot_rows message_id snapshot)
    ∧ (∀ other, other ≠ message_id ->
         stored_reactions other (reactions db')
         = stored_reactions other (reactions db)).
Proof.
  intros Hknown. unfold upsert_reactions.
  rewrite (bool_decide_eq_true_2 _ Hknown). cbn [orb].
  pose proof (insert_reactions_replaces env message_id snapshot
                (reactions db) (reactions_id_seq db)) as Hrows.
  cbn zeta in Hrows.
  destruct (insert_reactions env message_id snapshot
              (filter (fun r => rr_message_id r ≠ message_id) (reactions db),
               reactions_id_seq db)) as [rows seq].
  cbn [fst] in Hrows. destruct Hrows as (Hnd & Hkeys & Hother).
  eexists. split; [reflexivity|].
  cbn [messages messages_id_seq users sync_state channels reactions
       set_reactions].
  by split_and!.
Qed.

(** ** The monad *)

Lemma bind_inv {A B} (c : M A) (k : A -> M B) db db' res :
  bind c k db = (db', res) ->
  (∃ e, c db = (db', Raise e) ∧ res = Raise e)
  ∨ (∃ a db1, c db = (db1, Ok a) ∧ k a db1 = (db', res)).
Proof.
  unfold bind. destruct (c db) as [db1 [a|e]]; intros Heq.
  - right. by exists a, db1.
  - left. exists e. by inversion Heq.
Qed.

(** A relation between the database before and after a step that holds
    for every step of a loop holds for the loop. *)
Lemma for_each_rel {A} (R : Database -> Database -> Prop)
    (body : A -> M unit) (xs : list A) :
  (∀ db, R db db) ->
  (∀ db1 db2 db3, R db1 db2 -> R db2 db3 -> R db1 db3) ->
  (∀ x db db' res, x ∈ xs -> body x db = (db', res) -> R db db') ->
  ∀ db db' res, for_each body xs db = (db', res) -> R db db'.
Proof.
  intros Hrefl Htrans. induction xs as [|x xs IH]; intros Hbody db db' res.
  - intros [= <- _]. apply Hrefl.
  - cbn [for_each]. intros Hrun.
    apply bind_inv in Hrun as [(e & Hx & _) | (a & db1 & Hx & Hrest)].
    + eapply Hbody; [|exact Hx]. apply elem_of_cons. by left.
    + eapply Htrans.
      * eapply Hbody; [|exact Hx]. apply elem_of_cons. by left.
      * eapply IH; [|exact Hrest]. intros y ? ? ? Hy.
        apply Hbody, elem_of_cons. by right.
Qed.

(** ** The [messages] table *)

Section UpsertMessageTable.
Context (env : Env).

Lemma updated_rows_ids m rows :
  row_id <$> updated_rows env m rows = row_id <$> rows.
Proof.
  unfold updated_rows. rewrite <- list_fmap_compose.
  apply list_fmap_ext. intros _ r _. simpl. by destruct (has_key _ _ r).
Qed.

(** The two ways [upsert_message] succeeds, and the one way it fails. *)
Lemma upsert_message_cases m db db' res :
  upsert_message env m db = (db', res) ->
  (storage_rejects env m = true ∧ db' = db ∧ res = Raise StorageError)
  ∨ (storage_rejects env m = false
     ∧ (msg_key m ∈ row_key <$> messages db)
     ∧ ∃ old, old ∈ messages db ∧ row_key old = msg_key m
         ∧ res = Ok (row_id old)
         ∧ (NoDup (row_key <$> messages db) ->
            db' = set_messages (updated_rows env m (messages db))
                    (messages_id_seq db + 1) db)
         ∧ row_key <$> messages db' = row_key <$> messages db
         ∧ messages_id_seq db' = messages_id_seq db + 1)
  ∨ (storage_rejects env m = false
     ∧ (msg_key m ∉ row_key <$> messages db)
     ∧ res = Ok (messages_id_seq db)
     ∧ db' = set_messages
               (messages db ++ [inserted_row env (messages_id_seq db) m])
               (messages_id_seq db + 1) db).
Proof.
  unfold upsert_message. destruct (storage_rejects env m).
  { intros [= <- <-]. by left. }
  intros Hrun. right. revert Hrun.
  destruct (update_on_conflict env m (messages db)) as [[i rows]|] eqn:Hu.
  - intros [= <- <-]. left.
    destruct (update_on_conflict_some env m _ _ _ Hu) as [Hkeys Hin].
    split; [done|]. split; [done|].
    apply list_elem_of_fmap in Hin as (old & Hkey & Hold).
    assert (∃ old0, old0 ∈ messages db ∧ row_key old0 = msg_key m
                    ∧ i = row_id old0) as (old0 & Hold0 & Hkey0 & ->).
    { clear Hkeys. revert i rows Hu.
      induction (messages db) as [|r l IH]; intros i rows; [done|].
      cbn [update_on_conflict]. destruct (has_key _ _ r) eqn:Hk.
      - intros [= <- <-]. exists r. apply has_key_true in Hk.
        split; [apply elem_of_cons; by left | done].
      - destruct (update_on_conflict env m l) as [[j rest]|] eqn:Hl; [|done].
        intros [= <- <-]. apply elem_of_cons in Hold as [-> | Hold].
        + apply has_key_false in Hk. by destruct Hk.
        + destruct (IH Hold _ _ eq_refl) as (o & Ho & Hko & ->).
          exists o. split; [apply elem_of_cons; by right | done]. }
    exists old0. repeat split; try done.
    intros Hnd. rewrite (update_on_conflict_hit env m _ old0 Hnd Hold0 Hkey0) in Hu.
    by inversion Hu.
  - intros [= <- <-]. right. split; [done|]. split; [|done].
    intros Hin. apply list_elem_of_fmap in Hin as (old & Hkey & Hold).
    clear -Hu Hkey Hold. induction (messages db) as [|r l IH]; [by apply elem_of_nil in Hold|].
    cbn [update_on_conflict] in Hu. destruct (has_key _ _ r) eqn:Hk; [done|].
    destruct (update_on_conflict env m l) as [[j rest]|]; [done|].
    apply elem_of_cons in Hold as [-> | Hold]; [|by apply IH].
    apply has_key_false in Hk. by destruct Hk.
Qed.

(** [upsert_message] touches the [messages] table only. *)
Lemma upsert_message_frame m db db' res :
  upsert_message env m db = (db', res) ->
  reactions db' = reactions db ∧ sync_state db' = sync_state db
  ∧ users db' = users db ∧ channels db' = channels db.
Proof.
  unfold upsert_message. destruct (storage_rejects env m).
  - by intros [= <- _].
  - destruct (update_on_conflict env m (messages db)) as [[i rows]|];
      by intros [= <- _].
Qed.

(** Keys are never removed, and the only key added is the message's. *)
Lemma upsert_message_keys m db db' res k :
  upsert_message env m db = (db', res) ->
  (k ∈ row_key <$> messages db -> k ∈ row_key <$> messages db')
  ∧ (k ∈ row_key <$> messages db' ->
     k ∈ row_key <$> messages db ∨ (k = msg_key m ∧ ∃ i, res = Ok i)).
Proof.
  intros Hrun.
  destruct (upsert_message_cases _ _ _ _ Hrun)
    as [(_ & -> & _) | [(_ & _ & old & _ & _ & _ & _ & Hkeys & _)
                       | (_ & _ & -> & ->)]].
  - tauto.
  - rewrite Hkeys. tauto.
  - cbn [messages set_messages]. rewrite fmap_app, elem_of_app. split; [tauto|].
    intros [H|H]; [by left|]. right. apply list_elem_of_singleton in H.
    split; [done | by eexists].
Qed.

Lemma upsert_message_ok_key m db db' i :
  upsert_message env m db = (db', Ok i) ->
  msg_key m ∈ row_key <$> messages db'.
Proof.
  intros Hrun.
  destruct (upsert_message_cases _ _ _ _ Hrun)
    as [(_ & _ & [=]) | [(_ & Hin & old & _ & _ & _ & _ & Hkeys & _)
                        | (_ & _ & _ & ->)]].
  - by rewrite Hkeys.
  - cbn [messages set_messages]. rewrite fmap_app, elem_of_app. right.
    by apply list_elem_of_singleton.
Qed.

(** The conflict clause keeps the ids of the rows, and the id it returns
    is one of them. *)
Lemma update_on_conflict_ids m rows i rows' :
  update_on_conflict env m rows = Some (i, rows') ->
  row_id <$> rows' = row_id <$> rows ∧ i ∈ row_id <$> rows.
Proof.
  revert i rows'. induction rows as [|r rows IH]; intros i rows'; [done|].
  cbn [update_on_conflict]. destruct (has_key (channel_id m) (ts m) r).
  - intros [= <- <-]. split; [done|]. rewrite fmap_cons.
    apply elem_of_cons. by left.
  - destruct (update_on_conflict env m rows) as [[j rest]|]; [|done].
    intros [= <- <-]. destruct (IH _ _ eq_refl) as [Hids Hin].
    rewrite !fmap_cons, Hids. split; [done | apply elem_of_cons; by right].
Qed.

(** The id [upsert_message] returns is the id of a stored row. *)
Lemma upsert_message_ok_id m db db' i :
  upsert_message env m db = (db', Ok i) -> i ∈ row_id <$> messages db'.
Proof.
  unfold upsert_message. destruct (storage_rejects env m); [done|].
  destruct (update_on_conflict env m (messages db)) as [[j rows]|] eqn:Hu.
  - intros [= <- <-]. cbn [messages set_messages].
    destruct (update_on_conflict_ids _ _ _ _ Hu) as [-> Hin]. done.
  - intros [= <- <-]. cbn [messages set_messages].
    rewrite fmap_app, elem_of_app. right. by apply list_elem_of_singleton.
Qed.

(** The table constraints are kept; the id returned is the id of the row
    now stored under the message's key; rows keep their ids. *)
Lemma upsert_message_wf m db db' res :
  wf_messages db ->
  upsert_message env m db = (db', res) ->
  wf_messages db'
  ∧ (∀ i, res = Ok i -> has_id db' (msg_key m) i)
  ∧ (∀ k j, has_id db k j -> has_id db' k j).
Proof.
  intros (Hkeys & Hids & Hseq) Hrun.
  destruct (upsert_message_cases _ _ _ _ Hrun)
    as [(_ & -> & ->) | [(_ & _ & old & Hold & Hkold & -> & Hdb & _ & _)
                       | (_ & Hfresh & -> & ->)]].
  - split; [done|]. split; [intros i [=] | done].
  - rewrite (Hdb Hkeys). clear Hdb.
    assert (∀ k j, has_id db k j ->
              has_id (set_messages (updated_rows env m (messages db))
                        (messages_id_seq db + 1) db) k j) as Hkeep.
    { intros k j (r & Hr & <- & <-). unfold has_id. cbn [messages set_messages].
      exists (if has_key (channel_id m) (ts m) r
              then conflict_update env m r else r).
      split; [|by destruct (has_key _ _ r)].
      unfold updated_rows. apply list_elem_of_fmap. by exists r. }
    split; [|split; [|done]].
    + unfold wf_messages. cbn [messages messages_id_seq set_messages].
      rewrite updated_rows_keys, updated_rows_ids. repeat split; try done.
      intros r Hr. unfold updated_rows in Hr.
      apply list_elem_of_fmap in Hr as (r0 & -> & Hr0).
      specialize (Hseq r0 Hr0). destruct (has_key _ _ r0); simpl; lia.
    + intros i [= <-]. apply Hkeep. by exists old.
  - split; [|split].
    + unfold wf_messages. cbn [messages messages_id_seq set_messages].
      rewrite !fmap_app. repeat split.
      * apply NoDup_app. split; [done|]. split; [|apply NoDup_singleton].
        intros k Hk Hk'. apply list_elem_of_singleton in Hk'. by subst.
      * apply NoDup_app. split; [done|]. split; [|apply NoDup_singleton].
        intros j Hj Hj'. apply list_elem_of_singleton in Hj'. simpl in Hj'.
        subst j. apply list_elem_of_fmap in Hj as (r & Heq & Hr).
        specialize (Hseq r Hr). lia.
      * intros r Hr. apply elem_of_app in Hr as [Hr | Hr].
        -- specialize (Hseq r Hr). lia.
        -- apply list_elem_of_singleton in Hr. subst r. simpl. lia.
    + intros i [= <-]. eexists. cbn [messages set_messages]. split.
      * apply elem_of_app. right. by apply list_elem_of_singleton.
      * done.
    + intros k j (r & Hr & <- & <-). exists r. cbn [messages set_messages].
      split; [apply elem_of_app; by left | done].
Qed.

(** Under the table constraints an id names one key. *)
Lemma has_id_inj db k k' i :
  wf_messages db -> has_id db k i -> has_id db k' i -> k = k'.
Proof.
  intros (_ & Hids & _) (r & Hr & <- & <-) (r' & Hr' & <- & Heq).
  by rewrite (NoDup_fmap_eq row_id (messages db) r' r Hids Hr' Hr Heq).
Qed.

End UpsertMessageTable.

(** ** Steps of the poller *)

Section PollerSteps.
Context (env : Env).

(** For a stored message [store_reactions] succeeds and touches
    [reactions] only; what it leaves there depends on whether the snapshot
    is empty. *)
Lemma store_reactions_spec message_id data db :
  (message_id ∈ row_id <$> messages db) ->
  ∃ db',
    store_reactions env message_id data db = (db', Ok tt)
    ∧ messages db' = messages db
    ∧ messages_id_seq db' = messages_id_seq db
    ∧ users db' = users db
    ∧ sync_state db' = sync_state db
    ∧ channels db' = channels db
    ∧ (∀ other, other ≠ message_id ->
         stored_reactions other (reactions db')
         = stored_reactions other (reactions db))
    ∧ match msg_reactions data with
      | Some (r :: rs) =>
          NoDup (stored_reactions message_id (reactions db'))
          ∧ (∀ k, k ∈ stored_reactions message_id (reactions db')
                  <-> k ∈ snapshot_rows message_id (r :: rs))
      | _ => reactions db' = reactions db
      end.
Proof.
  intros Hknown.
  unfold store_reactions. destruct (msg_reactions data) as [[|r rs]|].
  - exists db. split_and!; done.
  - destruct (upsert_reactions_spec env message_id (r :: rs) db Hknown)
      as (db' & Hrun & Hm & Hs & Hu & Hss & Hc & Hnd & Hk & Ho).
    exists db'. split_and!; done.
  - exists db. split_and!; done.
Qed.

(** [_ensure_user_cached] always succeeds and touches [users] only. *)
Lemma _ensure_user_cached_spec user db :
  ∃ db',
    _ensure_user_cached env user db = (db', Ok tt)
    ∧ messages db' = messages db
    ∧ messages_id_seq db' = messages_id_seq db
    ∧ reactions db' = reactions db
    ∧ sync_state db' = sync_state db
    ∧ channels db' = channels db.
Proof.
  unfold _ensure_user_cached. destruct (get_user user db).
  - exists db. split_and!; done.
  - destruct (get_user_info (web env) user).
    + eexists. split; [reflexivity|]. split_and!; done.
    + exists db. split_and!; done.
Qed.

Lemma cache_author_spec m db :
  ∃ db',
    cache_author env m db = (db', Ok tt)
    ∧ messages db' = messages db
    ∧ messages_id_seq db' = messages_id_seq db
    ∧ reactions db' = reactions db
    ∧ sync_state db' = sync_state db
    ∧ channels db' = channels db.
Proof.
  unfold cache_author. destruct (user_id m) as [u|].
  - destruct (truthy (Some u)); [apply _ensure_user_cached_spec|].
    exists db. split_and!; done.
  - exists db. split_and!; done.
Qed.

(** The steps of [sync_reply], one after the other. *)
Lemma sync_reply_inv channel data db db' res :
  sync_reply env channel data db = (db', res) ->
  (storage_rejects env (from_slack (fromtimestamp env) channel data) = true
   ∧ db' = db ∧ res = Raise StorageError)
  ∨ (∃ i db1 db2,
       upsert_message env (from_slack (fromtimestamp env) channel data) db
       = (db1, Ok i)
       ∧ store_reactions env i data db1 = (db2, Ok tt)
       ∧ cache_author env (from_slack (fromtimestamp env) channel data) db2
         = (db', Ok tt)
       ∧ res = Ok tt).
Proof.
  unfold sync_reply. intros Hrun.
  set (reply := from_slack (fromtimestamp env) channel data) in *.
  apply bind_inv in Hrun as [(e & Hup & ->) | (i & db1 & Hup & Hrun)].
  - left. destruct (upsert_message_cases env _ _ _ _ Hup)
      as [(? & ? & [= ->]) | [(_ & _ & ? & _ & _ & [=] & _) | (_ & _ & [=] & _)]].
    by split_and!.
  - right. exists i, db1.
    destruct (store_reactions_spec i data db1 (upsert_message_ok_id _ _ _ _ _ Hup))
      as (db2 & Hst & _).
    apply bind_inv in Hrun as [(e & Hst' & _) | ([] & db2' & Hst' & Hrun)];
      [congruence|].
    assert (db2' = db2) as -> by congruence.
    destruct (cache_author_spec reply db2) as (db3 & Hca & _).
    exists db2. repeat split; try done; congruence.
Qed.

(** A reply stored under another key leaves the reaction rows of the
    message with id [message_id] alone. *)
Lemma sync_reply_other_reactions channel data k0 message_id db db' res :
  (channel, get_or "" (msg_ts data)) ≠ k0 ->
  sync_reply env channel data db = (db', res) ->
  wf_messages db -> has_id db k0 message_id ->
  wf_messages db' ∧ has_id db' k0 message_id
  ∧ stored_reactions message_id (reactions db')
    = stored_reactions message_id (reactions db).
Proof.
  intros Hne Hrun Hwf Hid.
  apply sync_reply_inv in Hrun
    as [(_ & -> & _) | (i & db1 & db2 & Hup & Hst & Hca & _)]; [done|].
  destruct (upsert_message_wf env _ _ _ _ Hwf Hup) as (Hwf1 & Hi & Hkeep).
  destruct (upsert_message_frame env _ _ _ _ Hup) as (Hr1 & _).
  assert (i ≠ message_id) as Hi'.
  { intros ->. apply Hne.
    apply (has_id_inj db1 _ _ message_id Hwf1); [by apply Hi | by apply Hkeep]. }
  destruct (store_reactions_spec i data db1
              (upsert_message_ok_id _ _ _ _ _ Hup))
    as (db2' & Hst' & Hm2 & Hs2 & _ & _ & _ & Ho2 & _).
  assert (db2' = db2) as -> by congruence.
  destruct (cache_author_spec (from_slack (fromtimestamp env) channel data) db2)
    as (db3 & Hca' & Hm3 & Hs3 & Hr3 & _).
  assert (db3 = db') as -> by congruence.
  assert (∀ k j, has_id db1 k j -> has_id db' k j) as Hsame.
  { intros k j. unfold has_id. by rewrite Hm3, Hm2. }
  split; [|split].
  - destruct Hwf1 as (? & ? & ?). unfold wf_messages.
    by rewrite Hm3, Hs3, Hm2, Hs2.
  - by apply Hsame, Hkeep.
  - rewrite Hr3, (Ho2 message_id), Hr1; [done|]. congruence.
Qed.

(** The same for a whole thread. *)
Lemma _sync_thread_replies_other_reactions channel thread k0 message_id
    db db' res :
  (∀ reply, reply ∈ get_thread_replies (web env) channel thread 100 ->
            (channel, get_or "" (msg_ts reply)) ≠ k0) ->
  _sync_thread_replies env channel thread db = (db', res) ->
  wf_messages db -> has_id db k0 message_id ->
  wf_messages db' ∧ has_id db' k0 message_id
  ∧ stored_reactions message_id (reactions db')
    = stored_reactions message_id (reactions db).
Proof.
  intros Hne Hrun. unfold _sync_thread_replies in Hrun.
  revert Hrun.
  apply (for_each_rel
           (fun db db' =>
              wf_messages db -> has_id db k0 message_id ->
              wf_messages db' ∧ has_id db' k0 message_id
              ∧ stored_reactions message_id (reactions db')
                = stored_reactions message_id (reactions db))).
  - auto.
  - intros db1 db2 db3 H12 H23 Hwf Hid.
    destruct (H12 Hwf Hid) as (Hwf2 & Hid2 & Heq2).
    destruct (H23 Hwf2 Hid2) as (Hwf3 & Hid3 & Heq3).
    split_and!; [done..|congruence].
  - intros reply d d' r Hin Hstep.
    exact (sync_reply_other_reactions channel reply k0 message_id d d' r
             (Hne reply Hin) Hstep).
Qed.

End PollerSteps.

(** ** Reaction snapshots *)

(** The steps of [sync_message] for a message that is not skipped. *)
Lemma sync_message_inv env channel oldest data db db' res :
  already_seen oldest (from_slack (fromtimestamp env) channel data) = false ->
  sync_message env channel oldest data db = (db', res) ->
  (storage_rejects env (from_slack (fromtimestamp env) channel data) = true
   ∧ db' = db ∧ res = Raise StorageError)
  ∨ (∃ i db1 db2 db3 res3,
       upsert_message env (from_slack (fromtimestamp env) channel data) db
       = (db1, Ok i)
       ∧ store_reactions env i data db1 = (db2, Ok tt)
       ∧ (if 0 <? reply_count (from_slack (fromtimestamp env) channel data)
          then _sync_thread_replies env channel
                 (ts (from_slack (fromtimestamp env) channel data))
          else ret tt) db2 = (db3, res3)
       ∧ match res3 with
         | Ok _ =>
             cache_author env (from_slack (fromtimestamp env) channel data) db3
             = (db', Ok tt) ∧ res = Ok tt
         | Raise e => db' = db3 ∧ res = Raise e
         end).
Proof.
  unfold sync_message. intros -> Hrun.
  set (msg := from_slack (fromtimestamp env) channel data) in *.
  apply bind_inv in Hrun as [(e & Hup & ->) | (i & db1 & Hup & Hrun)].
  - left. destruct (upsert_message_cases env _ _ _ _ Hup)
      as [(? & ? & [= ->]) | [(_ & _ & ? & _ & _ & [=] & _) | (_ & _ & [=] & _)]].
    by split_and!.
  - right. exists i, db1.
    destruct (store_reactions_spec env i data db1
                (upsert_message_ok_id _ _ _ _ _ Hup)) as (db2 & Hst & _).
    apply bind_inv in Hrun as [(e & Hst' & _) | ([] & db2' & Hst' & Hrun)];
      [congruence|].
    assert (db2' = db2) as -> by congruence. exists db2.
    apply bind_inv in Hrun as [(e & Hth & ->) | ([] & db3 & Hth & Hrun)].
    + exists db', (Raise e). by split_and!.
    + exists db3, (Ok tt).
      destruct (cache_author_spec env msg db3) as (db4 & Hca & _).
      assert (db4 = db') as -> by congruence.
      split_and!; try done. congruence.
Qed.

(** C1, as the code has it. A message whose timestamp is at or below the
    cursor is skipped: its sync succeeds and writes nothing, so the reaction
    rows stored for it stay as they were, whatever snapshot was fetched.
    After a successful sync of a message that is not skipped and whose
    fetched reaction snapshot is not empty, the reaction rows stored for the
    message are exactly the rows [(message_id, emoji_name, user_id)] of that
    snapshot, each once and none left from an earlier snapshot. When the
    fetched snapshot of such a message is empty or absent, the sync writes
    no reaction row: the rows stored for the message stay as they were. The
    table constraints are assumed, and the replies fetched for the message
    are assumed to carry timestamps other than its own. *)
Theorem sync_message_reactions (env : Env) (channel : string)
    (oldest : option string) (data : SlackMsg) (db db' : Database) :
  wf_messages db ->
  (∀ reply,
     reply ∈ get_thread_replies (web env) channel
               (ts (from_slack (fromtimestamp env) channel data)) 100 ->
     get_or "" (msg_ts reply) ≠ ts (from_slack (fromtimestamp env) channel data)) ->
  sync_message env channel oldest data db = (db', Ok tt) ->
  if already_seen oldest (from_slack (fromtimestamp env) channel data)
  then db' = db
  else
    ∃ message_id,
      has_id db' (channel, ts (from_slack (fromtimestamp env) channel data))
        message_id
      ∧ match msg_reactions data with
        | Some (r :: rs) =>
            NoDup (stored_reactions message_id (reactions db'))
            ∧ (∀ k, k ∈ stored_reactions message_id (reactions db')
                    <-> k ∈ snapshot_rows message_id (r :: rs))
        | _ =>
            stored_reactions message_id (reactions db')
            = stored_reactions message_id (reactions db)
        end.
Proof.
  intros Hwf Hreplies Hrun.
  destruct (already_seen oldest (from_slack (fromtimestamp env) channel data))
    eqn:Hseen.
  { unfold sync_message in Hrun. rewrite Hseen in Hrun.
    by injection Hrun as <-. }
  apply (sync_message_inv _ _ _ _ _ _ _ Hseen) in Hrun
    as [(_ & _ & [=]) | (i & db1 & db2 & db3 & res3 & Hup & Hst & Hth & Hend)].
  set (msg := from_slack (fromtimestamp env) channel data) in *.
  destruct res3 as [[]|e]; [|by destruct Hend as (_ & [=])].
  destruct Hend as [Hca _].
  destruct (upsert_message_wf env _ _ _ _ Hwf Hup) as (Hwf1 & Hi & _).
  destruct (upsert_message_frame env _ _ _ _ Hup) as (Hr1 & _).
  specialize (Hi i eq_refl).
  destruct (store_reactions_spec env i data db1
              (upsert_message_ok_id _ _ _ _ _ Hup))
    as (db2' & Hst' & Hm2 & Hs2 & _ & _ & _ & _ & Hsnap).
  assert (db2' = db2) as -> by congruence.
  assert (wf_messages db2) as Hwf2.
  { destruct Hwf1 as (? & ? & ?). unfold wf_messages. by rewrite Hm2, Hs2. }
  assert (has_id db2 (msg_key msg) i) as Hi2.
  { unfold has_id. by rewrite Hm2. }
  assert (wf_messages db3 ∧ has_id db3 (msg_key msg) i
          ∧ stored_reactions i (reactions db3)
            = stored_reactions i (reactions db2)) as (Hwf3 & Hi3 & Hr3).
  { destruct (0 <? reply_count msg).
    - eapply _sync_thread_replies_other_reactions; [|exact Hth|done..].
      intros reply Hin [= Heq]. by apply (Hreplies reply).
    - by inversion Hth; subst. }
  destruct (cache_author_spec env msg db3) as (db4 & Hca' & Hm4 & _ & Hr4 & _).
  assert (db4 = db') as -> by congruence.
  exists i. split.
  { unfold has_id. by rewrite Hm4. }
  rewrite Hr4, Hr3.
  destruct (msg_reactions data) as [[|r rs]|]; [|done|].
  - by rewrite Hsnap, Hr1.
  - by rewrite Hsnap, Hr1.
Qed.

Lemma sync_message_reactions_witness :
  ∃ message_id,
    has_id (sync_message Examples.quiet_env "C1" None Examples.hello_reacted
              Examples.stale_db).1 ("C1", "100") message_id
    ∧ NoDup (stored_reactions message_id
               (reactions (sync_message Examples.quiet_env "C1" None
                             Examples.hello_reacted Examples.stale_db).1))
    ∧ (∀ k, k ∈ stored_reactions message_id
                  (reactions (sync_message Examples.quiet_env "C1" None
                                Examples.hello_reacted Examples.stale_db).1)
            <-> k ∈ snapshot_rows message_id [Examples.thumbs_up]).
Proof.
  apply (sync_message_reactions Examples.quiet_env "C1" None
           Examples.hello_reacted Examples.stale_db).
  - split_and!.
    + apply (bool_decide_unpack _). vm_compute. exact I.
    + apply (bool_decide_unpack _). vm_compute. exact I.
    + intros r Hr. simpl in Hr. apply list_elem_of_singleton in Hr.
      subst r. reflexivity.
  - intros reply Hin. simpl in Hin. by apply elem_of_nil in Hin.
  - vm_compute. reflexivity.
Defined.

(** C1 fails in two ways. For the empty snapshot: the message [C1/100] is
    synced again with no reaction left, the sync succeeds, and the row of
    the earlier snapshot is still stored. For a message at or below the
    cursor: with the cursor at [100] the message [C1/100] is fetched again
    with a [:+1:] from [U9], the sync succeeds and changes nothing, and the
    stored row is still the [:eyes:] of the earlier snapshot. *)
Lemma sync_message_keeps_stale_reactions :
  ((sync_message Examples.quiet_env "C1" None Examples.hello_msg
      Examples.stale_db).2 = Ok tt
   ∧ snapshot_rows 1 (get_or [] (msg_reactions Examples.hello_msg)) = []
   ∧ stored_reactions 1
       (reactions (sync_message Examples.quiet_env "C1" None
                     Examples.hello_msg Examples.stale_db).1)
     = [(1, "eyes", "U2")])
  ∧ (sync_message Examples.quiet_env "C1" (Some "100") Examples.hello_reacted
       Examples.stale_db = (Examples.stale_db, Ok tt)
     ∧ snapshot_rows 1 (get_or [] (msg_reactions Examples.hello_reacted))
       = [(1, "+1", "U9")]
     ∧ stored_reactions 1 (reactions Examples.stale_db)
       = [(1, "eyes", "U2")]).
Proof. split_and!; vm_compute; reflexivity. Qed.

(** ** Thread replies *)

Lemma get_thread_replies_tail w channel thread limit :
  get_thread_replies w channel thread limit
  = match conversations_replies w channel thread limit with
    | Some (_ :: rest) => rest
    | _ => []
    end.
Proof.
  unfold get_thread_replies.
  destruct (conversations_replies w channel thread limit) as [[|p [|r rest]]|];
    try reflexivity.
  cbn [length]. destruct (1 <? Z.of_nat (S (S (length rest)))) eqn:Hlt.
  - reflexivity.
  - apply Z.ltb_ge in Hlt. lia.
Qed.

Section ThreadReplies.
Context (env : Env) (channel thread : string).

Local Abbreviation P := (is_reply_of channel thread).

(** A row updated in place that was no reply row of the thread and now is
    one makes the thread one row longer. *)
Lemma filter_updated_rows m rows :
  NoDup (row_key <$> rows) ->
  (msg_key m ∈ row_key <$> rows) ->
  (msg_key m ∉ row_key <$> filter P rows) ->
  (∀ r, row_key r = msg_key m -> P (conflict_update env m r)) ->
  length (filter P (updated_rows env m rows)) = S (length (filter P rows))
  ∧ (∀ k, k ∈ row_key <$> filter P (updated_rows env m rows)
          <-> k = msg_key m ∨ k ∈ row_key <$> filter P rows).
Proof.
  induction rows as [|r rows IH]; intros Hnd Hin Hout Hnew.
  - by apply elem_of_nil in Hin.
  - rewrite fmap_cons in Hnd, Hin. apply NoDup_cons in Hnd as [Hfresh Hnd].
    unfold updated_rows. rewrite fmap_cons. fold (updated_rows env m rows).
    destruct (has_key (channel_id m) (ts m) r) eqn:Hk.
    + apply has_key_true in Hk. fold (msg_key m) in Hk.
      rewrite updated_rows_miss by (unfold msg_key in Hk; congruence).
      assert (¬ P r) as Hr.
      { intros HP. apply Hout. rewrite filter_cons_True by done.
        rewrite fmap_cons, Hk. apply elem_of_cons. by left. }
      rewrite filter_cons_True by (by apply Hnew).
      rewrite (filter_cons_False _ r) by done.
      split; [done|]. intros k. rewrite fmap_cons, elem_of_cons.
      by rewrite conflict_update_key, Hk.
    + apply has_key_false in Hk. fold (msg_key m) in Hk.
      apply elem_of_cons in Hin as [Hin | Hin]; [congruence|].
      destruct (decide (P r)) as [HP | HP].
      * rewrite !filter_cons_True by done.
        destruct IH as [Hlen Hkeys]; [done..| |done|].
        { intros Hc. apply Hout. rewrite filter_cons_True by done.
          rewrite fmap_cons. apply elem_of_cons. by right. }
        cbn [length]. rewrite Hlen. split; [done|].
        intros k. rewrite !fmap_cons, !elem_of_cons, Hkeys. tauto.
      * rewrite !filter_cons_False by done.
        apply IH; try done.
        intros Hc. apply Hout. by rewrite filter_cons_False.
Qed.

(** Storing one reply of the thread under a key that is not yet a reply
    row of the thread adds one reply row. *)
Lemma sync_reply_adds_row data db :
  NoDup (row_key <$> messages db) ->
  storage_rejects env (from_slack (fromtimestamp env) channel data) = false ->
  msg_thread_ts data = Some thread ->
  reply_ts data ≠ thread ->
  ((channel, reply_ts data) ∉ row_key <$> thread_reply_rows channel thread db) ->
  ∃ db',
    sync_reply env channel data db = (db', Ok tt)
    ∧ NoDup (row_key <$> messages db')
    ∧ length (thread_reply_rows channel thread db')
      = S (length (thread_reply_rows channel thread db))
    ∧ (∀ k, k ∈ row_key <$> thread_reply_rows channel thread db'
            <-> k = (channel, reply_ts data)
                ∨ k ∈ row_key <$> thread_reply_rows channel thread db).
Proof.
  intros Hnd Hok Hthread Hts Hout.
  set (reply := from_slack (fromtimestamp env) channel data) in *.
  destruct (sync_reply env channel data db) as [db' res] eqn:Hrun.
  apply sync_reply_inv in Hrun
    as [(Hrej & _) | (i & db1 & db2 & Hup & Hst & Hca & ->)];
    [fold reply in Hrej; congruence|].
  fold reply in Hup, Hca.
  destruct (store_reactions_spec env i data db1
              (upsert_message_ok_id _ _ _ _ _ Hup)) as (db2' & Hst' & Hm2 & _).
  assert (db2' = db2) as -> by congruence.
  destruct (cache_author_spec env reply db2) as (db3 & Hca' & Hm3 & _).
  assert (db3 = db') as -> by congruence.
  exists db'. split; [done|].
  unfold thread_reply_rows. rewrite Hm3, Hm2.
  assert (P (inserted_row env (messages_id_seq db) reply)) as Hins.
  { unfold is_reply_of. simpl. split_and!; [done | done | exact Hts]. }
  assert (∀ r, row_key r = msg_key reply -> P (conflict_update env reply r))
    as Hupd.
  { intros r [= Hc Ht]. unfold is_reply_of. simpl.
    split_and!; [done | done |]. rewrite Ht. exact Hts. }
  destruct (upsert_message_cases env _ _ _ _ Hup)
    as [(_ & _ & [=]) | [(_ & Hin & old & _ & _ & _ & Hdb & _ & _)
                        | (_ & Hfresh & _ & ->)]].
  - rewrite (Hdb Hnd). cbn [messages set_messages].
    rewrite updated_rows_keys. split; [done|].
    by apply filter_updated_rows.
  - cbn [messages set_messages]. rewrite fmap_app, filter_app.
    rewrite (filter_cons_True _ _ []) by done. rewrite filter_nil.
    split_and!.
    + apply NoDup_app. split; [done|]. split; [|apply NoDup_singleton].
      intros k Hk Hk'. apply list_elem_of_singleton in Hk'. by subst.
    + rewrite length_app. simpl. lia.
    + intros k. rewrite fmap_app, elem_of_app. simpl.
      rewrite list_elem_of_singleton. unfold row_key at 2. simpl. tauto.
Qed.

(** The loop over the replies. *)
Lemma sync_replies_add_rows replies db :
  NoDup (row_key <$> messages db) ->
  NoDup (reply_ts <$> replies) ->
  (∀ reply, reply ∈ replies ->
     storage_rejects env (from_slack (fromtimestamp env) channel reply) = false
     ∧ msg_thread_ts reply = Some thread
     ∧ reply_ts reply ≠ thread
     ∧ (channel, reply_ts reply)
         ∉ row_key <$> thread_reply_rows channel thread db) ->
  ∃ db',
    for_each (sync_reply env channel) replies db = (db', Ok tt)
    ∧ length (thread_reply_rows channel thread db')
      = (length (thread_reply_rows channel thread db) + length replies)%nat
    ∧ (∀ k, k ∈ row_key <$> thread_reply_rows channel thread db'
            <-> k ∈ (fun reply => (channel, reply_ts reply)) <$> replies
                ∨ k ∈ row_key <$> thread_reply_rows channel thread db).
Proof.
  revert db. induction replies as [|reply replies IH]; intros db Hnd Hts Hall.
  - exists db. split; [done|]. split; [simpl; lia|].
    intros k. rewrite fmap_nil, elem_of_nil. tauto.
  - rewrite fmap_cons in Hts. apply NoDup_cons in Hts as [Hfresh Hts].
    destruct (Hall reply) as (Hok & Hth & Hne & Hout);
      [apply elem_of_cons; by left|].
    destruct (sync_reply_adds_row reply db Hnd Hok Hth Hne Hout)
      as (db1 & Hrun1 & Hnd1 & Hlen1 & Hkeys1).
    destruct (IH db1 Hnd1 Hts) as (db' & Hrun & Hlen & Hkeys).
    { intros reply' Hin'.
      destruct (Hall reply') as (Hok' & Hth' & Hne' & Hout');
        [apply elem_of_cons; by right|].
      split_and!; try done. rewrite Hkeys1. intros [[= Heq] | Hc]; [|done].
      apply Hfresh. rewrite <- Heq. by apply list_elem_of_fmap_2. }
    exists db'. cbn [for_each]. unfold bind. rewrite Hrun1.
    split; [done|]. split.
    + rewrite Hlen, Hlen1. simpl. lia.
    + intros k. rewrite Hkeys, Hkeys1, fmap_cons, elem_of_cons. tauto.
Qed.

End ThreadReplies.

(** C9. The thread fetch drops the parent: whatever [conversations.replies]
    answers, [get_thread_replies] returns the entries after the first, and
    nothing when there is at most one. So when the answer is the parent
    followed by [k] replies (each carrying the parent's timestamp as
    [thread_ts], a timestamp of its own, and none refused by the store) and
    no reply row of the thread is stored yet, [_sync_thread_replies]
    succeeds and leaves exactly [k] reply rows of the thread, the rows of
    the fetched replies. *)
Theorem thread_replies_exclude_parent :
  (∀ w channel thread limit,
     get_thread_replies w channel thread limit
     = match conversations_replies w channel thread limit with
       | Some (_ :: rest) => rest
       | _ => []
       end)
  ∧ (∀ env channel thread parent replies db,
       conversations_replies (web env) channel thread 100
       = Some (parent :: replies) ->
       NoDup (row_key <$> messages db) ->
       thread_reply_rows channel thread db = [] ->
       NoDup (reply_ts <$> replies) ->
       (∀ reply, reply ∈ replies ->
          msg_thread_ts reply = Some thread ∧ reply_ts reply ≠ thread
          ∧ storage_rejects env (from_slack (fromtimestamp env) channel reply)
            = false) ->
       ∃ db',
         _sync_thread_replies env channel thread db = (db', Ok tt)
         ∧ length (thread_reply_rows channel thread db') = length replies
         ∧ (∀ k, k ∈ row_key <$> thread_reply_rows channel thread db'
                 <-> k ∈ (fun reply => (channel, reply_ts reply)) <$> replies)).
Proof.
  split; [apply get_thread_replies_tail|].
  intros env channel thread parent replies db Hresp Hnd Hnone Hts Hall.
  unfold _sync_thread_replies. rewrite get_thread_replies_tail, Hresp.
  destruct (sync_replies_add_rows env channel thread replies db Hnd Hts)
    as (db' & Hrun & Hlen & Hkeys).
  - intros reply Hin. destruct (Hall reply Hin) as (? & ? & ?).
    split_and!; try done. rewrite Hnone, fmap_nil. apply not_elem_of_nil.
  - exists db'. split; [done|]. rewrite Hnone in Hlen, Hkeys. split; [done|].
    intros k. rewrite Hkeys, fmap_nil, elem_of_nil. tauto.
Qed.

Lemma thread_replies_exclude_parent_witness :
  ∃ db',
    _sync_thread_replies Examples.thread_env "C1" "200"
      (Examples.db_with [Examples.parent_row]) = (db', Ok tt)
    ∧ length (thread_reply_rows "C1" "200" db') = 2%nat
    ∧ (∀ k, k ∈ row_key <$> thread_reply_rows "C1" "200" db'
            <-> k ∈ [("C1", "201"); ("C1", "202")]).
Proof.
  apply (proj2 thread_replies_exclude_parent Examples.thread_env "C1" "200"
           Examples.thread_parent Examples.thread_replies
           (Examples.db_with [Examples.parent_row])).
  - reflexivity.
  - apply (bool_decide_unpack _). vm_compute. exact I.
  - reflexivity.
  - apply (bool_decide_unpack _). vm_compute. exact I.
  - intros reply Hin. unfold Examples.thread_replies in Hin.
    apply elem_of_cons in Hin as [-> | Hin];
      [|apply list_elem_of_singleton in Hin as ->];
      (split_and!; [reflexivity | discriminate | reflexivity]).
Defined.

(** ** The sync cursor *)

Lemma for_each_raise {A} (body : A -> M unit) (xs : list A) db db' e :
  for_each body xs db = (db', Raise e) ->
  ∃ x db1, x ∈ xs ∧ body x db1 = (db', Raise e).
Proof.
  revert db. induction xs as [|x xs IH]; intros db; [done|].
  cbn [for_each]. intros Hrun.
  apply bind_inv in Hrun as [(e' & Hx & [= <-]) | (a & db1 & Hx & Hrest)].
  - exists x, db. split; [apply elem_of_cons; by left | done].
  - destruct (IH _ Hrest) as (y & db2 & Hy & Hbody).
    exists y, db2. split; [apply elem_of_cons; by right | done].
Qed.

(** A loop with a step that raises whatever the database raises. *)
Lemma for_each_raises {A} (body : A -> M unit) (xs : list A) e :
  (∀ x db db' e', body x db = (db', Raise e') -> e' = e) ->
  Exists (fun x => ∀ db, ∃ db', body x db = (db', Raise e)) xs ->
  ∀ db, ∃ db', for_each body xs db = (db', Raise e).
Proof.
  intros Honly. induction 1 as [x xs Hx | x xs _ IH]; intros db.
  - destruct (Hx db) as (db' & Hrun). exists db'.
    cbn [for_each]. unfold bind. by rewrite Hrun.
  - cbn [for_each]. unfold bind. destruct (body x db) as [db1 [[]|e']] eqn:Hb.
    + apply IH.
    + exists db1. by rewrite (Honly _ _ _ _ Hb).
Qed.

Section CursorFrames.
Context (env : Env).

Lemma keeps_cursors_refl db : keeps_cursors db db.
Proof. by split. Qed.

Lemma keeps_cursors_trans db1 db2 db3 :
  keeps_cursors db1 db2 -> keeps_cursors db2 db3 -> keeps_cursors db1 db3.
Proof. intros [? ?] [? ?]. split; congruence. Qed.

Lemma sync_reply_cursors channel data db db' res :
  sync_reply env channel data db = (db', res) ->
  keeps_cursors db db' ∧ (∀ e, res = Raise e -> e = StorageError).
Proof.
  intros Hrun. apply sync_reply_inv in Hrun
    as [(_ & -> & ->) | (i & db1 & db2 & Hup & Hst & Hca & ->)].
  - split; [apply keeps_cursors_refl | by intros e [= <-]].
  - split; [|done].
    destruct (upsert_message_frame env _ _ _ _ Hup) as (_ & Hs1 & _ & Hc1).
    destruct (store_reactions_spec env i data db1
              (upsert_message_ok_id _ _ _ _ _ Hup))
      as (db2' & Hst' & _ & _ & _ & Hs2 & Hc2 & _).
    assert (db2' = db2) as -> by congruence.
    destruct (cache_author_spec env
                (from_slack (fromtimestamp env) channel data) db2)
      as (db3 & Hca' & _ & _ & _ & Hs3 & Hc3).
    assert (db3 = db') as -> by congruence.
    split; congruence.
Qed.

Lemma _sync_thread_replies_cursors channel thread db db' res :
  _sync_thread_replies env channel thread db = (db', res) ->
  keeps_cursors db db' ∧ (∀ e, res = Raise e -> e = StorageError).
Proof.
  unfold _sync_thread_replies. intros Hrun. split.
  - revert Hrun. apply for_each_rel.
    + apply keeps_cursors_refl.
    + apply keeps_cursors_trans.
    + intros x d d' r _ Hstep. by apply sync_reply_cursors in Hstep as [? _].
  - intros e ->. apply for_each_raise in Hrun as (x & db1 & _ & Hstep).
    apply sync_reply_cursors in Hstep as [_ He]. by apply He.
Qed.

Lemma sync_message_cursors channel oldest data db db' res :
  sync_message env channel oldest data db = (db', res) ->
  keeps_cursors db db' ∧ (∀ e, res = Raise e -> e = StorageError).
Proof.
  destruct (already_seen oldest (from_slack (fromtimestamp env) channel data))
    eqn:Hseen.
  - unfold sync_message. rewrite Hseen. intros [= <- <-].
    split; [apply keeps_cursors_refl | done].
  - intros Hrun. apply (sync_message_inv _ _ _ _ _ _ _ Hseen) in Hrun
      as [(_ & -> & ->) | (i & db1 & db2 & db3 & res3 & Hup & Hst & Hth & Hend)].
    { split; [apply keeps_cursors_refl | by intros e [= <-]]. }
    destruct (upsert_message_frame env _ _ _ _ Hup) as (_ & Hs1 & _ & Hc1).
    destruct (store_reactions_spec env i data db1
              (upsert_message_ok_id _ _ _ _ _ Hup))
      as (db2' & Hst' & _ & _ & _ & Hs2 & Hc2 & _).
    assert (db2' = db2) as -> by congruence.
    assert (keeps_cursors db2 db3 ∧ (∀ e, res3 = Raise e -> e = StorageError))
      as [[Hs3 Hc3] He3].
    { destruct (0 <? reply_count _).
      - by apply _sync_thread_replies_cursors in Hth.
      - inversion Hth; subst. split; [apply keeps_cursors_refl | done]. }
    destruct res3 as [[]|e3].
    + destruct Hend as [Hca ->]. split; [|done].
      destruct (cache_author_spec env
                  (from_slack (fromtimestamp env) channel data) db3)
        as (db4 & Hca' & _ & _ & _ & Hs4 & Hc4).
      assert (db4 = db') as -> by congruence.
      split; congruence.
    + destruct Hend as [-> ->]. split; [split; congruence|].
      intros e [= <-]. by apply He3.
Qed.

(** A message the store refuses, and that is not skipped, stops the loop. *)
Lemma sync_message_refused channel oldest data db :
  already_seen oldest (from_slack (fromtimestamp env) channel data) = false ->
  storage_rejects env (from_slack (fromtimestamp env) channel data) = true ->
  sync_message env channel oldest data db = (db, Raise StorageError).
Proof.
  intros Hseen Hrej. unfold sync_message, bind, upsert_message.
  by rewrite Hseen, Hrej.
Qed.

End CursorFrames.

Lemma oldest_of_insert channel row db c :
  oldest_of c (set_sync_state (insert channel row) db)
  = if decide (channel = c) then last_ts row else oldest_of c db.
Proof.
  unfold oldest_of, get_sync_state. cbn [sync_state set_sync_state].
  rewrite lookup_insert. by destruct (decide (channel = c)).
Qed.

(** The loop of [sync_history] leaves the cursors alone and fails only with
    a storage error. *)
Lemma sync_messages_cursors env channel oldest msgs db db' res :
  for_each (sync_message env channel oldest) msgs db = (db', res) ->
  keeps_cursors db db' ∧ (∀ e, res = Raise e -> e = StorageError).
Proof.
  intros Hrun. split.
  - revert Hrun. apply for_each_rel.
    + apply keeps_cursors_refl.
    + apply keeps_cursors_trans.
    + intros x d d' r _ Hstep.
      by apply sync_message_cursors in Hstep as [? _].
  - intros e ->. apply for_each_raise in Hrun as (x & db1 & _ & Hstep).
    apply sync_message_cursors in Hstep as [_ He]. by apply He.
Qed.

(** *** Stored messages *)

Lemma grows_refl db : grows db db.
Proof. by split. Qed.

Lemma grows_trans db1 db2 db3 : grows db1 db2 -> grows db2 db3 -> grows db1 db3.
Proof. intros [? ?] [? ?]. split; auto. Qed.

Lemma same_messages_grows db db' : messages db' = messages db -> grows db db'.
Proof. intros H. unfold grows, stored_keys. rewrite H. by split. Qed.

Lemma same_keys_trans db1 db2 db3 :
  same_keys db1 db2 -> same_keys db2 db3 -> same_keys db1 db3.
Proof. unfold same_keys. congruence. Qed.

(** A loop whose steps establish [Q x] and never undo it. *)
Lemma for_each_all {A} (R : Database -> Database -> Prop)
    (Q : A -> Database -> Prop) (body : A -> M unit) (xs : list A) :
  (∀ db, R db db) ->
  (∀ db1 db2 db3, R db1 db2 -> R db2 db3 -> R db1 db3) ->
  (∀ x db db' res, body x db = (db', res) -> R db db') ->
  (∀ x db db', body x db = (db', Ok tt) -> Q x db') ->
  (∀ x db db', Q x db -> R db db' -> Q x db') ->
  ∀ db db', for_each body xs db = (db', Ok tt) -> ∀ x, x ∈ xs -> Q x db'.
Proof.
  intros Hrefl Htrans Hstep Hpost Hkeep.
  induction xs as [|y xs IH]; intros db db' Hrun x Hin.
  - by apply elem_of_nil in Hin.
  - cbn [for_each] in Hrun.
    apply bind_inv in Hrun as [(e & _ & [=]) | ([] & db1 & Hy & Hrest)].
    apply elem_of_cons in Hin as [-> | Hin]; [|by eapply IH].
    apply (Hkeep y db1); [by eapply Hpost|].
    revert Hrest. apply for_each_rel; [done..|].
    intros z d d' r _. apply Hstep.
Qed.

Section Growth.
Context (env : Env).

Lemma upsert_message_grows m db db' res :
  upsert_message env m db = (db', res) -> grows db db'.
Proof.
  intros Hrun. split.
  - intros k. by apply (upsert_message_keys env m db db' res k).
  - unfold stored_keys.
    destruct (upsert_message_cases _ _ _ _ _ Hrun)
      as [(_ & -> & _) | [(_ & _ & old & _ & _ & _ & _ & Hkeys & _)
                         | (_ & Hfresh & _ & ->)]].
    + done.
    + by rewrite Hkeys.
    + cbn [messages set_messages]. rewrite fmap_app. intros Hnd.
      apply NoDup_app. split; [done|]. split; [|apply NoDup_singleton].
      intros k Hk Hk'. apply list_elem_of_singleton in Hk'. by subst.
Qed.

(** Upserting under a stored key adds no row. *)
Lemma upsert_message_same_keys m db db' res :
  (msg_key m ∈ stored_keys db) ->
  upsert_message env m db = (db', res) -> same_keys db db'.
Proof.
  intros Hin Hrun. unfold same_keys, stored_keys.
  destruct (upsert_message_cases _ _ _ _ _ Hrun)
    as [(_ & -> & _) | [(_ & _ & old & _ & _ & _ & _ & Hkeys & _)
                       | (_ & Hfresh & _ & _)]]; done.
Qed.

Lemma sync_reply_grows channel data db db' res :
  sync_reply env channel data db = (db', res) ->
  grows db db'
  ∧ (res = Ok tt -> (channel, reply_ts data) ∈ stored_keys db')
  ∧ ((channel, reply_ts data) ∈ stored_keys db -> same_keys db db').
Proof.
  intros Hrun. apply sync_reply_inv in Hrun
    as [(_ & -> & ->) | (i & db1 & db2 & Hup & Hst & Hca & ->)].
  { split; [apply grows_refl|]. by split. }
  destruct (store_reactions_spec env i data db1
              (upsert_message_ok_id _ _ _ _ _ Hup)) as (db2' & Hst' & Hm2 & _).
  assert (db2' = db2) as -> by congruence.
  destruct (cache_author_spec env
              (from_slack (fromtimestamp env) channel data) db2)
    as (db3 & Hca' & Hm3 & _).
  assert (db3 = db') as -> by congruence.
  assert (stored_keys db' = stored_keys db1) as Heq.
  { unfold stored_keys. by rewrite Hm3, Hm2. }
  unfold grows, same_keys. rewrite !Heq. split_and!.
  - by apply (upsert_message_grows _ _ _ _ Hup).
  - by apply (upsert_message_grows _ _ _ _ Hup).
  - intros _. by apply (upsert_message_ok_key env _ _ _ _ Hup).
  - intros Hin.
    by apply (upsert_message_same_keys
                (from_slack (fromtimestamp env) channel data) db db1 (Ok i)).
Qed.

Lemma persisted_grows channel data db db' :
  persisted env channel data db -> grows db db' -> persisted env channel data db'.
Proof.
  intros [Hkey Hreplies] [Hsub _]. split; [by apply Hsub|].
  intros Hparent reply Hin. by apply Hsub, Hreplies.
Qed.

Lemma persisted_same_keys channel data db db' :
  same_keys db db' -> persisted env channel data db -> persisted env channel data db'.
Proof. unfold persisted, same_keys. by intros ->. Qed.

Lemma _sync_thread_replies_grows channel thread db db' res :
  _sync_thread_replies env channel thread db = (db', res) ->
  grows db db'
  ∧ (res = Ok tt ->
     ∀ reply, reply ∈ get_thread_replies (web env) channel thread 100 ->
              (channel, reply_ts reply) ∈ stored_keys db')
  ∧ ((∀ reply, reply ∈ get_thread_replies (web env) channel thread 100 ->
               (channel, reply_ts reply) ∈ stored_keys db) ->
     same_keys db db').
Proof.
  unfold _sync_thread_replies. intros Hrun. split_and!.
  - revert Hrun. apply for_each_rel; [apply grows_refl | apply grows_trans |].
    intros x d d' r _ Hstep. by apply sync_reply_grows in Hstep as (? & _).
  - intros ->. revert Hrun.
    apply (for_each_all grows
             (fun reply d => (channel, reply_ts reply) ∈ stored_keys d)).
    + apply grows_refl.
    + apply grows_trans.
    + intros x d d' r Hstep. by apply sync_reply_grows in Hstep as (? & _).
    + intros x d d' Hstep. apply sync_reply_grows in Hstep as (_ & Hok & _).
      by apply Hok.
    + intros x d d' Hin [Hsub _]. by apply Hsub.
  - revert Hrun.
    apply (for_each_rel
             (fun d d' =>
                (∀ reply,
                   reply ∈ get_thread_replies (web env) channel thread 100 ->
                   (channel, reply_ts reply) ∈ stored_keys d) ->
                same_keys d d')).
    + done.
    + intros d1 d2 d3 H12 H23 Hall. specialize (H12 Hall).
      eapply same_keys_trans; [exact H12|]. apply H23.
      intros reply Hin. unfold same_keys in H12. rewrite H12. by apply Hall.
    + intros x d d' r Hin Hstep Hall.
      apply sync_reply_grows in Hstep as (_ & _ & Hsame). by apply Hsame, Hall.
Qed.

Lemma sync_message_grows channel oldest data db db' res :
  sync_message env channel oldest data db = (db', res) ->
  grows db db'
  ∧ (res = Ok tt ->
     already_seen oldest (from_slack (fromtimestamp env) channel data) = false ->
     persisted env channel data db')
  ∧ ((already_seen oldest (from_slack (fromtimestamp env) channel data) = false
      -> persisted env channel data db) ->
     same_keys db db').
Proof.
  destruct (already_seen oldest (from_slack (fromtimestamp env) channel data))
    eqn:Hseen.
  { unfold sync_message. rewrite Hseen. intros [= <- <-].
    split; [apply grows_refl|]. by split. }
  intros Hrun. apply (sync_message_inv _ _ _ _ _ _ _ Hseen) in Hrun
    as [(_ & -> & ->) | (i & db1 & db2 & db3 & res3 & Hup & Hst & Hth & Hend)].
  { split; [apply grows_refl|]. by split. }
  set (msg := from_slack (fromtimestamp env) channel data) in *.
  destruct (store_reactions_spec env i data db1
              (upsert_message_ok_id _ _ _ _ _ Hup)) as (db2' & Hst' & Hm2 & _).
  assert (db2' = db2) as -> by congruence.
  assert (stored_keys db2 = stored_keys db1) as Hk2.
  { unfold stored_keys. by rewrite Hm2. }
  assert (grows db2 db3
          ∧ (res3 = Ok tt -> (0 <? reply_count msg) = true ->
             ∀ reply,
               reply ∈ get_thread_replies (web env) channel (ts msg) 100 ->
               (channel, reply_ts reply) ∈ stored_keys db3)
          ∧ (((0 <? reply_count msg) = true ->
              ∀ reply,
                reply ∈ get_thread_replies (web env) channel (ts msg) 100 ->
                (channel, reply_ts reply) ∈ stored_keys db2) ->
             same_keys db2 db3)) as (Hg3 & Hok3 & Hsame3).
  { destruct (0 <? reply_count msg).
    - apply _sync_thread_replies_grows in Hth as (? & ? & ?).
      split_and!; [done | by auto | by auto].
    - inversion Hth; subst. split; [apply grows_refl|]. by split. }
  assert (stored_keys db' = stored_keys db3) as Hk4.
  { destruct res3 as [[]|e3].
    - destruct Hend as [Hca _].
      destruct (cache_author_spec env msg db3) as (db4 & Hca' & Hm4 & _).
      assert (db4 = db') as -> by congruence.
      unfold stored_keys. by rewrite Hm4.
    - by destruct Hend as [-> _]. }
  destruct (upsert_message_grows _ _ _ _ Hup) as [Hsub1 Hnd1].
  destruct Hg3 as [Hsub3 Hnd3].
  split; [split|split].
  - intros k Hk. rewrite Hk4. apply Hsub3. rewrite Hk2. by apply Hsub1.
  - intros Hnd. rewrite Hk4. apply Hnd3. rewrite Hk2. by apply Hnd1.
  - intros -> _. destruct res3 as [[]|e3]; [|by destruct Hend as (_ & [=])].
    split.
    + rewrite Hk4. apply Hsub3. rewrite Hk2.
      by apply (upsert_message_ok_key env _ _ _ _ Hup).
    + intros Hparent reply Hin. rewrite Hk4. by apply Hok3.
  - intros Hpers. destruct (Hpers eq_refl) as [Hkey Hreplies].
    pose proof (upsert_message_same_keys msg db db1 (Ok i) Hkey Hup) as Hs1.
    unfold same_keys in *. rewrite Hk4, Hsame3, Hk2; [done|].
    intros Hparent reply Hin. rewrite Hk2, Hs1. by apply Hreplies.
Qed.

Lemma sync_messages_grows channel oldest msgs db db' res :
  for_each (sync_message env channel oldest) msgs db = (db', res) ->
  grows db db'
  ∧ (res = Ok tt ->
     ∀ data, data ∈ msgs ->
       already_seen oldest (from_slack (fromtimestamp env) channel data) = false ->
       persisted env channel data db')
  ∧ ((∀ data, data ∈ msgs ->
        already_seen oldest (from_slack (fromtimestamp env) channel data) = false ->
        persisted env channel data db) ->
     same_keys db db').
Proof.
  intros Hrun. split_and!.
  - revert Hrun. apply for_each_rel; [apply grows_refl | apply grows_trans |].
    intros x d d' r _ Hstep. by apply sync_message_grows in Hstep as (? & _).
  - intros ->. revert Hrun.
    apply (for_each_all grows
             (fun data d =>
                already_seen oldest
                  (from_slack (fromtimestamp env) channel data) = false ->
                persisted env channel data d)).
    + apply grows_refl.
    + apply grows_trans.
    + intros x d d' r Hstep. by apply sync_message_grows in Hstep as (? & _).
    + intros x d d' Hstep. apply sync_message_grows in Hstep as (_ & Hok & _).
      by apply Hok.
    + intros x d d' Hq Hg Hseen. eapply persisted_grows; [by apply Hq | done].
  - revert Hrun.
    apply (for_each_rel
             (fun d d' =>
                (∀ data, data ∈ msgs ->
                   already_seen oldest
                     (from_slack (fromtimestamp env) channel data) = false ->
                   persisted env channel data d) ->
                same_keys d d')).
    + done.
    + intros d1 d2 d3 H12 H23 Hall. specialize (H12 Hall).
      eapply same_keys_trans; [exact H12|]. apply H23.
      intros data Hin Hseen. eapply persisted_same_keys; [exact H12|].
      by apply Hall.
    + intros x d d' r Hin Hstep Hall.
      apply sync_message_grows in Hstep as (_ & _ & Hsame).
      apply Hsame. by apply Hall.
Qed.

Lemma sync_history_grows channel oldest msgs db db' res :
  sync_history env channel oldest msgs db = (db', res) ->
  grows db db'
  ∧ channels db' = channels db
  ∧ (res = Ok tt ->
     ∀ data, data ∈ msgs ->
       already_seen oldest
         (from_slack (fromtimestamp env) (ch_id channel) data) = false ->
       persisted env (ch_id channel) data db')
  ∧ ((∀ data, data ∈ msgs ->
        already_seen oldest
          (from_slack (fromtimestamp env) (ch_id channel) data) = false ->
        persisted env (ch_id channel) data db) ->
     same_keys db db').
Proof.
  unfold sync_history. destruct msgs as [|first rest].
  { intros [= <- <-]. split; [apply grows_refl|]. split; [done|].
    split; [|done]. intros _ data Hin. by apply elem_of_nil in Hin. }
  intros Hrun.
  apply bind_inv in Hrun as [(e & Hloop & ->) | ([] & db1 & Hloop & Hend)].
  - destruct (sync_messages_cursors _ _ _ _ _ _ _ Hloop) as [[_ Hc] _].
    apply sync_messages_grows in Hloop as (Hg & _ & Hsame).
    split_and!; [done | done | done |].
    intros Hall. apply Hsame. intros data Hin. apply Hall.
    by apply elem_of_reverse.
  - destruct (sync_messages_cursors _ _ _ _ _ _ _ Hloop) as [[_ Hc] _].
    apply sync_messages_grows in Hloop as (Hg & Hok & Hsame).
    assert (messages db' = messages db1 ∧ channels db' = channels db1
            ∧ res = Ok tt) as (Hm & Hc' & ->).
    { destruct (truthy (msg_ts first)); inversion Hend; by subst. }
    assert (stored_keys db' = stored_keys db1) as Hk.
    { unfold stored_keys. by rewrite Hm. }
    split_and!.
    + eapply grows_trans; [exact Hg|]. by apply same_messages_grows.
    + congruence.
    + intros _ data Hin Hseen.
      eapply persisted_same_keys; [|apply (Hok eq_refl data); [|done]].
      * done.
      * by apply elem_of_reverse.
    + intros Hall. unfold same_keys. rewrite Hk. apply Hsame.
      intros data Hin. apply Hall. by apply elem_of_reverse.
Qed.

End Growth.

(** A loop that raises: the steps before the failing one were done. *)
Lemma for_each_raise_split {A} (body : A -> M unit) (xs : list A) db db' e :
  for_each body xs db = (db', Raise e) ->
  ∃ before x after db1,
    xs = before ++ x :: after
    ∧ for_each body before db = (db1, Ok tt)
    ∧ body x db1 = (db', Raise e).
Proof.
  revert db. induction xs as [|x xs IH]; intros db; [done|].
  cbn [for_each]. intros Hrun.
  apply bind_inv in Hrun as [(e' & Hx & [= <-]) | ([] & db1 & Hx & Hrest)].
  - by exists [], x, xs, db.
  - destruct (IH _ Hrest) as (before & y & after & db2 & -> & Hbefore & Hy).
    exists (x :: before), y, after, db2. split; [done|]. split; [|done].
    cbn [for_each]. unfold bind. by rewrite Hx.
Qed.

(** *** The cursor after a sync *)

(** C2, as the code has it. For a fetched page [first :: rest] (newest
    first), the sync of the channel loses no stored message, whatever its
    outcome, and ends in one of two ways. Either every message of the page
    that is not skipped is persisted (its row is stored, and so are the
    rows of the replies fetched for it when it is a thread parent), and
    then the cursor of the channel is set to the timestamp of [first] (when
    that timestamp is not empty), the other cursors being left alone. Or
    the sync stops at the first message whose persisting fails, with the
    storage error: no cursor is changed, and the messages of the page that
    come before the failing one (in the order of processing, oldest first)
    and are not skipped are persisted. A message of the page that the store
    refuses and that is not skipped always leads to the second outcome.
    Timestamps are taken within the range [datetime.fromtimestamp]
    converts. *)
Theorem channel_sync_cursor (fuel : nat) (env : Env) (channel : Channel)
    (db : Database) (first : SlackMsg) (rest : list SlackMsg) :
  get_channel_history fuel (web env) (ch_id channel)
    (oldest_of (ch_id channel) db) 100 = Some (first :: rest) ->
  ∃ db' res,
    _sync_channel_messages fuel env channel db = Some (db', res)
    ∧ grows db db'
    ∧ match res with
      | Raise e =>
          e = StorageError
          ∧ sync_state db' = sync_state db
          ∧ ∃ before failing after,
              reverse (first :: rest) = before ++ failing :: after
              ∧ already_seen (oldest_of (ch_id channel) db)
                  (from_slack (fromtimestamp env) (ch_id channel) failing)
                = false
              ∧ ∀ data, data ∈ before ->
                  already_seen (oldest_of (ch_id channel) db)
                    (from_slack (fromtimestamp env) (ch_id channel) data)
                  = false ->
                  persisted env (ch_id channel) data db'
      | Ok _ =>
          (∀ data, data ∈ first :: rest ->
             already_seen (oldest_of (ch_id channel) db)
               (from_slack (fromtimestamp env) (ch_id channel) data) = false ->
             persisted env (ch_id channel) data db')
          ∧ if truthy (msg_ts first)
            then oldest_of (ch_id channel) db' = msg_ts first
                 ∧ (∀ c, c ≠ ch_id channel ->
                         sync_state db' !! c = sync_state db !! c)
            else sync_state db' = sync_state db
      end
    ∧ (Exists
         (fun data =>
            already_seen (oldest_of (ch_id channel) db)
              (from_slack (fromtimestamp env) (ch_id channel) data) = false
            ∧ storage_rejects env
                (from_slack (fromtimestamp env) (ch_id channel) data) = true)
         (first :: rest) ->
       res = Raise StorageError).
Proof.
  intros Hfetch. unfold _sync_channel_messages. rewrite Hfetch.
  set (oldest := oldest_of (ch_id channel) db).
  destruct (sync_history env channel oldest (first :: rest) db)
    as [db' res] eqn:Hrun.
  exists db', res. split; [done|].
  pose proof (sync_history_grows env _ _ _ _ _ _ Hrun) as (Hg & _ & Hok & _).
  split; [exact Hg|].
  unfold sync_history, bind in Hrun.
  destruct (for_each (sync_message env (ch_id channel) oldest)
              (reverse (first :: rest)) db) as [db1 [[]|e]] eqn:Hloop.
  - destruct (sync_messages_cursors _ _ _ _ _ _ _ Hloop) as [[Hs Hc] _].
    assert (¬ Exists
              (fun data =>
                 already_seen oldest
                   (from_slack (fromtimestamp env) (ch_id channel) data) = false
                 ∧ storage_rejects env
                     (from_slack (fromtimestamp env) (ch_id channel) data) = true)
              (first :: rest)) as Hnone.
    { intros Hex. apply Exists_exists in Hex as (data & Hin & Hseen & Hrej).
      destruct (for_each_raises (sync_message env (ch_id channel) oldest)
                  (reverse (first :: rest)) StorageError) with (db := db)
        as (db2 & Hraise).
      - intros x d d' e' Hstep.
        apply sync_message_cursors in Hstep as [_ He]. by apply He.
      - apply Exists_exists. exists data. split; [by apply elem_of_reverse|].
        intros d. exists d. by apply sync_message_refused.
      - congruence. }
    assert (res = Ok tt) as ->.
    { destruct (truthy (msg_ts first)); by injection Hrun as _ <-. }
    split; [|done]. split; [by apply Hok|].
    destruct (truthy (msg_ts first)) eqn:Htruthy; injection Hrun as <-.
    + split.
      * rewrite oldest_of_insert. by rewrite decide_True.
      * intros c Hne. cbn [sync_state set_sync_state].
        rewrite lookup_insert_ne by done. by rewrite Hs.
    + done.
  - injection Hrun as <- <-.
    destruct (sync_messages_cursors _ _ _ _ _ _ _ Hloop) as [[Hs Hc] He].
    rewrite (He e eq_refl). split; [|done]. split; [done|]. split; [done|].
    apply for_each_raise_split in Hloop
      as (before & failing & after & db2 & Hsplit & Hbefore & Hfail).
    exists before, failing, after. split; [done|]. split.
    + destruct (already_seen oldest
                  (from_slack (fromtimestamp env) (ch_id channel) failing))
        eqn:Hseen; [|done].
      unfold sync_message in Hfail. by rewrite Hseen in Hfail.
    + intros data Hin Hseen.
      apply sync_messages_grows in Hbefore as (_ & Hpers & _).
      apply sync_message_grows in Hfail as (Hg2 & _).
      eapply persisted_grows; [|exact Hg2]. by apply Hpers.
Qed.

(** The page [300], [100] of channel [C1] is stored, and the cursor is set
    to [300]. *)
Lemma channel_sync_cursor_witness :
  ∃ db' res,
    _sync_channel_messages 1 Examples.two_env Examples.general
      Examples.fresh_db = Some (db', res)
    ∧ res = Ok tt
    ∧ stored_keys db' = [("C1", "100"); ("C1", "300")]
    ∧ persisted Examples.two_env "C1" (Examples.plain_msg "300" "U2" "second")
        db'
    ∧ persisted Examples.two_env "C1" (Examples.plain_msg "100" "U9" "hello")
        db'
    ∧ oldest_of "C1" db' = Some "300".
Proof.
  destruct (channel_sync_cursor 1 Examples.two_env Examples.general
              Examples.fresh_db (Examples.plain_msg "300" "U2" "second")
              [Examples.plain_msg "100" "U9" "hello"])
    as (db' & res & Hrun & _ & Hres & _); [vm_compute; reflexivity|].
  exists db', res. split; [exact Hrun|].
  assert (res = Ok tt) as ->.
  { vm_compute in Hrun. by injection Hrun as _ <-. }
  destruct Hres as [Hall Hcursor]. split; [reflexivity|].
  split; [vm_compute in Hrun; by injection Hrun as <-|].
  split; [apply Hall; [apply elem_of_cons; by left | reflexivity]|].
  split; [apply Hall; [apply elem_of_cons; right; apply elem_of_cons; by left
                      | reflexivity]|].
  apply Hcursor.
Defined.

(** C2 fails when a message cannot be persisted: the page holds the
    messages [300] and [100], the store refuses [300]; the message [100] is
    stored, the sync ends with the storage error, and the channel has no
    cursor, not the newest timestamp [300]. *)
Lemma refused_message_blocks_cursor :
  get_channel_history 1 (web Examples.refusing_env) "C1"
    (oldest_of "C1" Examples.fresh_db) 100 = Some Examples.two_messages
  ∧ snd <$> _sync_channel_messages 1 Examples.refusing_env Examples.general
              Examples.fresh_db = Some (Raise StorageError)
  ∧ (fun out => row_key <$> messages out.1)
      <$> _sync_channel_messages 1 Examples.refusing_env Examples.general
            Examples.fresh_db = Some [("C1", "100")]
  ∧ (fun out => oldest_of "C1" out.1)
      <$> _sync_channel_messages 1 Examples.refusing_env Examples.general
            Examples.fresh_db = Some None.
Proof. split_and!; vm_compute; reflexivity. Qed.

(** *** Monotonicity *)

Lemma cursor_le_refl a : cursor_le a a.
Proof. destruct a; simpl; [reflexivity | done]. Qed.

Lemma cursor_le_trans a b c : cursor_le a b -> cursor_le b c -> cursor_le a c.
Proof.
  destruct a, b, c; simpl; try done. intros ? ?. by etransitivity.
Qed.

Lemma empty_string_le t : String.le "" t.
Proof. unfold String.le. by destruct t. Qed.

Lemma not_truthy_some o : truthy (Some o) = false -> o = "".
Proof.
  simpl. intros H. apply negb_false_iff in H. by apply String.eqb_eq.
Qed.

(** Every message [get_channel_history] returns was on a page the API
    served for the lower bound the method passes. *)
Lemma history_loop_pages fuel w channel oldest limit acc cursor msgs m :
  history_loop fuel w channel oldest limit acc cursor = Some msgs ->
  m ∈ msgs ->
  m ∈ acc
  ∨ ∃ cur lim page,
      conversations_history w channel
        (if truthy oldest then oldest else None) cur lim = Some page
      ∧ m ∈ page_messages page.
Proof.
  revert acc cursor. induction fuel as [|fuel IH]; intros acc cursor; [done|].
  cbn [history_loop].
  destruct (conversations_history w channel _ _ _) as [page|] eqn:Hpage.
  - assert (m ∈ acc ++ page_messages page ->
            m ∈ acc ∨ ∃ cur lim page0,
              conversations_history w channel
                (if truthy oldest then oldest else None) cur lim = Some page0
              ∧ m ∈ page_messages page0) as Hhere.
    { intros Hin. apply elem_of_app in Hin as [Hin | Hin]; [by left|].
      right. by eexists _, _, page. }
    destruct (limit <=? _).
    + intros [= <-]. exact Hhere.
    + destruct (truthy (page_next_cursor page)).
      * intros Hrun Hin. destruct (IH _ _ Hrun Hin) as [Hacc | Hpg]; [|by right].
        by apply Hhere.
      * intros [= <-]. exact Hhere.
  - intros [= <-] Hin. by apply elem_of_nil in Hin.
Qed.

(** What [sync_history] does to the cursors. *)
Lemma sync_history_sync_state env channel oldest msgs db db' res :
  sync_history env channel oldest msgs db = (db', res) ->
  sync_state db' = sync_state db
  ∨ ∃ first rest,
      msgs = first :: rest ∧ truthy (msg_ts first) = true
      ∧ sync_state db'
        = <[ch_id channel :=
              {| ss_channel_id := ch_id channel; last_ts := msg_ts first;
                 last_sync_at := Some (now env) |}]> (sync_state db).
Proof.
  unfold sync_history. destruct msgs as [|first rest].
  - intros [= <- _]. by left.
  - intros Hrun.
    apply bind_inv in Hrun as [(e & Hloop & _) | ([] & db1 & Hloop & Hend)].
    + left. by apply sync_messages_cursors in Hloop as [[? _] _].
    + apply sync_messages_cursors in Hloop as [[Hs _] _].
      destruct (truthy (msg_ts first)) eqn:Htruthy.
      * right. exists first, rest. split_and!; [done..|].
        inversion Hend; subst. cbn [sync_state set_sync_state]. by rewrite Hs.
      * left. inversion Hend; by subst.
Qed.

Section CursorMonotone.
Context (env : Env).

(** The precondition on the remote API: a history request with lower
    bound [oldest] is answered with messages whose timestamp is [oldest] or
    later. *)
Hypothesis history_respects_oldest :
  ∀ channel o cursor limit page m t,
    conversations_history (web env) channel (Some o) cursor limit = Some page ->
    m ∈ page_messages page -> msg_ts m = Some t -> String.le o t.

Lemma _sync_channel_messages_monotone fuel channel db db' res :
  _sync_channel_messages fuel env channel db = Some (db', res) ->
  ∀ c, cursor_le (oldest_of c db) (oldest_of c db').
Proof.
  unfold _sync_channel_messages.
  destruct (get_channel_history fuel (web env) (ch_id channel)
              (oldest_of (ch_id channel) db) 100) as [msgs|] eqn:Hfetch; [|done].
  intros [= Hrun] c.
  apply sync_history_sync_state in Hrun
    as [Hsame | (first & rest & -> & Htruthy & Hset)].
  { unfold oldest_of, get_sync_state. rewrite Hsame. apply cursor_le_refl. }
  unfold oldest_of at 2. unfold get_sync_state. rewrite Hset, lookup_insert.
  destruct (decide (ch_id channel = c)) as [<- | Hne];
    [|apply cursor_le_refl].
  cbn [last_ts]. destruct (msg_ts first) as [t|] eqn:Hts; [|done].
  destruct (oldest_of (ch_id channel) db) as [o|] eqn:Hold; [|done].
  simpl. destruct (truthy (Some o)) eqn:Ho.
  - unfold get_channel_history in Hfetch.
    destruct (history_loop_pages _ _ _ _ _ _ _ _ first Hfetch)
      as [Hnil | (cur & lim & page & Hpage & Hin)].
    + apply elem_of_cons. by left.
    + by apply elem_of_nil in Hnil.
    + rewrite Ho in Hpage. by eapply history_respects_oldest.
  - apply not_truthy_some in Ho as ->. apply empty_string_le.
Qed.

Lemma sync_channels_messages_monotone fuel channels db db' res :
  sync_channels_messages fuel env channels db = Some (db', res) ->
  ∀ c, cursor_le (oldest_of c db) (oldest_of c db').
Proof.
  revert db. induction channels as [|channel channels IH]; intros db.
  - intros [= <- _] c. apply cursor_le_refl.
  - cbn [sync_channels_messages].
    destruct (_sync_channel_messages fuel env channel db)
      as [[db1 [[]|e]]|] eqn:Hstep; [| |done].
    + intros Hrest c. eapply cursor_le_trans.
      * by eapply _sync_channel_messages_monotone.
      * by eapply IH.
    + intros [= <- _]. by eapply _sync_channel_messages_monotone.
Qed.

End CursorMonotone.

(** C3. When the remote API answers a history request with lower bound
    [oldest] only with messages whose timestamp is [oldest] or later, a
    sync cycle never moves a cursor back: for every channel, [last_ts] after
    the cycle is at least [last_ts] before it, whether the cycle ends well
    or with an error. *)
Theorem cursor_monotone (fuel : nat) (env : Env) (db db' : Database)
    (res : result unit) :
  (∀ channel o cursor limit page m t,
     conversations_history (web env) channel (Some o) cursor limit = Some page ->
     m ∈ page_messages page -> msg_ts m = Some t -> String.le o t) ->
  _sync_all_messages fuel env db = Some (db', res) ->
  ∀ channel, cursor_le (oldest_of channel db) (oldest_of channel db').
Proof.
  intros Hapi Hrun. unfold _sync_all_messages in Hrun.
  by eapply sync_channels_messages_monotone.
Qed.

(** The example workspace keeps to the lower bound. *)
Lemma channel_web_respects_oldest remote channel o cursor limit page m t :
  conversations_history (Examples.channel_web remote) channel (Some o)
    cursor limit = Some page ->
  m ∈ page_messages page -> msg_ts m = Some t -> String.le o t.
Proof.
  simpl. destruct (String.eqb channel "C1"); [|done].
  intros [= <-]. simpl. rewrite list_elem_of_In, filter_In.
  intros [_ Hnew] Hts. unfold Examples.newer_than in Hnew.
  rewrite Hts in Hnew. simpl in Hnew. apply negb_true_iff in Hnew.
  unfold String.le. destruct (String.leb_total o t) as [Hle | Hle].
  - by rewrite Hle.
  - congruence.
Qed.

Lemma cursor_monotone_witness :
  ∃ db' res,
    _sync_all_messages 1 Examples.two_env Examples.cursor_db
    = Some (db', res)
    ∧ oldest_of "C1" Examples.cursor_db = Some "100"
    ∧ oldest_of "C1" db' = Some "300"
    ∧ cursor_le (oldest_of "C1" Examples.cursor_db) (oldest_of "C1" db').
Proof.
  destruct (_sync_all_messages 1 Examples.two_env Examples.cursor_db)
    as [[db' res]|] eqn:Hrun; [|vm_compute in Hrun; discriminate].
  exists db', res. split; [reflexivity|]. split; [reflexivity|]. split.
  - vm_compute in Hrun. by inversion Hrun.
  - apply (cursor_monotone 1 Examples.two_env Examples.cursor_db db' res);
      [|exact Hrun].
    intros channel o cursor limit page m t.
    apply channel_web_respects_oldest.
Defined.

(** ** Idempotence of the sync *)

Section Idempotence.
Context (env : Env).

(** More pages allowed do not change what a fetch returns. *)
Lemma history_loop_more fuel extra w channel oldest limit acc cursor msgs :
  history_loop fuel w channel oldest limit acc cursor = Some msgs ->
  history_loop (fuel + extra) w channel oldest limit acc cursor = Some msgs.
Proof.
  revert acc cursor. induction fuel as [|fuel IH]; intros acc cursor; [done|].
  cbn [history_loop Nat.add].
  destruct (conversations_history w channel _ _ _) as [page|]; [|done].
  destruct (limit <=? _); [done|].
  destruct (truthy (page_next_cursor page)); [apply IH | done].
Qed.

Lemma get_channel_history_det fuel fuel' w channel oldest limit msgs msgs' :
  get_channel_history fuel w channel oldest limit = Some msgs ->
  get_channel_history fuel' w channel oldest limit = Some msgs' ->
  msgs = msgs'.
Proof.
  unfold get_channel_history. intros H H'.
  destruct (Nat.le_ge_cases fuel fuel') as [Hle | Hle].
  - apply (history_loop_more _ (fuel' - fuel)) in H.
    replace (fuel + (fuel' - fuel))%nat with fuel' in H by lia. congruence.
  - apply (history_loop_more _ (fuel - fuel')) in H'.
    replace (fuel' + (fuel - fuel'))%nat with fuel in H' by lia. congruence.
Qed.

Lemma _sync_channel_messages_grows fuel channel db db' res :
  _sync_channel_messages fuel env channel db = Some (db', res) ->
  grows db db' ∧ channels db' = channels db.
Proof.
  unfold _sync_channel_messages.
  destruct (get_channel_history _ _ _ _ _) as [msgs|]; [|done].
  intros [= Hrun]. by apply sync_history_grows in Hrun as (? & ? & _).
Qed.

(** Syncing a settled channel stores no new row. *)
Lemma _sync_channel_messages_settled fuel channel db db' res :
  _sync_channel_messages fuel env channel db = Some (db', res) ->
  settled env (ch_id channel) db -> same_keys db db'.
Proof.
  unfold _sync_channel_messages.
  destruct (get_channel_history _ _ _ _ _) as [msgs|] eqn:Hfetch; [|done].
  intros [= Hrun] Hsettled.
  apply sync_history_grows in Hrun as (_ & _ & _ & Hsame).
  apply Hsame. intros data Hin Hseen. by eapply Hsettled.
Qed.

(** A sync of another channel keeps a channel settled. *)
Lemma _sync_channel_messages_keeps_settled fuel channel db db' res c :
  _sync_channel_messages fuel env channel db = Some (db', res) ->
  c ≠ ch_id channel -> settled env c db -> settled env c db'.
Proof.
  intros Hrun Hne Hsettled.
  destruct (_sync_channel_messages_grows _ _ _ _ _ Hrun) as [Hg _].
  assert (oldest_of c db' = oldest_of c db) as Hold.
  { unfold _sync_channel_messages in Hrun.
    destruct (get_channel_history _ _ _ _ _) as [msgs|]; [|done].
    injection Hrun as Hrun.
    apply sync_history_sync_state in Hrun
      as [Hsame | (first & rest & _ & _ & Hset)];
      unfold oldest_of, get_sync_state.
    - by rewrite Hsame.
    - rewrite Hset, lookup_insert_ne; [done | congruence]. }
  intros fuel' msgs data. rewrite Hold. intros Hfetch Hin Hseen.
  eapply persisted_grows; [by eapply Hsettled | done].
Qed.

Section Unchanged.

(** The remote state is unchanged: once a fetch has served [first] as the
    newest message of a channel, a fetch from the timestamp of [first]
    serves nothing newer. *)
Hypothesis nothing_newer :
  ∀ channel oldest fuel first rest fuel' msgs' m,
    get_channel_history fuel (web env) channel oldest 100
    = Some (first :: rest) ->
    truthy (msg_ts first) = true ->
    get_channel_history fuel' (web env) channel (msg_ts first) 100
    = Some msgs' ->
    m ∈ msgs' -> String.le (reply_ts m) (reply_ts first).

(** A successful sync leaves the channel settled. *)
Lemma _sync_channel_messages_settles fuel channel db db' :
  _sync_channel_messages fuel env channel db = Some (db', Ok tt) ->
  settled env (ch_id channel) db'.
Proof.
  unfold _sync_channel_messages.
  destruct (get_channel_history fuel (web env) (ch_id channel)
              (oldest_of (ch_id channel) db) 100) as [msgs|] eqn:Hfetch;
    [|done].
  intros [= Hrun].
  pose proof (sync_history_grows _ _ _ _ _ _ _ Hrun) as (_ & _ & Hok & _).
  specialize (Hok eq_refl).
  apply sync_history_sync_state in Hrun
    as [Hsame | (first & rest & -> & Htruthy & Hset)].
  - assert (oldest_of (ch_id channel) db' = oldest_of (ch_id channel) db)
      as Hold by (unfold oldest_of, get_sync_state; by rewrite Hsame).
    intros fuel' msgs' data. rewrite Hold. intros Hfetch' Hin Hseen.
    rewrite (get_channel_history_det _ _ _ _ _ _ _ _ Hfetch' Hfetch) in Hin.
    by apply Hok.
  - assert (oldest_of (ch_id channel) db' = msg_ts first) as Hold.
    { unfold oldest_of, get_sync_state. by rewrite Hset, lookup_insert_eq. }
    intros fuel' msgs' data. rewrite Hold. intros Hfetch' Hin Hseen.
    pose proof (nothing_newer _ _ _ _ _ _ _ _ Hfetch Htruthy Hfetch' Hin)
      as Hle.
    destruct (msg_ts first) as [t|] eqn:Hts; [|done].
    unfold already_seen in Hseen. rewrite Htruthy in Hseen.
    unfold reply_ts in Hle. rewrite Hts in Hle. simpl in Hle, Hseen.
    unfold String.le in Hle. apply Is_true_true in Hle. congruence.
Qed.

Lemma sync_channels_messages_grows fuel cs db db' res :
  sync_channels_messages fuel env cs db = Some (db', res) ->
  grows db db' ∧ channels db' = channels db.
Proof.
  revert db. induction cs as [|c cs IH]; intros db.
  - intros [= <- _]. split; [apply grows_refl | done].
  - cbn [sync_channels_messages].
    destruct (_sync_channel_messages fuel env c db)
      as [[db1 [[]|e]]|] eqn:Hstep; [| |done].
    + intros Hrest. destruct (_sync_channel_messages_grows _ _ _ _ _ Hstep).
      destruct (IH _ Hrest). split; [by eapply grows_trans | congruence].
    + intros [= <- _]. by eapply _sync_channel_messages_grows.
Qed.

Lemma sync_channels_messages_keeps_settled fuel cs db db' res c :
  sync_channels_messages fuel env cs db = Some (db', res) ->
  (c ∉ ch_id <$> cs) -> settled env c db -> settled env c db'.
Proof.
  revert db. induction cs as [|x cs IH]; intros db.
  - by intros [= <- _].
  - cbn [sync_channels_messages]. rewrite fmap_cons, not_elem_of_cons.
    destruct (_sync_channel_messages fuel env x db)
      as [[db1 [[]|e]]|] eqn:Hstep; [| |done].
    + intros Hrest [Hne Hout] Hsettled. eapply IH; [exact Hrest | done |].
      by eapply _sync_channel_messages_keeps_settled.
    + intros [= <- _] [Hne _] Hsettled.
      by eapply _sync_channel_messages_keeps_settled.
Qed.

(** After a successful cycle every channel it went through is settled. *)
Lemma sync_channels_messages_settles fuel cs db db' :
  sync_channels_messages fuel env cs db = Some (db', Ok tt) ->
  ∀ c, c ∈ ch_id <$> cs -> settled env c db'.
Proof.
  revert db. induction cs as [|x cs IH]; intros db.
  - intros _ c Hin. by apply elem_of_nil in Hin.
  - cbn [sync_channels_messages].
    destruct (_sync_channel_messages fuel env x db)
      as [[db1 [[]|e]]|] eqn:Hstep; [|done|done].
    intros Hrest c Hin. rewrite fmap_cons in Hin.
    destruct (decide (c ∈ ch_id <$> cs)) as [Hlater | Hlast].
    + by eapply IH.
    + apply elem_of_cons in Hin as [-> | Hin]; [|done].
      eapply sync_channels_messages_keeps_settled; [exact Hrest | done |].
      by eapply _sync_channel_messages_settles.
Qed.

(** A cycle over settled channels stores no new row. *)
Lemma sync_channels_messages_settled fuel cs db db' res :
  (∀ c, c ∈ ch_id <$> cs -> settled env c db) ->
  sync_channels_messages fuel env cs db = Some (db', res) ->
  same_keys db db'.
Proof.
  revert db. induction cs as [|x cs IH]; intros db Hall.
  - by intros [= <- _].
  - cbn [sync_channels_messages].
    destruct (_sync_channel_messages fuel env x db)
      as [[db1 [[]|e]]|] eqn:Hstep; [| |done].
    + intros Hrest.
      assert (same_keys db db1) as H1.
      { eapply _sync_channel_messages_settled; [exact Hstep|].
        apply Hall. rewrite fmap_cons. apply elem_of_cons. by left. }
      eapply same_keys_trans; [exact H1|]. apply IH; [|done].
      intros c Hin. destruct (decide (c = ch_id x)) as [-> | Hne].
      * by eapply _sync_channel_messages_settles.
      * eapply _sync_channel_messages_keeps_settled; [exact Hstep | done |].
        apply Hall. rewrite fmap_cons. apply elem_of_cons. by right.
    + intros [= <- _]. eapply _sync_channel_messages_settled; [exact Hstep|].
      apply Hall. rewrite fmap_cons. apply elem_of_cons. by left.
Qed.

(** Two cycles in a row. *)
Lemma second_cycle_same_keys fuel fuel' db0 db1 db2 res :
  _sync_all_messages fuel env db0 = Some (db1, Ok tt) ->
  _sync_all_messages fuel' env db1 = Some (db2, res) ->
  same_keys db1 db2
  ∧ (NoDup (stored_keys db0) -> NoDup (stored_keys db2)).
Proof.
  unfold _sync_all_messages. intros H1 H2.
  destruct (sync_channels_messages_grows _ _ _ _ _ H1) as [[_ Hnd1] Hc1].
  assert (get_all_channels db1 = get_all_channels db0) as Hcs
    by (unfold get_all_channels; by rewrite Hc1).
  rewrite Hcs in H2.
  assert (same_keys db1 db2) as Hsame.
  { eapply sync_channels_messages_settled; [|exact H2].
    by eapply sync_channels_messages_settles. }
  split; [done|]. intros Hnd. unfold same_keys in Hsame. rewrite Hsame. auto.
Qed.

End Unchanged.

(** A message at or below the cursor is skipped. *)
Lemma sync_message_skips channel o data db :
  truthy (Some o) = true -> String.le (reply_ts data) o ->
  sync_message env channel (Some o) data db = (db, Ok tt).
Proof.
  intros Ho Hle. unfold sync_message, already_seen. rewrite Ho.
  unfold String.le in Hle. apply Is_true_true in Hle.
  unfold reply_ts in Hle. simpl. by rewrite Hle.
Qed.

End Idempotence.

(** C4. Against an unchanged remote state (once a fetch has served the
    newest message of a channel, a fetch from its timestamp serves nothing
    newer), a sync cycle run after a successful one stores no new message
    row: the keys [(channel_id, ts)] of the stored rows, their order and
    their number are the same after the second cycle, and no key occurs
    twice. The two mechanisms behind it: a message whose timestamp is at or
    below the cursor is skipped, and an upsert under a stored key adds no
    row. *)
Theorem sync_idempotent (fuel fuel' : nat) (env : Env)
    (db0 db1 db2 : Database) (res : result unit) :
  (∀ channel oldest fuel1 first rest fuel2 msgs' m,
     get_channel_history fuel1 (web env) channel oldest 100
     = Some (first :: rest) ->
     truthy (msg_ts first) = true ->
     get_channel_history fuel2 (web env) channel (msg_ts first) 100
     = Some msgs' ->
     m ∈ msgs' -> String.le (reply_ts m) (reply_ts first)) ->
  NoDup (stored_keys db0) ->
  _sync_all_messages fuel env db0 = Some (db1, Ok tt) ->
  _sync_all_messages fuel' env db1 = Some (db2, res) ->
  stored_keys db2 = stored_keys db1
  ∧ length (messages db2) = length (messages db1)
  ∧ NoDup (stored_keys db2)
  ∧ (∀ channel o data db,
       truthy (Some o) = true -> String.le (reply_ts data) o ->
       sync_message env channel (Some o) data db = (db, Ok tt))
  ∧ (∀ m db db' r,
       (msg_key m ∈ stored_keys db) ->
       upsert_message env m db = (db', r) ->
       stored_keys db' = stored_keys db).
Proof.
  intros Hremote Hnd Hfirst Hsecond.
  destruct (second_cycle_same_keys env Hremote _ _ _ _ _ _ Hfirst Hsecond)
    as [Hsame Hnd2].
  split; [exact Hsame|]. split.
  - unfold same_keys, stored_keys in Hsame.
    apply (f_equal length) in Hsame. by rewrite !length_fmap in Hsame.
  - split; [by apply Hnd2|]. split.
    + intros channel o data db. apply sync_message_skips.
    + intros m db db' r. apply upsert_message_same_keys.
Qed.

(** The example workspace serves, in one page, the messages newer than the
    lower bound. *)
Lemma channel_web_history fuel remote channel oldest msgs :
  get_channel_history fuel (Examples.channel_web remote) channel oldest 100
  = Some msgs ->
  msgs = []
  ∨ msgs = List.filter
             (Examples.newer_than (if truthy oldest then oldest else None))
             remote.
Proof.
  unfold get_channel_history. destruct fuel as [|fuel]; [done|].
  cbn [history_loop conversations_history Examples.channel_web].
  destruct (String.eqb channel "C1").
  - cbn [page_messages page_next_cursor app truthy].
    destruct (100 <=? _); intros [= <-]; by right.
  - intros [= <-]. by left.
Qed.

Lemma two_messages_nothing_newer channel oldest fuel first rest fuel'
    msgs' m :
  get_channel_history fuel (web Examples.two_env) channel oldest 100
  = Some (first :: rest) ->
  truthy (msg_ts first) = true ->
  get_channel_history fuel' (web Examples.two_env) channel (msg_ts first) 100
  = Some msgs' ->
  m ∈ msgs' -> String.le (reply_ts m) (reply_ts first).
Proof.
  intros Hfetch Htruthy Hfetch' Hin.
  apply channel_web_history in Hfetch as [[=] | Hfetch].
  apply channel_web_history in Hfetch' as [-> | Hfetch'];
    [by apply elem_of_nil in Hin|].
  rewrite Htruthy in Hfetch'. revert Hfetch.
  set (kw := if truthy oldest then oldest else None).
  unfold Examples.two_messages. cbn [List.filter].
  destruct (Examples.newer_than kw (Examples.plain_msg "300" "U2" "second"))
    eqn:H300.
  - intros [= -> _]. subst msgs'. vm_compute in Hin. by apply elem_of_nil in Hin.
  - destruct (Examples.newer_than kw (Examples.plain_msg "100" "U9" "hello"))
      eqn:H100; [|done].
    intros _. exfalso. destruct kw as [o|]; [|done].
    simpl in H300, H100. apply negb_false_iff in H300.
    apply negb_true_iff in H100.
    assert (String.le "100" o) as Hle.
    { transitivity "300"; [done|]. unfold String.le. by rewrite H300. }
    unfold String.le in Hle. by rewrite H100 in Hle.
Qed.

Lemma sync_idempotent_witness :
  ∃ db1 db2 res,
    _sync_all_messages 1 Examples.two_env Examples.fresh_db
    = Some (db1, Ok tt)
    ∧ _sync_all_messages 1 Examples.two_env db1 = Some (db2, res)
    ∧ stored_keys db1 = [("C1", "100"); ("C1", "300")]
    ∧ stored_keys db2 = stored_keys db1
    ∧ length (messages db2) = length (messages db1)
    ∧ NoDup (stored_keys db2).
Proof.
  destruct (_sync_all_messages 1 Examples.two_env Examples.fresh_db)
    as [[db1 [[]|e]]|] eqn:Hfirst;
    [|vm_compute in Hfirst; discriminate..].
  destruct (_sync_all_messages 1 Examples.two_env db1)
    as [[db2 res]|] eqn:Hsecond.
  - exists db1, db2, res. split; [reflexivity|]. split; [exact Hsecond|].
    split; [vm_compute in Hfirst; by inversion Hfirst|].
    destruct (sync_idempotent 1 1 Examples.two_env Examples.fresh_db db1 db2
                res two_messages_nothing_newer NoDup_nil_2 Hfirst Hsecond)
      as (Hkeys & Hlen & Hnd & _).
    by split_and!.
  - exfalso. vm_compute in Hfirst. inversion Hfirst; subst.
    vm_compute in Hsecond. discriminate.
Defined.

(** ** Sorting *)

Section StableSort.
Context {A : Type} (before : A -> A -> bool).

Local Abbreviation R := (fun x y => before x y = true).

Lemma insert_sorted_perm x l : insert_sorted before x l ≡ₚ x :: l.
Proof.
  induction l as [|y l IH]; [done|]. cbn [insert_sorted].
  destruct (before x y); [done|]. rewrite IH. apply Permutation_swap.
Qed.

Lemma stable_sort_perm l : stable_sort before l ≡ₚ l.
Proof.
  induction l as [|x l IH]; [done|]. unfold stable_sort. cbn [foldr].
  fold (stable_sort before l). by rewrite insert_sorted_perm, IH.
Qed.

Lemma elem_of_stable_sort x l : x ∈ stable_sort before l <-> x ∈ l.
Proof. by rewrite stable_sort_perm. Qed.

Lemma length_stable_sort l : length (stable_sort before l) = length l.
Proof. by rewrite stable_sort_perm. Qed.

Hypothesis before_total : ∀ x y, before x y = true ∨ before y x = true.
Hypothesis before_trans :
  ∀ x y z, before x y = true -> before y z = true -> before x z = true.

Lemma insert_sorted_sorted x l :
  StronglySorted R l -> StronglySorted R (insert_sorted before x l).
Proof.
  induction l as [|y l IH]; intros Hl.
  - repeat constructor.
  - apply StronglySorted_cons in Hl as [Hy Hl]. cbn [insert_sorted].
    destruct (before x y) eqn:Hxy.
    + apply StronglySorted_cons. split.
      * apply Forall_cons. split; [done|].
        eapply Forall_impl; [exact Hy|]. intros z Hz. by eapply before_trans.
      * by apply StronglySorted_cons.
    + apply StronglySorted_cons. split; [|by apply IH].
      rewrite insert_sorted_perm. apply Forall_cons. split; [|done].
      destruct (before_total x y); congruence.
Qed.

Lemma stable_sort_sorted l : StronglySorted R (stable_sort before l).
Proof.
  induction l as [|x l IH]; [constructor|].
  unfold stable_sort. cbn [foldr]. by apply insert_sorted_sorted.
Qed.

End StableSort.

Lemma StronglySorted_lookup {A} (R : A -> A -> Prop) l i j x y :
  StronglySorted R l -> l !! i = Some x -> l !! j = Some y ->
  (i < j)%nat -> R x y.
Proof.
  intros Hl Hi Hj Hlt.
  rewrite <- (take_drop_middle l i x Hi) in Hl, Hj.
  apply StronglySorted_app in Hl as (_ & _ & Hl).
  apply StronglySorted_cons in Hl as [Hx _].
  rewrite Forall_forall in Hx. apply Hx.
  assert (length (take i l) = i) as Hlen.
  { apply length_take_le. apply lookup_lt_Some in Hi. lia. }
  rewrite lookup_app_r in Hj by lia. rewrite Hlen in Hj.
  destruct (j - i)%nat as [|k] eqn:Hk; [lia|]. simpl in Hj.
  by eapply list_elem_of_lookup_2.
Qed.

Lemma StronglySorted_sublist {A} (R : A -> A -> Prop) l1 l2 :
  l1 `sublist_of` l2 -> StronglySorted R l2 -> StronglySorted R l1.
Proof.
  induction 1 as [|x l1 l2 Hsub IH|x l1 l2 Hsub IH]; intros Hl2.
  - constructor.
  - apply StronglySorted_cons in Hl2 as [Hx Hl2].
    apply StronglySorted_cons. split; [|by apply IH].
    rewrite Forall_forall in *. intros y Hy. apply Hx.
    by eapply elem_of_sublist.
  - apply StronglySorted_cons in Hl2 as [_ Hl2]. by apply IH.
Qed.

(** ** The status report *)

Import StatusService.

Lemma pair_le_total a b : pair_le a b = true ∨ pair_le b a = true.
Proof.
  unfold pair_le.
  rewrite !orb_true_iff, !andb_true_iff, !Z.ltb_lt, !Z.eqb_eq, !Z.leb_le.
  lia.
Qed.

Lemma pair_le_trans a b c :
  pair_le a b = true -> pair_le b c = true -> pair_le a c = true.
Proof.
  unfold pair_le.
  rewrite !orb_true_iff, !andb_true_iff, !Z.ltb_lt, !Z.eqb_eq, !Z.leb_le.
  lia.
Qed.

Lemma pair_le_spec a b :
  pair_le a b = true <-> a.1 < b.1 ∨ (a.1 = b.1 ∧ a.2 <= b.2).
Proof.
  unfold pair_le.
  by rewrite !orb_true_iff, !andb_true_iff, !Z.ltb_lt, !Z.eqb_eq, !Z.leb_le.
Qed.

Lemma value_inj p q : value p = value q -> p = q.
Proof. by destruct p, q. Qed.

(** C8. The items of a status report are the mentions, direct messages
    and thread replies, reordered so that for any two positions [i] and [j]
    holding [x] and [y]: if [x] has the smaller priority value (the more
    urgent one) then [i < j], and if both have the same priority and [x]
    the later timestamp then [i < j]. *)
Theorem status_items_ordered (env : Env) (hours_back : Z) (db : Database)
    (st : Status) (i j : nat) (x y : StatusItem) :
  get_status env hours_back db = Ok st ->
  items st !! i = Some x ->
  items st !! j = Some y ->
  (∃ me, client_user_id env = Some me
         ∧ items st
           ≡ₚ _get_mentions me (now env - hours hours_back) db
              ++ _get_dms env (now env - hours hours_back) db
              ++ _get_thread_replies me (now env - hours hours_back) db)
  ∧ (value (priority x) < value (priority y) -> (i < j)%nat)
  ∧ (priority x = priority y ->
     ∀ tx ty, timestamp x = Some tx -> timestamp y = Some ty ->
              ty < tx -> (i < j)%nat).
Proof.
  unfold get_status. destruct (client_user_id env) as [me|] eqn:Hme; [|done].
  destruct (truthy (Some me)); [|done].
  intros [= <-]. cbn [items]. intros Hi Hj.
  set (gathered := _get_mentions me _ db ++ _get_dms env _ db
                   ++ _get_thread_replies me _ db) in *.
  pose proof (stable_sort_sorted
                (fun a b => pair_le (sort_key a) (sort_key b))
                (fun a b => pair_le_total (sort_key a) (sort_key b))
                (fun a b c => pair_le_trans (sort_key a) (sort_key b)
                                (sort_key c)) gathered) as Hsorted.
  split; [exists me; split; [done | apply stable_sort_perm]|].
  assert (∀ a b, (sort_key a).1 < (sort_key b).1
                 ∨ ((sort_key a).1 = (sort_key b).1
                    ∧ (sort_key a).2 < (sort_key b).2) ->
                 ∀ ia ib,
                   stable_sort (fun a b => pair_le (sort_key a) (sort_key b))
                     gathered !! ia = Some a ->
                   stable_sort (fun a b => pair_le (sort_key a) (sort_key b))
                     gathered !! ib = Some b ->
                   (ia < ib)%nat) as Hpos.
  { intros a b Hab ia ib Ha Hb.
    destruct (Nat.lt_trichotomy ia ib) as [Hlt | [-> | Hgt]]; [done| |].
    - rewrite Ha in Hb. injection Hb as ->. lia.
    - pose proof (StronglySorted_lookup _ _ _ _ _ _ Hsorted Hb Ha Hgt) as Hba.
      simpl in Hba. apply pair_le_spec in Hba. lia. }
  split.
  - intros Hprio. apply (Hpos x y); [|done..]. left. done.
  - intros Hprio tx ty Hx Hy Hlt. apply (Hpos x y); [|done..]. right.
    unfold sort_key. cbn [fst snd]. rewrite Hprio, Hx, Hy. simpl. lia.
Qed.

Lemma status_items_ordered_witness :
  ∃ st x y,
    get_status Examples.quiet_env 24 Examples.inbox_db = Ok st
    ∧ items st !! 0%nat = Some x ∧ items st !! 1%nat = Some y
    ∧ priority x = CRITICAL ∧ priority y = HIGH
    ∧ (value (priority x) < value (priority y) -> (0 < 1)%nat)
    ∧ (priority x = priority y ->
       ∀ tx ty, timestamp x = Some tx -> timestamp y = Some ty ->
                ty < tx -> (0 < 1)%nat).
Proof.
  destruct (get_status Examples.quiet_env 24 Examples.inbox_db)
    as [st|e] eqn:Hst; [|vm_compute in Hst; discriminate].
  destruct (items st !! 0%nat) as [x|] eqn:Hx;
    [|vm_compute in Hst; injection Hst as <-; vm_compute in Hx; discriminate].
  destruct (items st !! 1%nat) as [y|] eqn:Hy;
    [|vm_compute in Hst; injection Hst as <-; vm_compute in Hy; discriminate].
  exists st, x, y.
  destruct (status_items_ordered Examples.quiet_env 24 Examples.inbox_db st
              0 1 x y Hst Hx Hy) as (_ & Hprio & Htime).
  split_and!; try done.
  - vm_compute in Hst. injection Hst as <-. vm_compute in Hx.
    by injection Hx as <-.
  - vm_compute in Hst. injection Hst as <-. vm_compute in Hy.
    by injection Hy as <-.
Defined.

(** *** The direct-message tier *)

Lemma elem_of_List_filter {A} (f : A -> bool) (l : list A) x :
  x ∈ List.filter f l <-> x ∈ l ∧ f x = true.
Proof. by rewrite !list_elem_of_In, filter_In. Qed.

Lemma elem_of_take_elem {A} (n : nat) (l : list A) x : x ∈ take n l -> x ∈ l.
Proof. intros Hin. eapply elem_of_sublist; [exact Hin | apply sublist_take]. Qed.

Lemma thread_items_priority db seen rows item :
  item ∈ thread_items db seen rows -> priority item = MEDIUM.
Proof.
  revert seen. induction rows as [|[r name] rows IH]; intros seen.
  - intros Hin. by apply elem_of_nil in Hin.
  - cbn [thread_items]. destruct (decide (thread_key r ∈ seen)); [apply IH|].
    intros Hin. apply elem_of_cons in Hin as [-> | Hin]; [done|].
    by eapply IH.
Qed.

Lemma dm_candidate_spec since db r :
  dm_candidate since db r = true
  <-> (∃ c, channels db !! row_channel_id r = Some c ∧ channel_type c = "im")
      ∧ (∃ t, row_created_at r = Some t ∧ since < t).
Proof.
  unfold dm_candidate, in_im_channel, created_after.
  rewrite andb_true_iff. split.
  - intros [Him Hafter].
    destruct (channels db !! row_channel_id r) as [c|]; [|done].
    destruct (row_created_at r) as [t|]; [|done].
    apply String.eqb_eq in Him. apply Z.ltb_lt in Hafter. split; by eexists.
  - intros [(c & -> & Hc) (t & -> & Ht)]. split.
    + by apply String.eqb_eq.
    + by apply Z.ltb_lt.
Qed.

Lemma _get_dms_elem env since db item :
  item ∈ _get_dms env since db
  <-> ∃ r, r ∈ take 50 (newest_first
                          (List.filter (dm_candidate since db) (messages db)))
           ∧ row_user_id r ≠ client_user_id env
           ∧ item = message_item HIGH "Direct message" db (_row_to_message r).
Proof.
  unfold _get_dms, get_dm_messages. rewrite list_elem_of_fmap. split.
  - intros (m & -> & Hm). apply elem_of_List_filter in Hm as [Hm Hother].
    apply list_elem_of_fmap in Hm as (r & -> & Hr).
    exists r. split; [exact Hr|]. split; [|done].
    apply negb_true_iff, bool_decide_eq_false in Hother. exact Hother.
  - intros (r & Hr & Hother & ->). exists (_row_to_message r). split; [done|].
    apply elem_of_List_filter. split.
    + apply list_elem_of_fmap. by exists r.
    + by apply negb_true_iff, bool_decide_eq_false.
Qed.

(** C7, as the code has it. Every item of the direct-message tier is a
    message of a direct ([im]) channel, created within the window, whose
    author is not the current identity, with priority HIGH; group
    direct-message ([mpim]) channels are not queried. The query keeps the 50
    most recent rows before the author filter: when at most 50 messages of
    direct channels fall within the window, every one of them whose author
    is not the current identity is in the tier. In a status report the
    items of priority HIGH are exactly this tier. *)
Theorem direct_message_tier (env : Env) (db : Database) :
  (∀ since item,
     item ∈ _get_dms env since db ->
     priority item = HIGH
     ∧ ∃ r, r ∈ messages db
            ∧ item = message_item HIGH "Direct message" db (_row_to_message r)
            ∧ (∃ c, channels db !! row_channel_id r = Some c
                    ∧ channel_type c = "im")
            ∧ (∃ t, row_created_at r = Some t ∧ since < t)
            ∧ row_user_id r ≠ client_user_id env)
  ∧ (∀ since,
       (length (List.filter (dm_candidate since db) (messages db)) <= 50)%nat ->
       ∀ r c t,
         r ∈ messages db ->
         channels db !! row_channel_id r = Some c -> channel_type c = "im" ->
         row_created_at r = Some t -> since < t ->
         row_user_id r ≠ client_user_id env ->
         message_item HIGH "Direct message" db (_row_to_message r)
         ∈ _get_dms env since db)
  ∧ (∀ hours_back st item,
       get_status env hours_back db = Ok st ->
       (item ∈ items st ∧ priority item = HIGH)
       <-> item ∈ _get_dms env (now env - hours hours_back) db).
Proof.
  split; [|split].
  - intros since item Hin. apply _get_dms_elem in Hin as (r & Hr & Hother & ->).
    split; [done|]. exists r.
    apply elem_of_take_elem in Hr. unfold newest_first in Hr.
    apply elem_of_stable_sort in Hr. apply elem_of_List_filter in Hr as [Hr Hc].
    apply dm_candidate_spec in Hc as [Him Hafter]. by split_and!.
  - intros since Hfew r c t Hr Hc Him Ht Hafter Hother.
    apply _get_dms_elem. exists r. split; [|by split].
    rewrite take_ge.
    + unfold newest_first. apply elem_of_stable_sort, elem_of_List_filter.
      split; [done|]. apply dm_candidate_spec. split; by eexists.
    + unfold newest_first. by rewrite length_stable_sort.
  - intros hours_back st item. unfold get_status.
    destruct (client_user_id env) as [me|] eqn:Hme; [|done].
    destruct (truthy (Some me)); [|done].
    intros [= <-]. cbn [items]. rewrite elem_of_stable_sort, !elem_of_app.
    split.
    + intros [[Hm | [Hd | Ht]] Hhigh]; [|done|].
      * unfold _get_mentions in Hm.
        apply list_elem_of_fmap in Hm as (m & -> & _). done.
      * apply thread_items_priority in Ht. congruence.
    + intros Hd. split; [by right; left|].
      apply _get_dms_elem in Hd as (r & _ & _ & ->). done.
Qed.

(** C7 fails for group direct messages: the message [G1/300] lives in an
    [mpim] channel, was written by [U2] within the window, and the tier
    holds the direct message of [D1] only. *)
Lemma group_dm_not_in_dm_tier :
  channel_type <$> channels Examples.inbox_db !! "G1" = Some "mpim"
  ∧ messages Examples.inbox_db !! 2%nat
    = Some (Examples.stored 3 "G1" "300" "U2" "group hello" 300000000)
  ∧ created_after (Some (now Examples.quiet_env - hours 24))
      (Some 300000000) = true
  ∧ bool_decide (Some "U2" = client_user_id Examples.quiet_env) = false
  ∧ (fun item => (si_channel_id item, message_ts item))
      <$> _get_dms Examples.quiet_env (now Examples.quiet_env - hours 24)
            Examples.inbox_db
    = [("D1", "200")]
  ∧ (fun item => (priority item, si_channel_id item))
      <$> (match get_status Examples.quiet_env 24 Examples.inbox_db with
           | Ok st => items st
           | Raise _ => []
           end)
    = [(CRITICAL, "C1"); (HIGH, "D1")].
Proof. split_and!; vm_compute; reflexivity. Qed.

(** ** Search *)

Import SearchService.

Lemma prefix_ci_length q s :
  prefix_ci q s = true -> (String.length q <= String.length s)%nat.
Proof.
  revert s. induction q as [|a q IH]; intros s; [simpl; lia|].
  destruct s as [|b s]; [done|]. cbn [prefix_ci String.length].
  intros H. apply andb_true_iff in H as [_ H]. apply IH in H. lia.
Qed.

(** A match lies within the text. *)
Lemma re_search_bound q s p :
  re_search q s = Some p ->
  (p + String.length q <= String.length s)%nat.
Proof.
  revert p. induction s as [|c s IH]; intros p; cbn [re_search].
  - destruct (prefix_ci q "") eqn:Hpre; [|done].
    intros [= <-]. apply prefix_ci_length in Hpre. simpl in *. lia.
  - destruct (prefix_ci q (String c s)) eqn:Hpre.
    + intros [= <-]. apply prefix_ci_length in Hpre. simpl in *. lia.
    + destruct (re_search q s) as [p'|]; [|done].
      intros [= <-]. specialize (IH p' eq_refl). simpl. lia.
Qed.

Lemma re_search_start q s p :
  re_search q s = Some p -> s ≠ "" -> (p < String.length s)%nat.
Proof.
  intros Hs Hne. pose proof (re_search_bound _ _ _ Hs) as Hb.
  destruct q as [|a q].
  - destruct s as [|c s]; [done|]. cbn [re_search prefix_ci] in Hs.
    injection Hs as <-. simpl. lia.
  - simpl in Hb. lia.
Qed.

(** The position of a match as a fraction of the text. *)
Lemma match_fraction (p len : nat) :
  (p < len)%nat ->
  (0 <= inject_Z (Z.of_nat p) / inject_Z (Z.of_nat len))%Q
  ∧ (inject_Z (Z.of_nat p) / inject_Z (Z.of_nat len) < 1)%Q.
Proof.
  intros Hlt.
  assert (0 < inject_Z (Z.of_nat len))%Q as Hlen.
  { change 0%Q with (inject_Z 0). rewrite <- Zlt_Qlt. lia. }
  split.
  - apply Qle_shift_div_l; [done|]. rewrite Qmult_0_l.
    change 0%Q with (inject_Z 0). rewrite <- Zle_Qle. lia.
  - apply Qlt_shift_div_r; [done|]. rewrite Qmult_1_l.
    rewrite <- Zlt_Qlt. lia.
Qed.

Lemma text_score_match query t p :
  re_search query t = Some p -> t ≠ "" ->
  text_score query t
  = (1 - inject_Z (Z.of_nat p) / inject_Z (Z.of_nat (String.length t)))%Q.
Proof.
  intros Hs Hne. unfold text_score. rewrite Hs.
  apply String.eqb_neq in Hne. by rewrite Hne.
Qed.

(** C6, as the code has it. For a stored message with non-empty text in
    which the query matches at position [p], the text source gives the
    result the score [1 - p / len]: it is [1] for a match at position [0],
    it decreases as the position grows, and it stays above [0], which it
    approaches as the match nears the end of the text (not [0.5]). The
    score [0.5] is what a result gets when the pattern search finds no match
    or the text is empty. A match at position [8] of a text of length [23]
    scores [15/23], about [0.652]. *)
Theorem text_search_score :
  (∀ query limit db results r t p,
     _text_search query limit db = Ok results ->
     r ∈ results ->
     text (message r) = Some t -> t ≠ "" ->
     re_search query t = Some p ->
     score r
     = (1 - inject_Z (Z.of_nat p) / inject_Z (Z.of_nat (String.length t)))%Q
     ∧ (p < String.length t)%nat
     ∧ (0 < score r)%Q ∧ (score r <= 1)%Q
     ∧ (p = 0%nat -> (score r == 1)%Q))
  ∧ (∀ (len p1 p2 : nat),
       (p1 < p2)%nat -> (0 < len)%nat ->
       (1 - inject_Z (Z.of_nat p2) / inject_Z (Z.of_nat len)
        < 1 - inject_Z (Z.of_nat p1) / inject_Z (Z.of_nat len))%Q)
  ∧ (∀ query t,
       re_search query t = None ∨ t = "" -> text_score query t = (1 # 2)%Q)
  ∧ (∀ query t,
       String.length t = 23%nat -> re_search query t = Some 8%nat ->
       (text_score query t == 15 # 23)%Q)
  ∧ (re_search "deploy" "we will deploy tonight!" = Some 8%nat
     ∧ String.length "we will deploy tonight!" = 23%nat
     ∧ (652 # 1000 < 15 # 23)%Q ∧ (15 # 23 < 653 # 1000)%Q).
Proof.
  split_and!.
  - intros query limit db results r t p Hrun Hin Ht Hne Hs.
    unfold _text_search in Hrun.
    destruct ((limit <? - 2 ^ 63) || (2 ^ 63 <=? limit)); [done|].
    destruct (limit <? 0); [done|].
    injection Hrun as <-. apply list_elem_of_fmap in Hin as (row & -> & _).
    unfold text_result in *. cbn [score message] in *.
    rewrite Ht. unfold get_or. simpl default.
    rewrite (text_score_match _ _ _ Hs Hne).
    pose proof (re_search_start _ _ _ Hs Hne) as Hlt.
    destruct (match_fraction _ _ Hlt) as [H0 H1].
    split_and!; [done | done | lra | lra |].
    intros ->. simpl. unfold Qdiv. rewrite Qmult_0_l. lra.
  - intros len p1 p2 Hlt Hlen.
    assert (0 < inject_Z (Z.of_nat len))%Q as Hpos.
    { change 0%Q with (inject_Z 0). rewrite <- Zlt_Qlt. lia. }
    assert (inject_Z (Z.of_nat p1) / inject_Z (Z.of_nat len)
            < inject_Z (Z.of_nat p2) / inject_Z (Z.of_nat len))%Q as Hdiv.
    { unfold Qdiv. apply Qmult_lt_compat_r.
      - by apply Qinv_lt_0_compat.
      - rewrite <- Zlt_Qlt. lia. }
    lra.
  - intros query t [Hnone | ->]; unfold text_score.
    + by rewrite Hnone.
    + by destruct (re_search query "").
  - intros query t Hlen Hs.
    assert (t ≠ "") as Hne by (intros ->; simpl in Hlen; lia).
    rewrite (text_score_match _ _ _ Hs Hne), Hlen. reflexivity.
  - reflexivity.
  - reflexivity.
  - reflexivity.
  - reflexivity.
Qed.

(** C6 fails near the end of a text: the query [b] matches the stored text
    [aaaaaaaaab] at position [9] of [10], and the result scores [1/10],
    below [0.5]. *)
Lemma late_match_scores_below_half :
  re_search "b" "aaaaaaaaab" = Some 9%nat
  ∧ String.length "aaaaaaaaab" = 10%nat
  ∧ score <$> (match _text_search "b" 10 Examples.late_match_db with
               | Ok results => results
               | Raise _ => []
               end) = [(1 # 10)%Q]
  ∧ Qle_bool (1 # 2) (1 # 10) = false.
Proof. split_and!; vm_compute; reflexivity. Qed.

(** *** Combining the sources *)

Lemma score_order_total (a b : SearchResult) :
  Qle_bool (score b) (score a) = true ∨ Qle_bool (score a) (score b) = true.
Proof.
  rewrite !Qle_bool_iff.
  destruct (Qlt_le_dec (score a) (score b)) as [Hlt | Hle]; [|by left].
  right. by apply Qlt_le_weak.
Qed.

Lemma score_order_trans (a b c : SearchResult) :
  Qle_bool (score b) (score a) = true -> Qle_bool (score c) (score b) = true ->
  Qle_bool (score c) (score a) = true.
Proof. rewrite !Qle_bool_iff. intros H1 H2. by eapply Qle_trans. Qed.

Lemma by_score_desc_sorted results :
  StronglySorted scores_at_least (by_score_desc results).
Proof.
  unfold by_score_desc.
  pose proof (stable_sort_sorted
                (fun a b => Qle_bool (score b) (score a))
                score_order_total score_order_trans results) as Hsorted.
  induction Hsorted as [|a l Hl IH Ha]; constructor; [done|].
  eapply Forall_impl; [exact Ha|]. intros b Hb. by apply Qle_bool_iff.
Qed.

Lemma unique_by_key_sublist seen results :
  unique_by_key seen results `sublist_of` results.
Proof.
  revert seen. induction results as [|r results IH]; intros seen; [done|].
  cbn [unique_by_key]. destruct (decide (result_key r ∈ seen)).
  - by apply sublist_cons.
  - by apply sublist_skip.
Qed.

Lemma unique_by_key_fresh seen results r :
  r ∈ unique_by_key seen results -> result_key r ∉ seen.
Proof.
  revert seen. induction results as [|x results IH]; intros seen.
  - intros Hin. by apply elem_of_nil in Hin.
  - cbn [unique_by_key]. destruct (decide (result_key x ∈ seen)); [apply IH|].
    intros Hin. apply elem_of_cons in Hin as [-> | Hin]; [done|].
    apply IH in Hin. intros Hseen. apply Hin, elem_of_union. by right.
Qed.

Lemma unique_by_key_NoDup seen results :
  NoDup (result_key <$> unique_by_key seen results).
Proof.
  revert seen. induction results as [|x results IH]; intros seen.
  - constructor.
  - cbn [unique_by_key]. destruct (decide (result_key x ∈ seen)); [apply IH|].
    rewrite fmap_cons. apply NoDup_cons. split; [|apply IH].
    intros Hin. apply list_elem_of_fmap in Hin as (r & Hkey & Hr).
    apply unique_by_key_fresh in Hr. apply Hr, elem_of_union. left.
    rewrite Hkey. by apply elem_of_singleton.
Qed.

(** Every result is represented, under its key, by a kept result that
    scores at least as high. *)
Lemma unique_by_key_first seen results g :
  StronglySorted scores_at_least results ->
  g ∈ results -> result_key g ∉ seen ->
  ∃ r, r ∈ unique_by_key seen results
       ∧ result_key r = result_key g ∧ (score g <= score r)%Q.
Proof.
  revert seen. induction results as [|x results IH]; intros seen Hsorted Hin Hg.
  - by apply elem_of_nil in Hin.
  - apply StronglySorted_cons in Hsorted as [Hx Hsorted].
    cbn [unique_by_key]. destruct (decide (result_key x ∈ seen)) as [Hseen | Hnew].
    + apply elem_of_cons in Hin as [-> | Hin]; [done|]. by apply IH.
    + destruct (decide (result_key g = result_key x)) as [Hsame | Hother].
      * exists x. split; [apply elem_of_cons; by left|]. split; [done|].
        apply elem_of_cons in Hin as [-> | Hin]; [apply Qle_refl|].
        rewrite Forall_forall in Hx. by apply Hx.
      * apply elem_of_cons in Hin as [-> | Hin]; [done|].
        destruct (IH ({[result_key x]} ∪ seen) Hsorted Hin) as (r & Hr & Hk & Hs).
        { intros Hu. apply elem_of_union in Hu as [Hu | Hu]; [|done].
          by apply elem_of_singleton in Hu. }
        exists r. split; [apply elem_of_cons; by right | done].
Qed.

Lemma pair_key_NoDup results :
  NoDup (result_key <$> results) -> NoDup (pair_key <$> results).
Proof.
  intros Hnd.
  assert (result_key <$> results
          = (fun k => k.1 +:+ ":" +:+ k.2) <$> (pair_key <$> results)) as Heq.
  { by rewrite <- list_fmap_compose. }
  rewrite Heq in Hnd. by apply NoDup_fmap_1 in Hnd.
Qed.

(** For channel ids without a colon the search key determines the pair. *)
Lemma key_string_inj c1 t1 c2 t2 :
  has_colon c1 = false -> has_colon c2 = false ->
  c1 +:+ ":" +:+ t1 = c2 +:+ ":" +:+ t2 -> c1 = c2 ∧ t1 = t2.
Proof.
  revert c2. induction c1 as [|a c1 IH]; intros [|b c2]; simpl.
  - intros _ _ [= Heq]. split; [done | exact Heq].
  - intros _ Hb [= Hc _]. rewrite <- Hc in Hb. by rewrite Ascii.eqb_refl in Hb.
  - intros Ha _ [= Hc _]. rewrite Hc in Ha. by rewrite Ascii.eqb_refl in Ha.
  - intros Ha Hb [= <- Heq].
    apply orb_false_iff in Ha as [_ Ha]. apply orb_false_iff in Hb as [_ Hb].
    destruct (IH c2 Ha Hb Heq) as [-> ->]. done.
Qed.

Lemma result_key_pair_key (r g : SearchResult) :
  has_colon (channel_id (message r)) = false ->
  has_colon (channel_id (message g)) = false ->
  result_key r = result_key g -> pair_key r = pair_key g.
Proof.
  intros Hr Hg Hkey. unfold pair_key.
  destruct (key_string_inj _ _ _ _ Hr Hg Hkey) as [-> ->]. done.
Qed.

(** C5. For a non-negative [limit], whatever sources are enabled, the
    results of [search] are the first [limit] entries of the list obtained
    by gathering the results of the enabled sources, sorting them by
    descending score (a reordering of the gathered results) and keeping,
    for each key [channel_id:ts], the first entry under it, so that every
    gathered result is represented by a kept one that scores at least as
    high; when no channel id holds a colon, the kept one has the same
    [(channel_id, ts)]. The returned list is sorted by descending score,
    holds no two entries with the same [(channel_id, ts)], and has at most
    [limit] entries. *)
Theorem search_combines_sources (env : Env) (query : string) (limit : Z)
    (use_vector use_text use_slack_api : bool) (db : Database)
    (results : list SearchResult) :
  0 <= limit ->
  search env query limit use_vector use_text use_slack_api db = Ok results ->
  ∃ text_results api_results,
    (if use_text then _text_search query limit db else Ok [])
    = Ok text_results
    ∧ (if use_slack_api then _slack_api_search env query limit else Ok [])
      = Ok api_results
    ∧ let gathered :=
        (if use_vector && embedding_service env
         then _vector_search env query limit else [])
        ++ text_results ++ api_results in
      let ranked := unique_by_key ∅ (by_score_desc gathered) in
      results = take (Z.to_nat limit) ranked
      ∧ by_score_desc gathered ≡ₚ gathered
      ∧ StronglySorted scores_at_least (by_score_desc gathered)
      ∧ ranked `sublist_of` by_score_desc gathered
      ∧ NoDup (result_key <$> ranked)
      ∧ (∀ g, g ∈ gathered ->
              ∃ r, r ∈ ranked ∧ result_key r = result_key g
                   ∧ (score g <= score r)%Q)
      ∧ ((∀ g, g ∈ gathered -> has_colon (channel_id (message g)) = false) ->
         ∀ g, g ∈ gathered ->
              ∃ r, r ∈ ranked ∧ pair_key r = pair_key g
                   ∧ (score g <= score r)%Q)
      ∧ StronglySorted scores_at_least results
      ∧ NoDup (pair_key <$> results)
      ∧ Z.of_nat (length results) <= limit.
Proof.
  intros Hlimit. unfold search.
  destruct (if use_text then _text_search query limit db else Ok [])
    as [text_results|e]; [|done].
  destruct (if use_slack_api then _slack_api_search env query limit else Ok [])
    as [api_results|e]; [|done].
  intros [= <-]. exists text_results, api_results.
  split; [done|]. split; [done|].
  set (gathered := _ ++ text_results ++ api_results). cbn zeta.
  unfold combine, slice_to.
  assert ((0 <=? limit) = true) as -> by (by apply Z.leb_le).
  pose proof (by_score_desc_sorted gathered) as Hsorted.
  pose proof (unique_by_key_sublist ∅ (by_score_desc gathered)) as Hsub.
  pose proof (unique_by_key_NoDup ∅ (by_score_desc gathered)) as Hnd.
  split_and!.
  - done.
  - apply stable_sort_perm.
  - done.
  - done.
  - done.
  - intros g Hg. apply unique_by_key_first; [done| |set_solver].
    unfold by_score_desc. by apply elem_of_stable_sort.
  - intros Hids g Hg.
    destruct (unique_by_key_first ∅ (by_score_desc gathered) g Hsorted)
      as (r & Hr & Hkey & Hscore); [|set_solver|].
    { unfold by_score_desc. by apply elem_of_stable_sort. }
    exists r. split; [done|]. split; [|done].
    apply result_key_pair_key; [|by apply Hids|done].
    apply Hids. eapply elem_of_stable_sort.
    eapply elem_of_sublist; [exact Hr | exact Hsub].
  - eapply StronglySorted_sublist; [apply sublist_take|].
    by eapply StronglySorted_sublist.
  - apply pair_key_NoDup. rewrite fmap_take.
    eapply sublist_NoDup; [exact Hnd | apply sublist_take].
  - rewrite length_take. lia.
Qed.

Lemma search_combines_sources_witness :
  ∃ results,
    search Examples.search_env "deploy" 10 false true true Examples.search_db
    = Ok results
    ∧ pair_key <$> results = [("C1", "200"); ("C1", "100"); ("C2", "300")]
    ∧ match_type <$> results = ["text"; "text"; "slack_api"]
    ∧ StronglySorted scores_at_least results
    ∧ NoDup (pair_key <$> results)
    ∧ Z.of_nat (length results) <= 10.
Proof.
  destruct (search Examples.search_env "deploy" 10 false true true
              Examples.search_db) as [results|e] eqn:Hrun;
    [|vm_compute in Hrun; discriminate].
  exists results.
  destruct (search_combines_sources Examples.search_env "deploy" 10 false
              true true Examples.search_db results)
    as (text_results & api_results & _ & _ & _ & _ & _ & _ & _ & _ & _
        & Hsorted & Hnd & Hlen); [lia | exact Hrun |].
  split; [reflexivity|]. split_and!; try done.
  - vm_compute in Hrun. by injection Hrun as <-.
  - vm_compute in Hrun. by injection Hrun as <-.
Defined.

(** * Further properties *)

(** ** Strings *)

Lemma append_String x a b : String x a +:+ b = String x (a +:+ b).
Proof. reflexivity. Qed.

Lemma str_startswith_app p s : str_startswith (p +:+ s) p = true.
Proof.
  unfold str_startswith. induction p as [|x p IH]; [by destruct s|].
  rewrite append_String. simpl. destruct (ascii_dec x x); done.
Qed.

Lemma lacks_app c a b : lacks c (a +:+ b) = lacks c a && lacks c b.
Proof.
  induction a as [|x a IH]; [done|]. rewrite append_String. simpl.
  by rewrite IH, andb_assoc.
Qed.

Lemma remove_dots_app a b :
  remove_dots (a +:+ b) = remove_dots a +:+ remove_dots b.
Proof.
  induction a as [|x a IH]; [done|]. rewrite append_String. simpl.
  destruct (Ascii.eqb x "."); rewrite ?append_String; by rewrite IH.
Qed.

Lemma remove_dots_lacks a : lacks "." a = true -> remove_dots a = a.
Proof.
  induction a as [|x a IH]; [done|]. simpl.
  intros [Hx Ha]%andb_true_iff. apply negb_true_iff in Hx. rewrite Hx.
  by rewrite IH.
Qed.

Lemma str_rstrip_lacks c s : lacks c s = true -> str_rstrip c s = s.
Proof.
  induction s as [|x s IH]; [done|]. simpl.
  intros [Hx Hs]%andb_true_iff. apply negb_true_iff in Hx.
  rewrite (IH Hs), Hx. by destruct s.
Qed.

Lemma str_rstrip_app c s1 s2 :
  str_rstrip c s2 ≠ "" -> str_rstrip c (s1 +:+ s2) = s1 +:+ str_rstrip c s2.
Proof.
  intros Hne. induction s1 as [|x s1 IH]; [done|].
  rewrite !append_String. simpl. rewrite IH.
  destruct (s1 +:+ str_rstrip c s2) eqn:Heq; [|done].
  destruct s1; [done | discriminate].
Qed.

Lemma str_split_lacks sep s : lacks sep s = true -> str_split sep s = [s].
Proof.
  induction s as [|x s IH]; [done|]. simpl.
  intros [Hx Hs]%andb_true_iff. apply negb_true_iff in Hx.
  by rewrite Hx, (IH Hs).
Qed.

Lemma str_split_app sep a b :
  lacks sep a = true ->
  str_split sep (a +:+ String sep b) = a :: str_split sep b.
Proof.
  induction a as [|x a IH].
  - intros _. change ("" +:+ String sep b) with (String sep b). simpl.
    by rewrite Ascii.eqb_refl.
  - rewrite append_String. simpl.
    intros [Hx Ha]%andb_true_iff. apply negb_true_iff in Hx.
    by rewrite Hx, (IH Ha).
Qed.

Lemma list_ascii_of_string_app a b :
  String.list_ascii_of_string (a +:+ b)
  = String.list_ascii_of_string a ++ String.list_ascii_of_string b.
Proof.
  induction a as [|x a IH]; [done|]. rewrite append_String. simpl.
  by rewrite IH.
Qed.

Lemma length_list_ascii_of_string s :
  length (String.list_ascii_of_string s) = String.length s.
Proof. induction s as [|x s IH]; [done|]. cbn. by rewrite IH. Qed.

Lemma str_to_app a b :
  b ≠ "" -> str_to (- Z.of_nat (String.length b)) (a +:+ b) = a.
Proof.
  intros Hb. unfold str_to, slice_to. rewrite list_ascii_of_string_app, length_app.
  rewrite !length_list_ascii_of_string.
  destruct (0 <=? - Z.of_nat (String.length b)) eqn:Hz.
  - apply Z.leb_le in Hz. destruct b; [done | cbn in Hz; lia].
  - rewrite take_app_length'.
    + apply String.string_of_list_ascii_of_string.
    + rewrite length_list_ascii_of_string. lia.
Qed.

Lemma str_from_app a b :
  b ≠ "" -> str_from (- Z.of_nat (String.length b)) (a +:+ b) = b.
Proof.
  intros Hb. unfold str_from, slice_from.
  rewrite list_ascii_of_string_app, length_app.
  rewrite !length_list_ascii_of_string.
  destruct (0 <=? - Z.of_nat (String.length b)) eqn:Hz.
  - apply Z.leb_le in Hz. destruct b; [done | cbn in Hz; lia].
  - rewrite drop_app_length'.
    + apply String.string_of_list_ascii_of_string.
    + rewrite length_list_ascii_of_string. lia.
Qed.

Lemma length_append a b :
  String.length (a +:+ b) = (String.length a + String.length b)%nat.
Proof.
  induction a as [|x a IH]; [done|]. rewrite append_String. simpl.
  by rewrite IH.
Qed.

Lemma length_string_of_list_ascii l :
  String.length (String.string_of_list_ascii l) = length l.
Proof. induction l as [|x l IH]; [done|]. simpl. by rewrite IH. Qed.

Lemma string_of_list_ascii_app l1 l2 :
  String.string_of_list_ascii (l1 ++ l2)
  = String.string_of_list_ascii l1 +:+ String.string_of_list_ascii l2.
Proof.
  induction l1 as [|x l1 IH]; [done|]. simpl. rewrite append_String.
  by rewrite IH.
Qed.

(** ** The repository *)

Lemma find_unique {A B} `{EqDecision B} (f : A -> B) (p : A -> bool) (l : list A) x :
  NoDup (f <$> l) -> x ∈ l -> (∀ y, y ∈ l -> p y = true -> f y = f x) -> p x = true ->
  find p l = Some x.
Proof.
  intros Hnd Hx Hp Hpx.
  destruct (find p l) as [y|] eqn:Hfind.
  - apply find_some in Hfind as [Hy Hpy]. apply list_elem_of_In in Hy.
    f_equal. eapply NoDup_fmap_eq; eauto.
  - eapply find_none in Hfind; [|apply list_elem_of_In; exact Hx]. congruence.
Qed.

Section MessageLookup.
Context (env : Env).

Lemma update_on_conflict_find m rows i rows' :
  update_on_conflict env m rows = Some (i, rows') ->
  (∃ old, find (has_key (channel_id m) (ts m)) rows = Some old
          ∧ find (has_key (channel_id m) (ts m)) rows'
            = Some (conflict_update env m old)
          ∧ i = row_id old)
  ∧ (∀ channel t, (channel, t) ≠ (channel_id m, ts m) ->
       find (has_key channel t) rows' = find (has_key channel t) rows).
Proof.
  revert i rows'. induction rows as [|r rows IH]; intros i rows'; [done|].
  cbn [update_on_conflict].
  destruct (has_key (channel_id m) (ts m) r) eqn:Hk.
  - intros [= <- <-]. split.
    + exists r. cbn [find]. rewrite Hk.
      assert (has_key (channel_id m) (ts m) (conflict_update env m r) = true)
        as ->; [|done].
      apply has_key_true. rewrite conflict_update_key. by apply has_key_true.
    + intros channel t Hne. cbn [find].
      replace (has_key channel t (conflict_update env m r))
        with (has_key channel t r) by done.
      destruct (has_key channel t r) eqn:Hk'; [|done].
      apply has_key_true in Hk, Hk'. congruence.
  - destruct (update_on_conflict env m rows) as [[j rest]|] eqn:Hrec; [|done].
    intros [= <- <-]. destruct (IH _ _ eq_refl) as [(old & H1 & H2 & H3) IH2].
    split.
    + exists old. cbn [find]. by rewrite Hk.
    + intros channel t Hne. cbn [find]. by rewrite IH2.
Qed.

Lemma update_on_conflict_none m rows :
  update_on_conflict env m rows = None ->
  find (has_key (channel_id m) (ts m)) rows = None.
Proof.
  induction rows as [|r rows IH]; [done|]. cbn [update_on_conflict find].
  destruct (has_key (channel_id m) (ts m) r); [done|].
  destruct (update_on_conflict env m rows) as [[j rest]|]; [done|]. auto.
Qed.

Lemma find_app {A} (p : A -> bool) l1 l2 :
  find p (l1 ++ l2) = match find p l1 with Some x => Some x | None => find p l2 end.
Proof. induction l1 as [|x l1 IH]; [done|]. simpl. by destruct (p x). Qed.

End MessageLookup.

(** X1. Round trip of a message through the repository. After
    [upsert_message] has stored [m] and returned the id [i], [get_message]
    under the key of [m] returns a message with id [i] that carries the
    [user_id], [text], [thread_ts], [reply_count], [is_edited] and
    [metadata] of [m] and the time of the write as [updated_at]. If a row
    was stored under the key before, its id is [i] and its [created_at] and
    [message_type] are kept; otherwise [i] is the next id of the sequence
    and both come from [m]. Under the constraints of the table,
    [get_message_by_id i] returns the same message. A lookup under any other
    key returns what it returned before. *)
Theorem upsert_message_get_message (env : Env) (m : Message)
    (db db' : Database) (i : Z) :
  upsert_message env m db = (db', Ok i) ->
  (∃ stored,
     get_message (channel_id m) (ts m) db' = Some stored
     ∧ id stored = Some i
     ∧ (channel_id stored = channel_id m ∧ ts stored = ts m
        ∧ user_id stored = user_id m ∧ text stored = text m
        ∧ thread_ts stored = thread_ts m
        ∧ reply_count stored = reply_count m
        ∧ is_edited stored = is_edited m
        ∧ metadata stored = metadata m
        ∧ updated_at stored = Some (now env))
     ∧ match get_message (channel_id m) (ts m) db with
       | Some old =>
           id old = Some i ∧ created_at stored = created_at old
           ∧ message_type stored = message_type old
       | None =>
           i = messages_id_seq db ∧ created_at stored = created_at m
           ∧ message_type stored = message_type m
       end
     ∧ (wf_messages db -> get_message_by_id i db' = Some stored))
  ∧ (∀ channel t,
       (channel, t) ≠ (channel_id m, ts m) ->
       get_message channel t db' = get_message channel t db).
Proof.
  intros Hrun.
  assert (Hwf' : wf_messages db ->
            ∀ r, find (has_key (channel_id m) (ts m)) (messages db') = Some r ->
                 row_id r = i ->
                 find (fun r => row_id r =? i) (messages db') = Some r).
  { intros Hwf r Hfind Hid.
    destruct (upsert_message_wf env m db db' (Ok i) Hwf Hrun)
      as ((_ & Hids & _) & _ & _).
    apply find_some in Hfind as [Hin _]. apply list_elem_of_In in Hin.
    apply (find_unique row_id); [done | done | | by apply Z.eqb_eq].
    intros y _ Hy. apply Z.eqb_eq in Hy. congruence. }
  unfold upsert_message in Hrun.
  destruct (storage_rejects env m); [done|].
  destruct (update_on_conflict env m (messages db)) as [[j rows]|] eqn:Hup.
  - injection Hrun as <- <-.
    destruct (update_on_conflict_find env m _ _ _ Hup)
      as [(old & Hold & Hnew & ->) Hother].
    split.
    + exists (_row_to_message (conflict_update env m old)).
      assert (Hkey : row_key old = (channel_id m, ts m)).
      { apply find_some in Hold as [_ Hk]. by apply has_key_true in Hk. }
      injection Hkey as Hc Ht.
      unfold get_message, get_message_by_id. cbn [messages set_messages].
      rewrite Hnew, Hold.
      split_and!; try (cbn; done).
      intros Hwf. cbn [messages set_messages] in Hwf'.
      by rewrite (Hwf' Hwf _ Hnew eq_refl).
    + intros channel t Hne. unfold get_message. cbn [messages set_messages].
      by rewrite Hother.
  - injection Hrun as <- <-.
    pose proof (update_on_conflict_none env m _ Hup) as Hnone.
    assert (Hself : has_key (channel_id m) (ts m)
                      (inserted_row env (messages_id_seq db) m) = true).
    { by apply has_key_true. }
    assert (Hnew : find (has_key (channel_id m) (ts m))
                     (messages db ++ [inserted_row env (messages_id_seq db) m])
                   = Some (inserted_row env (messages_id_seq db) m)).
    { rewrite find_app, Hnone. cbn [find]. by rewrite Hself. }
    split.
    + exists (_row_to_message (inserted_row env (messages_id_seq db) m)).
      unfold get_message, get_message_by_id. cbn [messages set_messages].
      rewrite Hnew, Hnone.
      split_and!; try (cbn; done).
      intros Hwf. cbn [messages set_messages] in Hwf'.
      by rewrite (Hwf' Hwf _ Hnew eq_refl).
    + intros channel t Hne. unfold get_message. cbn [messages set_messages].
      rewrite find_app. destruct (find (has_key channel t) (messages db)); [done|].
      cbn [find].
      destruct (has_key channel t (inserted_row env (messages_id_seq db) m))
        eqn:Hk; [|done].
      apply has_key_true in Hk. unfold row_key in Hk. simpl in Hk. congruence.
Qed.

(** The edit of the message [C1/100] is stored and read back. *)
Lemma upsert_message_get_message_witness :
  ∃ db' stored,
    upsert_message Examples.quiet_env Examples.hello_edited
      (Examples.db_with [Examples.hello]) = (db', Ok 1)
    ∧ get_message "C1" "100" db' = Some stored
    ∧ id stored = Some 1
    ∧ text stored = Some "hello, world"
    ∧ updated_at stored = Some 1000000000
    ∧ created_at stored = Some 100000000
    ∧ get_message_by_id 1 db' = Some stored.
Proof.
  destruct (upsert_message Examples.quiet_env Examples.hello_edited
              (Examples.db_with [Examples.hello])) as [db' [i|e]] eqn:Hrun;
    [|vm_compute in Hrun; discriminate].
  assert (i = 1) as -> by (vm_compute in Hrun; congruence).
  destruct (upsert_message_get_message _ _ _ _ _ Hrun)
    as [(stored & Hget & Hid & Hnew & Hold & Hbyid) _].
  destruct Hnew as (_ & _ & _ & Htext & _ & _ & _ & _ & Hupdated).
  vm_compute in Hold. destruct Hold as (_ & Hcreated & _).
  exists db', stored. split_and!; try done.
  apply Hbyid. split_and!.
  - apply (bool_decide_unpack _). vm_compute. exact I.
  - apply (bool_decide_unpack _). vm_compute. exact I.
  - intros r Hr. simpl in Hr. apply list_elem_of_singleton in Hr.
    subst r. reflexivity.
Defined.

Lemma insert_reaction_fresh env message_id name user tbl r :
  r ∈ (insert_reaction env message_id name user tbl).1 ->
  r ∈ tbl.1 ∨ (rr_message_id r = message_id ∧ rr_created_at r = now env).
Proof.
  destruct tbl as [rows seq]. unfold insert_reaction.
  case_bool_decide; [by left|]. simpl.
  intros [Hr | Hr]%elem_of_app; [by left|].
  apply list_elem_of_singleton in Hr as ->. by right.
Qed.

Lemma insert_reactions_fresh env message_id snapshot tbl r :
  r ∈ (insert_reactions env message_id snapshot tbl).1 ->
  r ∈ tbl.1 ∨ (rr_message_id r = message_id ∧ rr_created_at r = now env).
Proof.
  unfold insert_reactions. revert tbl.
  induction snapshot as [|reaction snapshot IH]; intros tbl; [by left|].
  cbn [foldl]. intros Hr. apply IH in Hr as [Hr | Hr]; [|by right].
  clear IH. revert tbl Hr.
  induction (get_or [] (reaction_users reaction)) as [|user users IH];
    intros tbl; [by left|].
  cbn [foldl]. intros Hr. apply IH in Hr as [Hr | Hr]; [|by right].
  by apply insert_reaction_fresh in Hr.
Qed.

Lemma filter_filter_other (message_id other : Z) (rows : list ReactionRow) :
  other ≠ message_id ->
  filter (fun r => rr_message_id r = other)
    (filter (fun r => rr_message_id r ≠ message_id) rows)
  = filter (fun r => rr_message_id r = other) rows.
Proof.
  intros Hne. induction rows as [|r rows IH]; [done|].
  rewrite !filter_cons. destruct (decide (rr_message_id r ≠ message_id)) as [H1|H1].
  - rewrite filter_cons. destruct (decide (rr_message_id r = other)); by rewrite IH.
  - rewrite IH. destruct (decide (rr_message_id r = other)); [|done].
    destruct H1. congruence.
Qed.

(** X2. [upsert_reactions] replaces the reactions of a stored message, and
    fails for a message that is not stored. For the id of a stored message
    it succeeds. For an id that is not the id of a stored message it raises
    as soon as the snapshot has a reaction with a user to insert
    ([message_id] is a foreign key). Whenever it succeeds, the reactions
    [get_reactions] returns for the message afterwards have exactly the
    [(message_id, name, user_id)] of the rows of the snapshot, and each has
    the time of the write as [created_at] (the time a reaction was first
    seen is not kept); for an empty snapshot there are none. Whatever the
    outcome, [get_reactions] returns for every other message what it
    returned before, and the [messages] table is not touched. *)
Theorem upsert_reactions_get_reactions (env : Env) (message_id : Z)
    (snapshot : list SlackReaction) (db db' : Database) (res : result unit) :
  upsert_reactions env message_id snapshot db = (db', res) ->
  ((message_id ∈ row_id <$> messages db) -> res = Ok tt)
  ∧ ((message_id ∉ row_id <$> messages db) ->
     inserts_nothing snapshot = false -> ∃ e, res = Raise e)
  ∧ (res = Ok tt ->
     (∀ k, k ∈ (fun r => (r_message_id r, r_name r, r_user_id r))
                  <$> get_reactions message_id db'
           <-> k ∈ snapshot_rows message_id snapshot)
     ∧ (∀ r, r ∈ get_reactions message_id db' ->
             r_created_at r = Some (now env))
     ∧ (snapshot = [] -> get_reactions message_id db' = []))
  ∧ (∀ other, other ≠ message_id ->
       get_reactions other db' = get_reactions other db)
  ∧ messages db' = messages db.
Proof.
  intros Hrun.
  assert (Hget : ∀ i d, (fun r => (r_message_id r, r_name r, r_user_id r))
              <$> get_reactions i d = stored_reactions i (reactions d)).
  { intros i d. unfold get_reactions, stored_reactions.
    rewrite <- list_fmap_compose. done. }
  unfold upsert_reactions in Hrun.
  pose proof (insert_reactions_replaces env message_id snapshot
                (reactions db) (reactions_id_seq db)) as Hrows.
  cbn zeta in Hrows.
  set (kept := filter (fun r => rr_message_id r ≠ message_id) (reactions db))
    in *.
  pose proof (insert_reactions_extends env message_id snapshot
                (kept, reactions_id_seq db)) as (_ & Hother & _).
  pose proof (insert_reactions_fresh env message_id snapshot
                (kept, reactions_id_seq db)) as Hfresh.
  destruct (insert_reactions env message_id snapshot
              (kept, reactions_id_seq db)) as [rows seq] eqn:Hins.
  cbn [fst snd] in *. destruct Hrows as (_ & Hkeys & _).
  destruct (bool_decide (message_id ∈ row_id <$> messages db)
            || inserts_nothing snapshot) eqn:Hcond.
  - injection Hrun as <- <-. split_and!; try done.
    + intros Hnot Hsome. apply orb_true_iff in Hcond as [Hknown | Hnone].
      * by apply bool_decide_eq_true_1 in Hknown.
      * congruence.
    + intros _. split_and!.
      * intros k. rewrite Hget. apply Hkeys.
      * intros r Hr. unfold get_reactions in Hr.
        cbn [reactions set_reactions] in Hr.
        apply list_elem_of_fmap in Hr as (row & -> & Hrow).
        apply list_elem_of_filter in Hrow as [Hid Hrow]. cbn.
        apply Hfresh in Hrow as [Hrow | [_ ->]]; [|done].
        apply list_elem_of_filter in Hrow as [Hne _]. done.
      * intros ->. unfold insert_reactions in Hins. cbn in Hins.
        injection Hins as <- <-. unfold get_reactions.
        cbn [reactions set_reactions]. unfold kept.
        rewrite (filter_none (fun r => rr_message_id r = message_id));
          [done|].
        intros r Hr. by apply list_elem_of_filter in Hr as [Hne _].
    + intros other Hne. unfold get_reactions. cbn [reactions set_reactions].
      rewrite (Hother other Hne). unfold kept. by rewrite filter_filter_other.
  - apply orb_false_iff in Hcond as [Hknown _].
    apply bool_decide_eq_false_1 in Hknown.
    injection Hrun as <- <-. split_and!; try done.
    + intros _ _. by eexists.
    + intros other Hne. unfold get_reactions. cbn [reactions set_reactions].
      unfold kept. by rewrite filter_filter_other.
Qed.

(** The stale [:eyes:] of message 1 is replaced by the snapshot; the same
    snapshot for message 999, which is not stored, is refused. *)
Lemma upsert_reactions_get_reactions_witness :
  (∃ db',
     upsert_reactions Examples.quiet_env 1 [Examples.thumbs_up]
       Examples.stale_db = (db', Ok tt)
     ∧ (∀ k, k ∈ (fun r => (r_message_id r, r_name r, r_user_id r))
                   <$> get_reactions 1 db'
             <-> k ∈ snapshot_rows 1 [Examples.thumbs_up])
     ∧ (∀ r, r ∈ get_reactions 1 db' -> r_created_at r = Some 1000000000)
     ∧ get_reactions 2 db' = get_reactions 2 Examples.stale_db)
  ∧ (∃ db' e,
       upsert_reactions Examples.quiet_env 999 [Examples.thumbs_up]
         Examples.stale_db = (db', Raise e)
       ∧ get_reactions 1 db' = get_reactions 1 Examples.stale_db).
Proof.
  split.
  - destruct (upsert_reactions Examples.quiet_env 1 [Examples.thumbs_up]
                Examples.stale_db) as [db' res] eqn:Hrun.
    destruct (upsert_reactions_get_reactions _ _ _ _ _ _ Hrun)
      as (Hok & _ & Hstored & Hother & _).
    assert (res = Ok tt) as ->.
    { apply Hok. apply (bool_decide_unpack _). vm_compute. exact I. }
    destruct (Hstored eq_refl) as (Hkeys & Hnow & _).
    exists db'. split_and!; try done. by apply Hother.
  - destruct (upsert_reactions Examples.quiet_env 999 [Examples.thumbs_up]
                Examples.stale_db) as [db' res] eqn:Hrun.
    destruct (upsert_reactions_get_reactions _ _ _ _ _ _ Hrun)
      as (_ & Hraise & _ & Hother & _).
    assert (∃ e, res = Raise e) as [e ->].
    { apply Hraise; [|reflexivity].
      apply (bool_decide_unpack _). vm_compute. exact I. }
    exists db', e. split; [done|]. by apply Hother.
Defined.

(** ** The poller *)

(** X3. [_ensure_user_cached] never raises. A user that is cached is not
    fetched again (the database stays as it is), and so does a failed or
    empty answer of [users.info]. Otherwise the answer is stored under the
    id the answer carries, with the time of the write, and the entry of no
    other user changes. No cached user is ever dropped. The user asked for
    is cached afterwards exactly when it was cached before or the answer
    carries its id. *)
Theorem ensure_user_cached_lookup (env : Env) (user : string)
    (db db' : Database) (res : result unit) :
  _ensure_user_cached env user db = (db', res) ->
  res = Ok tt
  ∧ (is_Some (get_user user db) -> db' = db)
  ∧ (get_user_info (web env) user = None -> db' = db)
  ∧ (∀ info,
       get_user user db = None ->
       get_user_info (web env) user = Some info ->
       get_user (su_id info) db'
       = Some {| u_id := su_id info; u_name := su_name info;
                 u_real_name := su_real_name info;
                 u_display_name := su_display_name info;
                 u_is_bot := get_or false (su_is_bot info);
                 u_updated_at := Some (now env);
                 u_metadata := su_other info |}
       ∧ ∀ other, other ≠ su_id info ->
                  get_user other db' = get_user other db)
  ∧ (∀ other, is_Some (get_user other db) -> is_Some (get_user other db'))
  ∧ (is_Some (get_user user db')
     <-> is_Some (get_user user db)
         ∨ ∃ info, get_user_info (web env) user = Some info
                   ∧ su_id info = user).
Proof.
  unfold _ensure_user_cached.
  destruct (get_user user db) as [cached|] eqn:Hcached.
  - intros [= <- <-]. rewrite Hcached. split_and!; try done.
    split; [by left | done].
  - destruct (get_user_info (web env) user) as [info|] eqn:Hinfo.
    + unfold upsert_user. cbv beta. intros [= <- <-].
      unfold get_user in *. cbn [users set_users u_id].
      split_and!; try done.
      * intros ? _ [= <-]. split; [by rewrite lookup_insert_eq|].
        intros other Hne. by rewrite lookup_insert_ne.
      * intros other Hsome.
        destruct (decide (su_id info = other)) as [<- | Hne].
        -- by rewrite lookup_insert_eq.
        -- by rewrite lookup_insert_ne.
      * split.
        -- intros Hsome. right. exists info. split; [done|].
           destruct (decide (su_id info = user)) as [Heq | Hne]; [done|].
           rewrite lookup_insert_ne, Hcached in Hsome by done.
           by destruct Hsome.
        -- intros [[? Hsome] | (? & [= <-] & <-)]; [congruence|].
           by rewrite lookup_insert_eq.
    + intros [= <- <-]. rewrite Hcached. split_and!; try done.
      split; [by left|]. intros [H | (info & Hi & _)]; [done | congruence].
Qed.

(** The author [U9] is fetched once; a second call changes nothing. *)
Lemma ensure_user_cached_lookup_witness :
  ∃ db',
    _ensure_user_cached (Examples.env_of Examples.directory_web) "U9"
      (Examples.db_with [Examples.hello]) = (db', Ok tt)
    ∧ (u_display_name <$> get_user "U9" db') = Some (Some "annie")
    ∧ (u_updated_at <$> get_user "U9" db') = Some (Some 1000000000)
    ∧ _ensure_user_cached (Examples.env_of Examples.directory_web) "U9" db'
      = (db', Ok tt).
Proof.
  destruct (_ensure_user_cached (Examples.env_of Examples.directory_web) "U9"
              (Examples.db_with [Examples.hello])) as [db' res] eqn:Hrun.
  destruct (ensure_user_cached_lookup _ _ _ _ _ Hrun)
    as (-> & _ & _ & Hnew & _ & _).
  destruct (Hnew Examples.ann eq_refl eq_refl) as [Hget _].
  change (su_id Examples.ann) with "U9" in Hget.
  exists db'. split_and!; try done; try (by rewrite Hget).
  destruct (_ensure_user_cached (Examples.env_of Examples.directory_web)
              "U9" db') as [db2 res2] eqn:Hagain.
  destruct (ensure_user_cached_lookup _ _ _ _ _ Hagain) as (-> & Hsame & _).
  rewrite Hsame; [done|]. by rewrite Hget.
Defined.

Section SyncWrites.
Context (env : Env) (R : Database -> Database -> Prop)
  (touched : string -> Prop).

Hypothesis R_refl : ∀ db, R db db.
Hypothesis R_trans : ∀ db1 db2 db3, R db1 db2 -> R db2 db3 -> R db1 db3.
Hypothesis R_upsert_message :
  ∀ m, touched (channel_id m) -> keeps R (upsert_message env m).
Hypothesis R_upsert_reactions :
  ∀ i snapshot, keeps R (upsert_reactions env i snapshot).
Hypothesis R_upsert_user : ∀ u, keeps R (upsert_user env u).
Hypothesis R_upsert_sync_state :
  ∀ s, touched (ss_channel_id s) -> keeps R (upsert_sync_state env s).

Lemma keeps_ret {A} (a : A) : keeps R (ret a).
Proof. intros db db' res [= <- _]. apply R_refl. Qed.

Lemma keeps_bind {A B} (c : M A) (k : A -> M B) :
  keeps R c -> (∀ a, keeps R (k a)) -> keeps R (bind c k).
Proof.
  intros Hc Hk db db' res Hrun.
  apply bind_inv in Hrun as [(e & Hrun & _) | (a & db1 & Hrun & Hrest)].
  - by eapply Hc.
  - eapply R_trans; [by eapply Hc | by eapply Hk].
Qed.

Lemma keeps_for_each {A} (body : A -> M unit) (xs : list A) :
  (∀ x, x ∈ xs -> keeps R (body x)) -> keeps R (for_each body xs).
Proof.
  intros Hbody db db' res. apply for_each_rel; [done | done |].
  intros x d d' r Hx. by apply Hbody.
Qed.

Lemma store_reactions_keeps i data : keeps R (store_reactions env i data).
Proof.
  unfold store_reactions. destruct (msg_reactions data) as [[|r rs]|];
    auto using keeps_ret.
Qed.

Lemma _ensure_user_cached_keeps user : keeps R (_ensure_user_cached env user).
Proof.
  intros db db' res. unfold _ensure_user_cached.
  destruct (get_user user db); [intros [= <- _]; apply R_refl|].
  destruct (get_user_info (web env) user); [|intros [= <- _]; apply R_refl].
  apply R_upsert_user.
Qed.

Lemma cache_author_keeps m : keeps R (cache_author env m).
Proof.
  unfold cache_author. destruct (user_id m) as [u|]; [|apply keeps_ret].
  destruct (truthy (Some u));
    [apply _ensure_user_cached_keeps | apply keeps_ret].
Qed.

Lemma sync_reply_keeps channel data :
  touched channel -> keeps R (sync_reply env channel data).
Proof.
  intros Hc. unfold sync_reply.
  apply keeps_bind; [by apply R_upsert_message|]. intros i.
  apply keeps_bind; [apply store_reactions_keeps|]. intros _.
  apply cache_author_keeps.
Qed.

Lemma _sync_thread_replies_keeps channel thread :
  touched channel -> keeps R (_sync_thread_replies env channel thread).
Proof.
  intros Hc. apply keeps_for_each. intros reply _. by apply sync_reply_keeps.
Qed.

Lemma sync_message_keeps channel oldest data :
  touched channel -> keeps R (sync_message env channel oldest data).
Proof.
  intros Hc. unfold sync_message.
  destruct (already_seen _ _); [apply keeps_ret|].
  apply keeps_bind; [by apply R_upsert_message|]. intros i.
  apply keeps_bind; [apply store_reactions_keeps|]. intros _.
  apply keeps_bind; [|intros _; apply cache_author_keeps].
  destruct (0 <? _); [by apply _sync_thread_replies_keeps | apply keeps_ret].
Qed.

Lemma sync_history_keeps channel oldest msgs :
  touched (ch_id channel) -> keeps R (sync_history env channel oldest msgs).
Proof.
  intros Hc. unfold sync_history. destruct msgs as [|first rest];
    [apply keeps_ret|].
  apply keeps_bind.
  - apply keeps_for_each. intros data _. by apply sync_message_keeps.
  - intros _. destruct (truthy (msg_ts first)); [|apply keeps_ret].
    by apply R_upsert_sync_state.
Qed.

Lemma _sync_channel_messages_keeps fuel channel db db' res :
  touched (ch_id channel) ->
  _sync_channel_messages fuel env channel db = Some (db', res) -> R db db'.
Proof.
  intros Hc. unfold _sync_channel_messages.
  destruct (get_channel_history _ _ _ _ _) as [msgs|]; [|done].
  intros [= Hrun]. by eapply sync_history_keeps.
Qed.

Lemma sync_channels_messages_keeps fuel cs db db' res :
  (∀ c, c ∈ cs -> touched (ch_id c)) ->
  sync_channels_messages fuel env cs db = Some (db', res) -> R db db'.
Proof.
  revert db. induction cs as [|c cs IH]; intros db Hcs.
  - intros [= <- _]. apply R_refl.
  - cbn [sync_channels_messages].
    destruct (_sync_channel_messages fuel env c db) as [[db1 [[]|e]]|] eqn:Hc;
      [| |done].
    + intros Hrest. eapply R_trans.
      * eapply _sync_channel_messages_keeps; [|exact Hc].
        apply Hcs, elem_of_cons. by left.
      * apply IH; [|done]. intros c' Hc'. apply Hcs, elem_of_cons. by right.
    + intros [= <- _]. eapply _sync_channel_messages_keeps; [|exact Hc].
      apply Hcs, elem_of_cons. by left.
Qed.

End SyncWrites.

Lemma never_deletes_refl db : never_deletes db db.
Proof. unfold never_deletes. split_and!; done. Qed.

Lemma never_deletes_trans db1 db2 db3 :
  never_deletes db1 db2 -> never_deletes db2 db3 -> never_deletes db1 db3.
Proof.
  intros (Hc1 & Hr1 & Hu1 & Hs1 & Hq1 & Hw1) (Hc2 & Hr2 & Hu2 & Hs2 & Hq2 & Hw2).
  unfold never_deletes. split_and!; try congruence; auto; [lia|].
  intros Hwf. destruct (Hw1 Hwf) as [Hwf2 Hid1].
  destruct (Hw2 Hwf2) as [Hwf3 Hid2]. auto.
Qed.

Lemma never_deletes_same_messages db db' :
  channels db' = channels db -> reminders db' = reminders db ->
  (∀ u, is_Some (users db !! u) -> is_Some (users db' !! u)) ->
  (∀ c, is_Some (sync_state db !! c) -> is_Some (sync_state db' !! c)) ->
  messages db' = messages db -> messages_id_seq db' = messages_id_seq db ->
  never_deletes db db'.
Proof.
  intros Hc Hr Hu Hs Hm Hq. unfold never_deletes.
  split_and!; try done; [lia|].
  unfold wf_messages, has_id. rewrite Hm, Hq. done.
Qed.

Lemma is_Some_insert {V} (m : gmap string V) k v c :
  is_Some (m !! c) -> is_Some (<[k:=v]> m !! c).
Proof.
  intros Hc. destruct (decide (k = c)) as [<-|Hne].
  - by rewrite lookup_insert_eq.
  - by rewrite lookup_insert_ne.
Qed.

Lemma upsert_message_never_deletes env m :
  keeps never_deletes (upsert_message env m).
Proof.
  intros db db' res Hrun.
  destruct (upsert_message_frame env m db db' res Hrun) as (_ & Hs & Hu & Hc).
  unfold never_deletes. rewrite Hs, Hu, Hc. split_and!; try done.
  - unfold upsert_message in Hrun. destruct (storage_rejects env m);
      [by injection Hrun as <- _|].
    by destruct (update_on_conflict env m (messages db)) as [[j rows]|];
      injection Hrun as <- _.
  - unfold upsert_message in Hrun. destruct (storage_rejects env m);
      [injection Hrun as <- _; lia|].
    destruct (update_on_conflict env m (messages db)) as [[j rows]|];
      injection Hrun as <- _; cbn; lia.
  - intros Hwf.
    destruct (upsert_message_wf env m db db' res Hwf Hrun) as (? & _ & ?).
    done.
Qed.

Lemma upsert_reactions_never_deletes env i snapshot :
  keeps never_deletes (upsert_reactions env i snapshot).
Proof.
  intros db db' res. unfold upsert_reactions.
  destruct (insert_reactions _ _ _ _) as [rows seq].
  destruct (_ || _); intros [= <- _]; by apply never_deletes_same_messages.
Qed.

Lemma upsert_user_never_deletes env u :
  keeps never_deletes (upsert_user env u).
Proof.
  intros db db' res. unfold upsert_user. intros [= <- _].
  apply never_deletes_same_messages; try done.
  intros c. apply is_Some_insert.
Qed.

Lemma upsert_sync_state_never_deletes env s :
  keeps never_deletes (upsert_sync_state env s).
Proof.
  intros db db' res. unfold upsert_sync_state. intros [= <- _].
  apply never_deletes_same_messages; try done.
  intros c. apply is_Some_insert.
Qed.

(** X4. A sync cycle, whatever its outcome, leaves [channels] and
    [reminders] as they are, drops no cached user and no cursor, never
    moves the id sequence of [messages] back, and keeps the constraints of
    [messages] together with the id of every stored message. *)
Theorem sync_never_deletes (fuel : nat) (env : Env) (db db' : Database)
    (res : result unit) :
  _sync_all_messages fuel env db = Some (db', res) ->
  channels db' = channels db
  ∧ reminders db' = reminders db
  ∧ (∀ u, is_Some (get_user u db) -> is_Some (get_user u db'))
  ∧ (∀ c, is_Some (get_sync_state c db) -> is_Some (get_sync_state c db'))
  ∧ messages_id_seq db <= messages_id_seq db'
  ∧ (wf_messages db ->
     wf_messages db' ∧ ∀ k i, has_id db k i -> has_id db' k i).
Proof.
  intros Hrun.
  apply (sync_channels_messages_keeps env never_deletes (fun _ => True))
    with (fuel := fuel) (cs := get_all_channels db) (res := res);
    [apply never_deletes_refl | apply never_deletes_trans
    | intros m _; apply upsert_message_never_deletes
    | apply upsert_reactions_never_deletes
    | apply upsert_user_never_deletes
    | intros s _; apply upsert_sync_state_never_deletes
    | done | exact Hrun].
Qed.

(** A cycle over [C1] keeps the row of [C1/100] and its id. *)
Lemma sync_never_deletes_witness :
  ∃ db' res,
    _sync_all_messages 1 Examples.two_env Examples.cursor_db
    = Some (db', res)
    ∧ channels db' = channels Examples.cursor_db
    ∧ reminders db' = reminders Examples.cursor_db
    ∧ is_Some (get_sync_state "C1" db')
    ∧ wf_messages db' ∧ has_id db' ("C1", "100") 1.
Proof.
  destruct (_sync_all_messages 1 Examples.two_env Examples.cursor_db)
    as [[db' res]|] eqn:Hrun; [|vm_compute in Hrun; discriminate].
  destruct (sync_never_deletes _ _ _ _ _ Hrun)
    as (Hch & Hrem & _ & Hcur & _ & Hwf).
  assert (Hwf0 : wf_messages Examples.cursor_db).
  { split_and!.
    - apply (bool_decide_unpack _). vm_compute. exact I.
    - apply (bool_decide_unpack _). vm_compute. exact I.
    - intros r Hr. simpl in Hr. apply list_elem_of_singleton in Hr.
      subst r. reflexivity. }
  destruct (Hwf Hwf0) as [Hwf' Hids].
  exists db', res. split; [reflexivity|]. split; [exact Hch|].
  split; [exact Hrem|]. split; [apply Hcur; by eexists|].
  split; [exact Hwf'|]. apply Hids. exists Examples.hello.
  split; [|split; reflexivity]. simpl. apply elem_of_cons. by left.
Defined.

Lemma untouched_refl c db : untouched c db db.
Proof. by split. Qed.

Lemma untouched_trans c db1 db2 db3 :
  untouched c db1 db2 -> untouched c db2 db3 -> untouched c db1 db3.
Proof. intros [? ?] [? ?]. split; congruence. Qed.

Lemma update_on_conflict_other_channel env m rows i rows' c :
  channel_id m ≠ c ->
  update_on_conflict env m rows = Some (i, rows') ->
  filter (fun r => row_channel_id r = c) rows'
  = filter (fun r => row_channel_id r = c) rows.
Proof.
  intros Hne. revert i rows'.
  induction rows as [|r rows IH]; intros i rows'; [done|].
  cbn [update_on_conflict].
  destruct (has_key (channel_id m) (ts m) r) eqn:Hk.
  - intros [= <- <-]. apply has_key_true in Hk as [= Hc _].
    rewrite !filter_cons. cbn [row_channel_id conflict_update].
    destruct (decide (row_channel_id r = c)); [congruence | done].
  - destruct (update_on_conflict env m rows) as [[j rest]|]; [|done].
    intros [= <- <-]. rewrite !filter_cons, (IH _ _ eq_refl). done.
Qed.

Lemma upsert_message_untouched env m c :
  channel_id m ≠ c -> keeps (untouched c) (upsert_message env m).
Proof.
  intros Hne db db' res Hrun.
  destruct (upsert_message_frame env m db db' res Hrun) as (_ & Hs & _ & _).
  split; [|unfold get_sync_state; by rewrite Hs].
  unfold rows_of. unfold upsert_message in Hrun.
  destruct (storage_rejects env m); [by injection Hrun as <- _|].
  destruct (update_on_conflict env m (messages db)) as [[j rows]|] eqn:Hup;
    injection Hrun as <- _; cbn [messages set_messages].
  - by eapply update_on_conflict_other_channel.
  - rewrite filter_app, filter_cons. cbn [row_channel_id inserted_row].
    destruct (decide (channel_id m = c)); [done|].
    by rewrite filter_nil, app_nil_r.
Qed.

Lemma untouched_same_messages c db db' :
  messages db' = messages db -> sync_state db' !! c = sync_state db !! c ->
  untouched c db db'.
Proof.
  intros Hm Hs. unfold untouched, rows_of, get_sync_state. by rewrite Hm, Hs.
Qed.

Lemma upsert_reactions_untouched env i snapshot c :
  keeps (untouched c) (upsert_reactions env i snapshot).
Proof.
  intros db db' res. unfold upsert_reactions.
  destruct (insert_reactions _ _ _ _) as [rows seq].
  destruct (_ || _); intros [= <- _]; by apply untouched_same_messages.
Qed.

Lemma upsert_user_untouched env u c : keeps (untouched c) (upsert_user env u).
Proof.
  intros db db' res. unfold upsert_user. intros [= <- _].
  by apply untouched_same_messages.
Qed.

Lemma upsert_sync_state_untouched env s c :
  ss_channel_id s ≠ c -> keeps (untouched c) (upsert_sync_state env s).
Proof.
  intros Hne db db' res. unfold upsert_sync_state. intros [= <- _].
  apply untouched_same_messages; [done|].
  cbn [sync_state set_sync_state]. by rewrite lookup_insert_ne.
Qed.

(** X5. A sync cycle writes only to the channels it syncs: for a channel
    that [get_all_channels] does not return (an archived or an unknown
    one), the message rows and the cursor are after the cycle what they
    were before, whatever the outcome. *)
Theorem sync_leaves_other_channels (fuel : nat) (env : Env)
    (db db' : Database) (res : result unit) (c : string) :
  _sync_all_messages fuel env db = Some (db', res) ->
  (c ∉ ch_id <$> get_all_channels db) ->
  rows_of c db' = rows_of c db
  ∧ get_sync_state c db' = get_sync_state c db.
Proof.
  intros Hrun Hc.
  apply (sync_channels_messages_keeps env (untouched c) (fun ch => ch ≠ c))
    with (fuel := fuel) (cs := get_all_channels db) (res := res);
    [apply untouched_refl | apply untouched_trans
    | intros m Hm; by apply upsert_message_untouched
    | intros i snapshot; apply upsert_reactions_untouched
    | intros u; apply upsert_user_untouched
    | intros s Hs; by apply upsert_sync_state_untouched
    | | exact Hrun].
  intros ch Hch Heq. apply Hc. rewrite <- Heq. by apply list_elem_of_fmap_2.
Qed.

(** A cycle syncs [C1] and leaves the archived [C9] alone. *)
Lemma sync_leaves_other_channels_witness :
  ∃ db' res,
    _sync_all_messages 1 Examples.two_env Examples.archive_db
    = Some (db', res)
    ∧ rows_of "C1" db' ≠ rows_of "C1" Examples.archive_db
    ∧ rows_of "C9" db' = rows_of "C9" Examples.archive_db
    ∧ get_sync_state "C9" db' = get_sync_state "C9" Examples.archive_db.
Proof.
  destruct (_sync_all_messages 1 Examples.two_env Examples.archive_db)
    as [[db' res]|] eqn:Hrun; [|vm_compute in Hrun; discriminate].
  destruct (sync_leaves_other_channels _ _ _ _ _ "C9" Hrun) as [Hrows Hcur].
  { apply (bool_decide_unpack _). vm_compute. exact I. }
  exists db', res. split; [reflexivity|].
  split; [|split; [exact Hrows | exact Hcur]].
  vm_compute in Hrun. injection Hrun as <- _. vm_compute. discriminate.
Defined.

(** ** The client *)

Lemma history_loop_cap fuel w channel oldest limit acc cursor msgs :
  (∀ o cur lim page,
     0 <= lim <= 100 ->
     conversations_history w channel o cur lim = Some page ->
     Z.of_nat (length (page_messages page)) <= lim) ->
  Z.of_nat (length acc) <= limit ->
  history_loop fuel w channel oldest limit acc cursor = Some msgs ->
  Z.of_nat (length msgs) <= limit.
Proof.
  intros Hapi. revert acc cursor.
  induction fuel as [|fuel IH]; intros acc cursor Hacc; [done|].
  cbn [history_loop].
  destruct (conversations_history w channel _ _ _) as [page|] eqn:Hpage.
  - apply Hapi in Hpage; [|lia].
    assert (Hlen : Z.of_nat (length (acc ++ page_messages page)) <= limit).
    { rewrite length_app. lia. }
    destruct (limit <=? Z.of_nat (length (acc ++ page_messages page)));
      [by intros [= <-]|].
    destruct (truthy (page_next_cursor page));
      [by apply IH | by intros [= <-]].
  - intros [= <-]. simpl. lia.
Qed.

(** X6. For [limit >= 0], when the API answers a request for [lim]
    messages, [0 <= lim <= 100], with at most [lim] messages,
    [get_channel_history] returns at most [limit] messages: it asks each
    page for no more than is missing and for no more than 100. *)
Theorem get_channel_history_cap (fuel : nat) (w : WebClient)
    (channel : string) (oldest : option string) (limit : Z)
    (msgs : list SlackMsg) :
  0 <= limit ->
  (∀ o cur lim page,
     0 <= lim <= 100 ->
     conversations_history w channel o cur lim = Some page ->
     Z.of_nat (length (page_messages page)) <= lim) ->
  get_channel_history fuel w channel oldest limit = Some msgs ->
  Z.of_nat (length msgs) <= limit.
Proof. intros Hlimit Hapi. by apply history_loop_cap. Qed.

(** Of two messages, a history of limit 1 returns one. *)
Lemma get_channel_history_cap_witness :
  ∃ msgs,
    get_channel_history 1 (Examples.limited_web Examples.two_messages)
      "C1" None 1 = Some msgs
    ∧ Z.of_nat (length msgs) <= 1.
Proof.
  destruct (get_channel_history 1
              (Examples.limited_web Examples.two_messages) "C1" None 1)
    as [msgs|] eqn:Hrun; [|vm_compute in Hrun; discriminate].
  exists msgs. split; [done|].
  apply (get_channel_history_cap 1
           (Examples.limited_web Examples.two_messages) "C1" None 1 msgs);
    [lia | | exact Hrun].
  intros o cur lim page Hlim [= <-]. simpl. rewrite length_take. lia.
Defined.

(** ** The status service *)

(** X7. For [max_len >= 3], [_truncate text max_len] has at most
    [max_len] characters. A text of at most [max_len] characters is
    returned as it is; a longer one is cut to its first [max_len - 3]
    characters followed by ["..."], [max_len] characters in all. *)
Theorem truncate_bound (text : string) (max_len : Z) :
  3 <= max_len ->
  Z.of_nat (String.length (_truncate text max_len)) <= max_len
  ∧ (Z.of_nat (String.length text) <= max_len -> _truncate text max_len = text)
  ∧ (max_len < Z.of_nat (String.length text) ->
     ∃ kept rest,
       text = kept +:+ rest
       ∧ Z.of_nat (String.length kept) = max_len - 3
       ∧ _truncate text max_len = kept +:+ "..."
       ∧ Z.of_nat (String.length (_truncate text max_len)) = max_len).
Proof.
  intros Hmax. unfold _truncate.
  destruct (Z.of_nat (String.length text) <=? max_len) eqn:Hlen.
  - apply Z.leb_le in Hlen. split_and!; [done | done | lia].
  - apply Z.leb_gt in Hlen.
    assert (Hcut : ∃ kept rest,
              text = kept +:+ rest
              ∧ Z.of_nat (String.length kept) = max_len - 3
              ∧ String.string_of_list_ascii
                  (slice_to (max_len - 3) (String.list_ascii_of_string text))
                = kept).
    { unfold slice_to. assert ((0 <=? max_len - 3) = true) as -> by lia.
      set (chars := String.list_ascii_of_string text).
      exists (String.string_of_list_ascii (take (Z.to_nat (max_len - 3)) chars)),
        (String.string_of_list_ascii (drop (Z.to_nat (max_len - 3)) chars)).
      split_and!; [|  |done].
      - rewrite <- string_of_list_ascii_app, take_drop. unfold chars.
        by rewrite String.string_of_list_ascii_of_string.
      - rewrite length_string_of_list_ascii, length_take. unfold chars.
        rewrite length_list_ascii_of_string. lia. }
    destruct Hcut as (kept & rest & Htext & Hkept & ->).
    assert (Htotal : Z.of_nat (String.length (kept +:+ "...")) = max_len).
    { rewrite length_append. simpl. lia. }
    split_and!; [lia | lia |]. intros _. by exists kept, rest.
Qed.

(** Twelve characters cut to eight. *)
Lemma truncate_bound_witness :
  3 <= 8
  ∧ _truncate "hello, world" 8 = "hello..."
  ∧ Z.of_nat (String.length (_truncate "hello, world" 8)) <= 8.
Proof.
  split; [lia|]. split; [reflexivity|].
  apply (truncate_bound "hello, world" 8). lia.
Defined.

Lemma desc_nulls_first_total a b :
  desc_nulls_first a b = true ∨ desc_nulls_first b a = true.
Proof. destruct a, b; simpl; auto. lia. Qed.

Lemma desc_nulls_first_trans a b c :
  desc_nulls_first a b = true -> desc_nulls_first b c = true ->
  desc_nulls_first a c = true.
Proof. destruct a, b, c; simpl; try done. lia. Qed.

Lemma desc_nulls_first_refl a : desc_nulls_first a a = true.
Proof. destruct a; simpl; [lia | done]. Qed.

Lemma get_threads_with_replies_sorted me since db :
  StronglySorted newer_first (get_threads_with_replies me since db).
Proof.
  unfold get_threads_with_replies.
  eapply StronglySorted_sublist; [apply sublist_take|].
  apply (stable_sort_sorted
           (fun a b : MessageRow * option string =>
              desc_nulls_first (row_created_at a.1) (row_created_at b.1))).
  - intros a b. apply desc_nulls_first_total.
  - intros a b c. apply desc_nulls_first_trans.
Qed.

Lemma get_threads_with_replies_elem me since db r name :
  (r, name) ∈ get_threads_with_replies me since db ->
  r ∈ messages db
  ∧ other_author me r = true
  ∧ created_after since (row_created_at r) = true
  ∧ (∃ c, channels db !! row_channel_id r = Some c ∧ name = ch_name c)
  ∧ ∃ mine, mine ∈ messages db ∧ row_user_id mine = Some me
            ∧ row_channel_id mine = row_channel_id r
            ∧ (row_ts r = thread_of mine
               ∨ row_thread_ts r = Some (thread_of mine)).
Proof.
  unfold get_threads_with_replies. intros Hin.
  apply elem_of_take_elem, elem_of_stable_sort, elem_of_List_filter in Hin
    as [Hin Hfilter].
  apply andb_true_iff in Hfilter as [Hother Hafter]. simpl in Hother, Hafter.
  apply list_elem_of_bind in Hin as (r0 & Hin & Hr0).
  apply list_elem_of_bind in Hin as (ut & Hin & Hut).
  apply elem_of_List_filter in Hut as [Hut Hthread].
  destruct (channels db !! row_channel_id r0) as [c|] eqn:Hc;
    [|by apply elem_of_nil in Hin].
  apply list_elem_of_singleton in Hin as [= <- ->].
  split_and!; try done; [by exists c|].
  unfold user_threads in Hut.
  apply elem_of_remove_dups, list_elem_of_fmap in Hut as (mine & -> & Hmine).
  apply elem_of_List_filter in Hmine as [Hmine Hme].
  apply bool_decide_eq_true in Hme.
  exists mine. split_and!; try done.
  - unfold in_thread in Hthread. apply andb_true_iff in Hthread as [Hch _].
    simpl in Hch. by apply String.eqb_eq in Hch.
  - unfold in_thread in Hthread. apply andb_true_iff in Hthread as [_ Ht].
    simpl in Ht. apply orb_true_iff in Ht as [Ht | Ht].
    + left. by apply String.eqb_eq in Ht.
    + right. by apply bool_decide_eq_true in Ht.
Qed.

Lemma thread_items_elem db seen rows item :
  item ∈ thread_items db seen rows ->
  (item_thread item ∉ seen)
  ∧ ∃ r name,
      (r, name) ∈ rows
      ∧ item_thread item = thread_key r
      ∧ priority item = MEDIUM
      ∧ si_channel_id item = row_channel_id r
      ∧ si_channel_name item = name
      ∧ message_ts item = row_ts r
      ∧ si_thread_ts item = row_thread_ts r
      ∧ si_user_id item = row_user_id r
      ∧ timestamp item = row_created_at r
      ∧ text_preview item = _truncate (or_empty (row_text r)) 100.
Proof.
  revert seen. induction rows as [|[r name] rows IH]; intros seen.
  - by intros ?%elem_of_nil.
  - cbn [thread_items]. destruct (decide (thread_key r ∈ seen)) as [Hseen|Hnew].
    + intros Hin. destruct (IH _ Hin) as (Hfresh & r' & name' & Hr' & Hrest).
      split; [done|]. exists r', name'. split; [|done].
      apply elem_of_cons. by right.
    + intros [-> | Hin]%elem_of_cons.
      * split; [done|]. exists r, name. split_and!; try done.
        apply elem_of_cons. by left.
      * destruct (IH _ Hin) as (Hfresh & r' & name' & Hr' & Hrest).
        split; [intros Hs; apply Hfresh; by apply elem_of_union_r|].
        exists r', name'. split; [|done].
        apply elem_of_cons. by right.
Qed.

Lemma thread_items_NoDup db seen rows :
  NoDup (item_thread <$> thread_items db seen rows).
Proof.
  revert seen. induction rows as [|[r name] rows IH]; intros seen.
  - apply NoDup_nil_2.
  - cbn [thread_items]. destruct (decide (thread_key r ∈ seen)); [apply IH|].
    rewrite fmap_cons. apply NoDup_cons. split; [|apply IH].
    intros (item & Hkey & Hin)%list_elem_of_fmap.
    apply thread_items_elem in Hin as [Hfresh _].
    rewrite <- Hkey in Hfresh. apply Hfresh.
    apply elem_of_union_l, elem_of_singleton. done.
Qed.

Lemma thread_items_length db seen rows :
  (length (thread_items db seen rows) <= length rows)%nat.
Proof.
  revert seen. induction rows as [|[r name] rows IH]; intros seen; [done|].
  cbn [thread_items]. destruct (decide (thread_key r ∈ seen)); simpl.
  - specialize (IH seen). lia.
  - specialize (IH ({[thread_key r]} ∪ seen)). lia.
Qed.

Lemma thread_items_first db seen rows item rc :
  StronglySorted newer_first rows ->
  item ∈ thread_items db seen rows ->
  rc ∈ rows -> thread_key rc.1 = item_thread item ->
  desc_nulls_first (timestamp item) (row_created_at rc.1) = true.
Proof.
  revert seen. induction rows as [|[r name] rows IH]; intros seen Hsorted.
  - by intros ?%elem_of_nil.
  - apply StronglySorted_inv in Hsorted as [Hsorted Hhead].
    cbn [thread_items]. destruct (decide (thread_key r ∈ seen)) as [Hseen|Hnew].
    + intros Hin [-> | Hrc]%elem_of_cons Hkey; [|by eapply IH].
      apply thread_items_elem in Hin as [Hfresh _].
      simpl in Hkey. by rewrite <- Hkey in Hfresh.
    + intros [-> | Hin]%elem_of_cons [-> | Hrc]%elem_of_cons Hkey.
      * apply desc_nulls_first_refl.
      * rewrite Forall_forall in Hhead. by apply (Hhead rc).
      * apply thread_items_elem in Hin as [Hfresh _].
        simpl in Hkey. rewrite <- Hkey in Hfresh. destruct Hfresh.
        apply elem_of_union_l, elem_of_singleton. done.
      * by eapply IH.
Qed.

Lemma created_after_some since created :
  created_after (Some since) created = true
  <-> (∃ t, created = Some t ∧ since < t).
Proof.
  unfold created_after. destruct created as [t|].
  - rewrite Z.ltb_lt. split; [by exists t | by intros (? & [= <-] & ?)].
  - split; [done | by intros (? & [=] & _)].
Qed.

Lemma other_author_spec me r :
  other_author me r = true
  <-> (∃ author, row_user_id r = Some author ∧ author ≠ me).
Proof.
  unfold other_author. destruct (row_user_id r) as [u|].
  - rewrite negb_true_iff, String.eqb_neq.
    split; [by exists u | by intros (? & [= <-] & ?)].
  - split; [done | by intros (? & [=] & _)].
Qed.

Lemma thread_items_complete db seen rows r name :
  (r, name) ∈ rows -> (thread_key r ∉ seen) ->
  ∃ item, item ∈ thread_items db seen rows ∧ item_thread item = thread_key r.
Proof.
  revert seen. induction rows as [|[r0 name0] rows IH]; intros seen.
  - by intros ?%elem_of_nil.
  - cbn [thread_items]. intros Hin Hfresh.
    destruct (decide (thread_key r0 ∈ seen)) as [Hseen|Hnew].
    + apply elem_of_cons in Hin as [[= -> ->] | Hin]; [done|].
      by apply IH.
    + destruct (decide (thread_key r = thread_key r0)) as [Heq|Hne].
      * eexists. split; [apply elem_of_cons; by left|]. by rewrite Heq.
      * apply elem_of_cons in Hin as [[= -> ->] | Hin]; [done|].
        destruct (IH ({[thread_key r0]} ∪ seen) Hin) as (item & Hitem & Hkey).
        { intros [Hk | Hk]%elem_of_union; [|done].
          apply elem_of_singleton in Hk. done. }
        exists item. split; [|done]. apply elem_of_cons. by right.
Qed.

(** When the cut drops nothing, a reply to a thread of [me] is among the
    rows of the query. *)
Lemma get_threads_with_replies_complete me since db r mine c :
  (length (thread_candidates me since db) <= 100)%nat ->
  r ∈ messages db -> mine ∈ messages db ->
  row_user_id mine = Some me ->
  row_channel_id mine = row_channel_id r ->
  (row_ts r = thread_of mine ∨ row_thread_ts r = Some (thread_of mine)) ->
  channels db !! row_channel_id r = Some c ->
  other_author me r = true ->
  created_after (Some since) (row_created_at r) = true ->
  (r, ch_name c) ∈ get_threads_with_replies me (Some since) db.
Proof.
  intros Hfew Hr Hmine Hme Hch Hthread Hc Hother Hafter.
  unfold get_threads_with_replies.
  change (List.filter _ _) with (thread_candidates me since db).
  rewrite take_ge by (by rewrite length_stable_sort).
  apply elem_of_stable_sort. unfold thread_candidates.
  apply elem_of_List_filter. split; [|cbn [fst]; by rewrite Hother, Hafter].
  apply list_elem_of_bind. exists r. split; [|done].
  apply list_elem_of_bind. exists (row_channel_id mine, thread_of mine).
  split; [rewrite Hc; by apply list_elem_of_singleton|].
  apply elem_of_List_filter. split.
  - unfold user_threads. apply elem_of_remove_dups, list_elem_of_fmap.
    exists mine. split; [done|]. apply elem_of_List_filter.
    split; [done|]. by apply bool_decide_eq_true.
  - unfold in_thread. cbn [fst snd]. apply andb_true_iff. split.
    + apply String.eqb_eq. done.
    + apply orb_true_iff. destruct Hthread as [Hts | Hts].
      * left. by apply String.eqb_eq.
      * right. by apply bool_decide_eq_true.
Qed.

(** X8. [_get_thread_replies] gives one item for each thread: no two
    items share a thread key, and every thread with a row among those the
    query returns has an item. There are at most 100 items. Every item
    has priority MEDIUM and stands for a stored message of a known author
    other than the identity, created within the window, in a thread of
    its channel in which the identity has written; and it is the newest
    such row of its thread among those the query returns. When the query
    selects at most 100 rows before it cuts, the tier misses no thread:
    for every stored message of a known channel, of an author other than
    the identity, created within the window, that starts or belongs to a
    thread of its channel in which the identity has written, the tier
    holds an item of its thread that is at least as new. *)
Theorem thread_tier_one_per_thread (me : string) (since : Time)
    (db : Database) :
  NoDup (item_thread <$> _get_thread_replies me since db)
  ∧ (length (_get_thread_replies me since db) <= 100)%nat
  ∧ (∀ item,
       item ∈ _get_thread_replies me since db ->
       priority item = MEDIUM
       ∧ ∃ r author t,
           r ∈ messages db
           ∧ (si_channel_id item = row_channel_id r
              ∧ message_ts item = row_ts r
              ∧ si_thread_ts item = row_thread_ts r)
           ∧ (row_user_id r = Some author ∧ author ≠ me
              ∧ si_user_id item = Some author)
           ∧ (row_created_at r = Some t ∧ since < t
              ∧ timestamp item = Some t)
           ∧ (∃ mine,
                mine ∈ messages db ∧ row_user_id mine = Some me
                ∧ row_channel_id mine = row_channel_id r
                ∧ (row_ts r = thread_of mine
                   ∨ row_thread_ts r = Some (thread_of mine)))
           ∧ (∀ other name,
                (other, name) ∈ get_threads_with_replies me (Some since) db ->
                thread_key other = item_thread item ->
                ∃ t', row_created_at other = Some t' ∧ t' <= t))
  ∧ (∀ r name,
       (r, name) ∈ get_threads_with_replies me (Some since) db ->
       ∃ item, item ∈ _get_thread_replies me since db
               ∧ item_thread item = thread_key r)
  ∧ ((length (thread_candidates me since db) <= 100)%nat ->
     ∀ r mine c author t,
       r ∈ messages db -> mine ∈ messages db ->
       row_user_id mine = Some me ->
       row_channel_id mine = row_channel_id r ->
       (row_ts r = thread_of mine ∨ row_thread_ts r = Some (thread_of mine)) ->
       channels db !! row_channel_id r = Some c ->
       row_user_id r = Some author -> author ≠ me ->
       row_created_at r = Some t -> since < t ->
       ∃ item t',
         item ∈ _get_thread_replies me since db
         ∧ item_thread item = thread_key r
         ∧ timestamp item = Some t' ∧ t <= t').
Proof.
  unfold _get_thread_replies. split_and!.
  - apply thread_items_NoDup.
  - etrans; [apply thread_items_length|].
    unfold get_threads_with_replies. rewrite length_take. lia.
  - intros item Hitem.
    destruct (thread_items_elem _ _ _ _ Hitem)
      as (_ & r & name & Hr & Hkey & Hprio & Hch & _ & Hts & Hthread & Huser
          & Htime & _).
    split; [done|].
    destruct (get_threads_with_replies_elem _ _ _ _ _ Hr)
      as (Hin & Hother & Hafter & _ & Hmine).
    apply other_author_spec in Hother as (author & Hauthor & Hne).
    apply created_after_some in Hafter as (t & Ht & Hsince).
    exists r, author, t. split_and!; try done; try congruence.
    intros other name' Hother Hsame.
    pose proof (thread_items_first db ∅ _ item (other, name')
                  (get_threads_with_replies_sorted me (Some since) db)
                  Hitem Hother Hsame) as Horder.
    destruct (get_threads_with_replies_elem _ _ _ _ _ Hother)
      as (_ & _ & Hafter' & _).
    apply created_after_some in Hafter' as (t' & Ht' & _).
    exists t'. split; [done|].
    rewrite Htime, Ht in Horder. simpl in Horder. rewrite Ht' in Horder.
    simpl in Horder. lia.
  - intros r name Hr. by apply (thread_items_complete db ∅ _ r name).
  - intros Hfew r mine c author t Hr Hmine Hme Hch Hthread Hc Hauthor Hne
      Ht Hsince.
    assert ((r, ch_name c) ∈ get_threads_with_replies me (Some since) db)
      as Hrow.
    { apply (get_threads_with_replies_complete me since db r mine c);
        try done.
      - apply other_author_spec. by exists author.
      - apply created_after_some. by exists t. }
    destruct (thread_items_complete db ∅ _ r (ch_name c) Hrow)
      as (item & Hitem & Hkey); [done|].
    pose proof (thread_items_first db ∅ _ item (r, ch_name c)
                  (get_threads_with_replies_sorted me (Some since) db)
                  Hitem Hrow (eq_sym Hkey)) as Horder.
    destruct (thread_items_elem _ _ _ _ Hitem)
      as (_ & r' & name' & Hr' & _ & _ & _ & _ & _ & _ & _ & Htime & _).
    destruct (get_threads_with_replies_elem _ _ _ _ _ Hr')
      as (_ & _ & Hafter' & _).
    apply created_after_some in Hafter' as (t' & Ht' & _).
    exists item, t'. split_and!; [done | done | congruence |].
    rewrite Htime, Ht' in Horder. cbn [fst] in Horder.
    rewrite Ht in Horder. simpl in Horder. lia.
Qed.

(** The thread [C1:200] of [U1] has two replies and one item, that of the
    newer reply. *)
Lemma thread_tier_one_per_thread_witness :
  length (_get_thread_replies "U1" 0 Examples.discussion_db) = 1%nat
  ∧ ∃ item t',
      item ∈ _get_thread_replies "U1" 0 Examples.discussion_db
      ∧ item_thread item = "C1:200"
      ∧ priority item = MEDIUM
      ∧ timestamp item = Some t' ∧ 201000000 <= t'.
Proof.
  split; [vm_compute; reflexivity|].
  destruct (thread_tier_one_per_thread "U1" 0 Examples.discussion_db)
    as (_ & _ & Hitems & _ & Hall).
  destruct (Hall ltac:(vm_compute; lia)
              (Examples.reply_row 2 "C1" "201" "200" "U2" "yes" 201000000)
              (Examples.stored 1 "C1" "200" "U1" "shall we deploy?" 200000000)
              (Examples.channel_of "C1" "public_channel") "U2" 201000000)
    as (item & t' & Hitem & Hkey & Htime & Hnew).
  - simpl. apply elem_of_cons. right. apply elem_of_cons. by left.
  - simpl. apply elem_of_cons. by left.
  - reflexivity.
  - reflexivity.
  - right. reflexivity.
  - reflexivity.
  - reflexivity.
  - discriminate.
  - reflexivity.
  - lia.
  - exists item, t'. split; [done|]. split; [exact Hkey|].
    split; [by destruct (Hitems item Hitem)|]. by split.
Defined.

Lemma like_percent_unfold pat s :
  like (String "%" pat) s
  = like pat s
    || match s with
       | EmptyString => false
       | String _ s' => like (String "%" pat) s'
       end.
Proof. by destruct s. Qed.

Lemma like_percent pat s :
  like (String "%" pat) s = true
  <-> ∃ a b, s = a +:+ b ∧ like pat b = true.
Proof.
  induction s as [|x s IH]; rewrite like_percent_unfold, orb_true_iff.
  - split.
    + intros [H | [=]]. by exists "", "".
    + intros (a & b & Hs & Hb). left. destruct a; [|done].
      change ("" +:+ b) with b in Hs. by subst b.
  - rewrite IH. split.
    + intros [H | (a & b & -> & Hb)].
      * by exists "", (String x s).
      * by exists (String x a), b.
    + intros ([|y a] & b & Hs & Hb).
      * left. change ("" +:+ b) with b in Hs. by subst b.
      * right. injection Hs as -> ->. by exists a, b.
Qed.

Lemma like_char c pat s :
  literal (String c "") = true ->
  like (String c pat) s
  = match s with
    | EmptyString => false
    | String x s' => Ascii.eqb x c && like pat s'
    end.
Proof.
  unfold literal. simpl. rewrite !andb_true_r, !andb_true_iff, !negb_true_iff.
  intros [[H1 H2] H3]. simpl. by rewrite H1, H2, H3.
Qed.

Lemma literal_cons c p :
  literal (String c p) = literal (String c "") && literal p.
Proof.
  unfold literal. simpl. rewrite !andb_true_r.
  destruct (negb (Ascii.eqb c "%")), (negb (Ascii.eqb c "_")),
    (negb (Ascii.eqb c "\")); simpl; try done;
    by destruct (lacks "%" p), (lacks "_" p).
Qed.

Lemma like_literal p rest s :
  literal p = true ->
  like (p +:+ rest) s = true <-> ∃ s', s = p +:+ s' ∧ like rest s' = true.
Proof.
  revert s. induction p as [|c p IH]; intros s Hp.
  - change ("" +:+ rest) with rest. split; [by exists s|].
    by intros (s' & -> & H).
  - rewrite literal_cons in Hp. apply andb_true_iff in Hp as [Hc Hp].
    rewrite append_String, (like_char _ _ _ Hc). destruct s as [|x s].
    + split; [done | by intros (s' & [=] & _)].
    + rewrite andb_true_iff, Ascii.eqb_eq, (IH _ Hp). split.
      * intros [-> (s' & -> & H)]. by exists s'.
      * intros (s' & [= -> ->] & H). split; [done | by exists s'].
Qed.

Lemma append_assoc a b c : (a +:+ b) +:+ c = a +:+ b +:+ c.
Proof.
  induction a as [|x a IH]; [done|]. rewrite !append_String. by rewrite IH.
Qed.

Lemma append_nil_r a : a +:+ "" = a.
Proof. induction a as [|x a IH]; [done|]. rewrite append_String. by rewrite IH. Qed.

Lemma literal_app a b : literal (a +:+ b) = literal a && literal b.
Proof.
  unfold literal. rewrite !lacks_app.
  by destruct (lacks "%" a), (lacks "_" a), (lacks "\" a), (lacks "%" b),
    (lacks "_" b).
Qed.

Lemma like_mention me t :
  literal me = true ->
  like ("%<@" +:+ me +:+ ">%") t = true
  <-> ∃ before after, t = before +:+ "<@" +:+ me +:+ ">" +:+ after.
Proof.
  intros Hme.
  change ("%<@" +:+ me +:+ ">%") with (String "%" ("<@" +:+ me +:+ ">" +:+ "%")).
  rewrite like_percent.
  assert (Hpat : "<@" +:+ me +:+ ">" +:+ "%" = ("<@" +:+ me +:+ ">") +:+ "%").
  { by rewrite !append_assoc. }
  assert (Hlit : literal ("<@" +:+ me +:+ ">") = true).
  { by rewrite !literal_app, Hme. }
  split.
  - intros (a & b & -> & Hb). rewrite Hpat in Hb.
    apply (like_literal _ _ _ Hlit) in Hb as (after & -> & _).
    exists a, after. by rewrite !append_assoc.
  - intros (before & after & ->). exists before, ("<@" +:+ me +:+ ">" +:+ after).
    split; [done|]. rewrite Hpat. apply (like_literal _ _ _ Hlit).
    exists after. split; [by rewrite !append_assoc|].
    apply like_percent. exists after, "". by rewrite append_nil_r.
Qed.

Lemma mention_candidate_spec me since r :
  literal me = true ->
  mention_candidate me since r = true
  <-> (∃ before after,
         row_text r = Some (before +:+ "<@" +:+ me +:+ ">" +:+ after))
      ∧ (∃ t, row_created_at r = Some t ∧ since < t).
Proof.
  intros Hme. unfold mention_candidate, text_like.
  rewrite andb_true_iff, created_after_some.
  destruct (row_text r) as [t|].
  - rewrite (like_mention _ _ Hme). split.
    + intros [(before & after & ->) Ht]. split; [|done]. by exists before, after.
    + intros [(before & after & [= ->]) Ht]. split; [|done].
      by exists before, after.
  - split; [by intros [[=] _] | by intros [(? & ? & [=]) _]].
Qed.

(** X9. For an identity whose id holds none of [%], [_] and the
    backslash, the mention tier holds only items of priority CRITICAL
    built from stored messages that were created within the window and
    whose text contains [<@id>]; it holds at most 50 items, and it
    holds the item of every such message when at most 50 of them exist.
    Who wrote the message and whether it was read play no part. *)
Theorem mention_tier (me : string) (since : Time) (db : Database) :
  literal me = true ->
  (∀ item,
     item ∈ _get_mentions me since db ->
     priority item = CRITICAL
     ∧ ∃ r before after t,
         r ∈ messages db
         ∧ item = message_item CRITICAL "You were mentioned" db
                    (_row_to_message r)
         ∧ row_text r = Some (before +:+ "<@" +:+ me +:+ ">" +:+ after)
         ∧ row_created_at r = Some t ∧ since < t)
  ∧ (length (_get_mentions me since db) <= 50)%nat
  ∧ ((length (List.filter (mention_candidate me since) (messages db)) <= 50)%nat
     -> ∀ r before after t,
          r ∈ messages db ->
          row_text r = Some (before +:+ "<@" +:+ me +:+ ">" +:+ after) ->
          row_created_at r = Some t -> since < t ->
          message_item CRITICAL "You were mentioned" db (_row_to_message r)
          ∈ _get_mentions me since db).
Proof.
  intros Hme. unfold _get_mentions, get_unread_mentions.
  change (fun r : MessageRow =>
            text_like ("%<@" +:+ me +:+ ">%") r
            && created_after (Some since) (row_created_at r))
    with (mention_candidate me since).
  split_and!.
  - intros item Hitem. rewrite <- list_fmap_compose in Hitem.
    apply list_elem_of_fmap in Hitem as (r & -> & Hr).
    apply elem_of_take_elem, elem_of_stable_sort, elem_of_List_filter in Hr
      as [Hr Hcand].
    apply (mention_candidate_spec _ _ _ Hme) in Hcand
      as [(before & after & Htext) (t & Ht & Hsince)].
    split; [done|]. by exists r, before, after, t.
  - rewrite !length_fmap, length_take. lia.
  - intros Hfew r before after t Hr Htext Ht Hsince.
    rewrite <- list_fmap_compose. apply list_elem_of_fmap. exists r.
    split; [done|]. rewrite take_ge.
    + apply elem_of_stable_sort, elem_of_List_filter. split; [done|].
      apply (mention_candidate_spec _ _ _ Hme). split.
      * by exists before, after.
      * by exists t.
    + unfold newest_first. by rewrite length_stable_sort.
Qed.

(** The mention of [U1] in [C1/100] is in the tier. *)
Lemma mention_tier_witness :
  literal "U1" = true
  ∧ (length (_get_mentions "U1" 0%Z Examples.inbox_db) <= 50)%nat
  ∧ message_item CRITICAL "You were mentioned" Examples.inbox_db
      (_row_to_message (Examples.stored 1 "C1" "100" "U9" "hi <@U1>" 100000000))
    ∈ _get_mentions "U1" 0 Examples.inbox_db.
Proof.
  split; [reflexivity|].
  destruct (mention_tier "U1" 0 Examples.inbox_db eq_refl)
    as (_ & Hlen & Hall).
  split; [done|].
  apply (Hall ltac:(vm_compute; lia) _ "hi " "" 100000000);
    [|reflexivity | reflexivity | lia].
  simpl. apply elem_of_cons. by left.
Defined.

Lemma _truncate_length text max_len :
  3 <= max_len ->
  Z.of_nat (String.length (_truncate text max_len)) <= max_len.
Proof.
  intros Hmax. unfold _truncate.
  destruct (Z.of_nat (String.length text) <=? max_len) eqn:Hlen; [lia|].
  apply Z.leb_gt in Hlen. rewrite length_append, length_string_of_list_ascii.
  unfold slice_to. assert ((0 <=? max_len - 3) = true) as -> by lia.
  rewrite length_take. simpl. lia.
Qed.

Section Report.
Context (env : Env) (since : Time) (db : Database).

Lemma message_item_in_window p why r :
  p ≠ LOW -> r ∈ messages db ->
  created_after (Some since) (row_created_at r) = true ->
  in_window since db (message_item p why db (_row_to_message r)).
Proof.
  intros Hp Hr Hafter. apply created_after_some in Hafter as (t & Ht & Hsince).
  unfold in_window. split_and!; try done.
  - by exists t.
  - cbn. pose proof (_truncate_length (or_empty (row_text r)) 100). lia.
  - by exists r.
Qed.

Lemma _get_mentions_in_window me item :
  item ∈ _get_mentions me since db -> in_window since db item.
Proof.
  unfold _get_mentions, get_unread_mentions. rewrite <- list_fmap_compose.
  intros (r & -> & Hr)%list_elem_of_fmap.
  apply elem_of_take_elem, elem_of_stable_sort, elem_of_List_filter in Hr
    as [Hr Hfilter].
  apply andb_true_iff in Hfilter as [_ Hafter].
  by apply message_item_in_window.
Qed.

Lemma _get_dms_in_window item :
  item ∈ _get_dms env since db -> in_window since db item.
Proof.
  intros Hitem. apply _get_dms_elem in Hitem as (r & Hr & _ & ->).
  apply elem_of_take_elem, elem_of_stable_sort, elem_of_List_filter in Hr
    as [Hr Hfilter].
  apply andb_true_iff in Hfilter as [_ Hafter].
  by apply message_item_in_window.
Qed.

Lemma _get_thread_replies_in_window me item :
  item ∈ _get_thread_replies me since db -> in_window since db item.
Proof.
  intros Hitem. unfold _get_thread_replies in Hitem.
  destruct (thread_items_elem _ _ _ _ Hitem)
    as (_ & r & name & Hr & Hkey & Hprio & Hch & _ & Hts & Hthread & Huser
        & Htime & Htext).
  destruct (get_threads_with_replies_elem _ _ _ _ _ Hr)
    as (Hin & _ & Hafter & _).
  apply created_after_some in Hafter as (t & Ht & Hsince).
  unfold in_window. split_and!.
  - by rewrite Hprio.
  - exists t. split; [congruence | done].
  - rewrite Htext. pose proof (_truncate_length (or_empty (row_text r)) 100).
    lia.
  - clear -Hitem. revert Hitem. generalize (∅ : gset string).
    induction (get_threads_with_replies me (Some since) db)
      as [|[r name] rows IH]; intros seen.
    + by intros ?%elem_of_nil.
    + cbn [thread_items]. destruct (decide (thread_key r ∈ seen)); [apply IH|].
      intros [-> | Hin]%elem_of_cons; [done | by eapply IH].
  - exists r. by rewrite Hch, Hts.
Qed.

Lemma tier_lengths me :
  (length (_get_mentions me since db ++ _get_dms env since db
           ++ _get_thread_replies me since db) <= 200)%nat.
Proof.
  rewrite !length_app.
  assert (length (_get_mentions me since db) <= 50)%nat.
  { unfold _get_mentions, get_unread_mentions.
    rewrite !length_fmap, length_take. lia. }
  assert (length (_get_dms env since db) <= 50)%nat.
  { unfold _get_dms, get_dm_messages. rewrite length_fmap.
    etrans; [apply List.filter_length_le|]. rewrite length_fmap, length_take. lia. }
  assert (length (_get_thread_replies me since db) <= 100)%nat.
  { unfold _get_thread_replies. etrans; [apply thread_items_length|].
    unfold get_threads_with_replies. rewrite length_take. lia. }
  lia.
Qed.

End Report.

(** X10. A status report is generated at the current time and holds at
    most 200 items. Every item has a priority other than LOW, a timestamp
    later than the start of the window (the sort key never falls back on
    0), a preview of at most 100 characters, the permalink of its message,
    and stands for a stored message. *)
Theorem status_report_window (env : Env) (hours_back : Z) (db : Database)
    (st : Status) :
  get_status env hours_back db = Ok st ->
  generated_at st = now env
  ∧ (length (items st) <= 200)%nat
  ∧ (∀ item,
       item ∈ items st ->
       priority item ≠ LOW
       ∧ (∃ t, timestamp item = Some t ∧ now env - hours hours_back < t)
       ∧ (String.length (text_preview item) <= 100)%nat
       ∧ si_link item
         = get_message_link (si_channel_id item) (message_ts item)
             (si_thread_ts item)
       ∧ ∃ r, r ∈ messages db ∧ row_channel_id r = si_channel_id item
              ∧ row_ts r = message_ts item).
Proof.
  unfold get_status. destruct (client_user_id env) as [me|] eqn:Hme; [|done].
  destruct (truthy (Some me)); [|done]. intros [= <-]. cbn [items generated_at].
  split; [done|]. split.
  - rewrite length_stable_sort. apply tier_lengths.
  - intros item Hitem. apply elem_of_stable_sort in Hitem.
    apply elem_of_app in Hitem as [Hitem | Hitem];
      [by eapply _get_mentions_in_window|].
    apply elem_of_app in Hitem as [Hitem | Hitem];
      [by eapply _get_dms_in_window | by eapply _get_thread_replies_in_window].
Qed.

(** The report of the inbox: two items, both within the last 24 hours. *)
Lemma status_report_window_witness :
  ∃ st,
    get_status Examples.quiet_env 24 Examples.inbox_db = Ok st
    ∧ length (items st) = 2%nat
    ∧ generated_at st = 1000000000
    ∧ ∀ item, item ∈ items st ->
        ∃ t, timestamp item = Some t
             ∧ now Examples.quiet_env - hours 24 < t.
Proof.
  destruct (get_status Examples.quiet_env 24 Examples.inbox_db)
    as [st|e] eqn:Hst; [|vm_compute in Hst; discriminate].
  destruct (status_report_window _ _ _ _ Hst) as (Hgen & _ & Hitems).
  exists st. split_and!; try done.
  - vm_compute in Hst. by injection Hst as <-.
  - intros item Hitem. by destruct (Hitems item Hitem) as (_ & Ht & _).
Defined.

Lemma asc_nulls_last_spec a b : asc_nulls_last a b = true <-> time_le a b.
Proof. destruct a, b; simpl; try done. apply Z.leb_le. Qed.

(** X11. The reminders of a status report are those of the identity that
    are not complete, whatever their time (the window plays no part), each
    with its [id], [text], [time] and [recurring]; they are ordered by
    ascending time, those without a time last. *)
Theorem pending_reminders_sorted (me : string) (db : Database) :
  (∀ v, v ∈ _get_reminders me db
        <-> ∃ k r, reminders db !! k = Some r
                   ∧ rem_user_id r = me ∧ rem_complete_ts r = None
                   ∧ v = {| rv_id := rem_id r; rv_text := rem_text r;
                            rv_time := rem_time r;
                            rv_recurring := rem_recurring r |})
  ∧ (∀ i j a b,
       _get_reminders me db !! i = Some a ->
       _get_reminders me db !! j = Some b ->
       (i < j)%nat -> time_le (rv_time a) (rv_time b)).
Proof.
  unfold _get_reminders, get_pending_reminders. split.
  - intros v. rewrite list_elem_of_fmap. split.
    + intros (r & -> & Hr). apply elem_of_stable_sort in Hr.
      apply list_elem_of_filter in Hr as [[Hme Hopen] Hr].
      apply list_elem_of_fmap in Hr as ([k r'] & -> & Hr).
      apply elem_of_map_to_list in Hr. by exists k, r'.
    + intros (k & r & Hr & Hme & Hopen & ->). exists r. split; [done|].
      apply elem_of_stable_sort, list_elem_of_filter. split; [done|].
      apply list_elem_of_fmap. exists (k, r). split; [done|].
      by apply elem_of_map_to_list.
  - intros i j a b Ha Hb Hij.
    rewrite list_lookup_fmap in Ha, Hb.
    destruct (stable_sort _ _ !! i) as [ra|] eqn:Hra; [|done].
    destruct (stable_sort _ _ !! j) as [rb|] eqn:Hrb; [|done].
    injection Ha as <-. injection Hb as <-. cbn [rv_time].
    apply asc_nulls_last_spec.
    eapply (StronglySorted_lookup
              (fun a b => asc_nulls_last (rem_time a) (rem_time b) = true));
      [|exact Hra | exact Hrb | exact Hij].
    apply (stable_sort_sorted
             (fun a b : Reminder => asc_nulls_last (rem_time a) (rem_time b))).
    + intros x y. destruct (rem_time x), (rem_time y); simpl; auto. lia.
    + intros x y z. destruct (rem_time x), (rem_time y), (rem_time z);
        simpl; try done. lia.
Qed.

Lemma by_priority_filter st p :
  by_priority st p = filter (fun item => priority item = p) (items st).
Proof.
  unfold by_priority.
  cut (∀ init : Priority -> list StatusItem,
         foldl (fun result item p =>
                  if decide (p = priority item) then result p ++ [item]
                  else result p) init (items st) p
         = init p ++ filter (fun item => priority item = p) (items st)).
  { intros H. by rewrite H. }
  induction (items st) as [|x l IH]; intros init.
  - simpl. by rewrite app_nil_r.
  - cbn [foldl]. rewrite IH, filter_cons.
    destruct (decide (p = priority x)) as [-> | Hne].
    + rewrite decide_True by done. by rewrite <- app_assoc.
    + rewrite decide_False by done. done.
Qed.

Lemma sorted_by_priority_groups (l : list StatusItem) :
  StronglySorted (fun x y => pair_le (sort_key x) (sort_key y) = true) l ->
  l = filter (fun item => priority item = CRITICAL) l
      ++ filter (fun item => priority item = HIGH) l
      ++ filter (fun item => priority item = MEDIUM) l
      ++ filter (fun item => priority item = LOW) l.
Proof.
  induction l as [|x l IH]; [done|].
  intros [Hsorted Hhead]%StronglySorted_inv. rewrite Forall_forall in Hhead.
  assert (Hle : ∀ y, y ∈ l -> value (priority x) <= value (priority y)).
  { intros y Hy. apply Hhead, pair_le_spec in Hy. simpl in Hy. lia. }
  assert (Hbelow : ∀ p, value p < value (priority x) ->
            filter (fun item => priority item = p) l = []).
  { intros p Hp. apply filter_none. intros y Hy Heq.
    apply Hle in Hy. rewrite Heq in Hy. lia. }
  rewrite !filter_cons.
  destruct (priority x) eqn:Hx; simpl;
    repeat match goal with
           | |- context [decide (?a = ?b)] =>
               first [rewrite (decide_True (P := a = b)) by done
                     | rewrite (decide_False (P := a = b)) by done]
           end.
  - simpl. f_equal. by apply IH.
  - rewrite (Hbelow CRITICAL) by (simpl; lia). simpl. f_equal.
    rewrite (IH Hsorted) at 1. by rewrite (Hbelow CRITICAL) by (simpl; lia).
  - rewrite (Hbelow CRITICAL), (Hbelow HIGH) by (simpl; lia). simpl. f_equal.
    rewrite (IH Hsorted) at 1.
    by rewrite (Hbelow CRITICAL), (Hbelow HIGH) by (simpl; lia).
  - rewrite (Hbelow CRITICAL), (Hbelow HIGH), (Hbelow MEDIUM) by (simpl; lia).
    simpl. f_equal. rewrite (IH Hsorted) at 1.
    by rewrite (Hbelow CRITICAL), (Hbelow HIGH), (Hbelow MEDIUM)
      by (simpl; lia).
Qed.

(** X12. [Status.by_priority] maps each priority to the items of that
    priority, in the order of the report. For a report of [get_status] the
    groups CRITICAL, HIGH and MEDIUM, one after the other, are the items of
    the report, and the group LOW is empty. *)
Theorem by_priority_groups (env : Env) (hours_back : Z) (db : Database)
    (st : Status) :
  get_status env hours_back db = Ok st ->
  (∀ p, by_priority st p = filter (fun item => priority item = p) (items st))
  ∧ items st
    = by_priority st CRITICAL ++ by_priority st HIGH ++ by_priority st MEDIUM
  ∧ by_priority st LOW = [].
Proof.
  intros Hst. split; [intros p; apply by_priority_filter|].
  rewrite !by_priority_filter.
  assert (Hlow : filter (fun item => priority item = LOW) (items st) = []).
  { apply filter_none. intros item Hitem.
    revert Hst Hitem. unfold get_status.
    destruct (client_user_id env) as [me|]; [|done].
    destruct (truthy (Some me)); [|done]. intros [= <-]. cbn [items].
    rewrite elem_of_stable_sort, !elem_of_app.
    intros [H | [H | H]].
    - by apply _get_mentions_in_window in H as [? _].
    - by apply _get_dms_in_window in H as [? _].
    - by apply _get_thread_replies_in_window in H as [? _]. }
  split; [|done].
  assert (Hsorted : StronglySorted
            (fun x y => pair_le (sort_key x) (sort_key y) = true) (items st)).
  { revert Hst. unfold get_status.
    destruct (client_user_id env) as [me|]; [|done].
    destruct (truthy (Some me)); [|done]. intros [= <-]. cbn [items].
    apply (stable_sort_sorted
             (fun x y : StatusItem => pair_le (sort_key x) (sort_key y))).
    - intros x y. apply pair_le_total.
    - intros x y z. apply pair_le_trans. }
  rewrite (sorted_by_priority_groups _ Hsorted) at 1.
  by rewrite Hlow, app_nil_r.
Qed.

(** The report of the inbox: one mention, one direct message. *)
Lemma by_priority_groups_witness :
  ∃ st,
    get_status Examples.quiet_env 24 Examples.inbox_db = Ok st
    ∧ items st
      = by_priority st CRITICAL ++ by_priority st HIGH
        ++ by_priority st MEDIUM
    ∧ length (by_priority st CRITICAL) = 1%nat
    ∧ length (by_priority st HIGH) = 1%nat
    ∧ by_priority st LOW = [].
Proof.
  destruct (get_status Examples.quiet_env 24 Examples.inbox_db)
    as [st|e] eqn:Hst; [|vm_compute in Hst; discriminate].
  destruct (by_priority_groups _ _ _ _ Hst) as (_ & Hitems & Hlow).
  exists st. split_and!; try done.
  - vm_compute in Hst. by injection Hst as <-.
  - vm_compute in Hst. by injection Hst as <-.
Defined.

(** ** The search service *)

Lemma api_result_cases env m :
  (unconvertible env m ∧ api_result env m = Raise ValueError)
  ∨ (¬ unconvertible env m
     ∧ ∃ r, api_result env m = Ok r ∧ result_of_match m r).
Proof.
  unfold api_result, unconvertible.
  destruct (truthy (Some (get_or "" (match_ts m)))) eqn:Hts.
  - destruct (fromtimestamp env (get_or "" (match_ts m))) as [t|] eqn:Ht.
    + right. split; [by intros [_ [=]]|]. eexists. split; [done|].
      by unfold result_of_match.
    + by left.
  - right. split; [by intros [[=] _]|]. eexists. split; [done|].
    by unfold result_of_match.
Qed.

Lemma api_results_cases env matches :
  (Exists (unconvertible env) matches
   ∧ api_results env matches = Raise ValueError)
  ∨ (Forall (fun m => ¬ unconvertible env m) matches
     ∧ ∃ results, api_results env matches = Ok results
                  ∧ Forall2 result_of_match matches results).
Proof.
  induction matches as [|m matches IH].
  - right. split; [done|]. by exists [].
  - cbn [api_results].
    destruct (api_result_cases env m) as [[Hbad ->] | (Hgood & r & -> & Hr)].
    + left. split; [by left | done].
    + destruct IH as [[Hbad ->] | (Hall & results & -> & Hrs)].
      * left. split; [by right | done].
      * right. split; [by constructor|]. exists (r :: results).
        split; [done | by constructor].
Qed.

(** X13. [_slack_api_search] raises [ValueError] as soon as one match has
    a [ts] that is not empty and cannot be converted; when no match has,
    it returns one result for each match, in the order of the matches,
    tagged ["slack_api"], with the channel, [ts] and text of the match, no
    database id, the score of the match (0.5 when it has none) and its
    permalink (the link built from channel and [ts] when it has none). A
    failed API call gives no result and no exception. *)
Theorem slack_api_search_outcome (env : Env) (query : string) (limit : Z) :
  (Exists (unconvertible env) (search_messages (web env) query limit)
   -> _slack_api_search env query limit = Raise ValueError)
  ∧ (Forall (fun m => ¬ unconvertible env m)
       (search_messages (web env) query limit)
     -> ∃ results,
          _slack_api_search env query limit = Ok results
          ∧ Forall2 result_of_match
              (search_messages (web env) query limit) results)
  ∧ (search_messages_api (web env) query limit = None
     -> _slack_api_search env query limit = Ok []).
Proof.
  unfold _slack_api_search. split_and!.
  - intros Hbad.
    destruct (api_results_cases env (search_messages (web env) query limit))
      as [[_ ->] | (Hall & _)]; [done|].
    apply Exists_exists in Hbad as (m & Hm & Hbad).
    rewrite Forall_forall in Hall. by destruct (Hall m Hm).
  - intros Hall.
    destruct (api_results_cases env (search_messages (web env) query limit))
      as [[Hbad _] | (_ & Hres)]; [|done].
    apply Exists_exists in Hbad as (m & Hm & Hbad).
    rewrite Forall_forall in Hall. by destruct (Hall m Hm).
  - unfold search_messages. by intros ->.
Qed.

(** X14. Edge behaviour of [search]. The vector source contributes
    nothing: the result does not depend on [use_vector], since the
    embedding service generates no embedding. With the text source on, a
    negative [limit] that fits 64 bits raises the storage error ([LIMIT]
    refuses it), and a [limit] that does not fit 64 bits raises the data
    error (the argument of [LIMIT $2] cannot be encoded). A [limit] of 0
    returns no result; with the text and the API source off the result is
    empty. *)
Theorem search_edges (env : Env) (query : string) (limit : Z)
    (use_vector use_text use_slack_api : bool) (db : Database) :
  search env query limit use_vector use_text use_slack_api db
  = search env query limit false use_text use_slack_api db
  ∧ (- 2 ^ 63 <= limit < 0 -> use_text = true ->
     search env query limit use_vector use_text use_slack_api db
     = Raise StorageError)
  ∧ (limit < - 2 ^ 63 ∨ 2 ^ 63 <= limit -> use_text = true ->
     search env query limit use_vector use_text use_slack_api db
     = Raise DataError)
  ∧ (limit = 0 ->
     ∀ results,
       search env query limit use_vector use_text use_slack_api db
       = Ok results -> results = [])
  ∧ (use_text = false -> use_slack_api = false ->
     search env query limit use_vector use_text use_slack_api db = Ok []).
Proof.
  assert (Hvector : (if use_vector && embedding_service env
                     then _vector_search env query limit else [])
                    = @nil SearchResult).
  { unfold _vector_search, generate_embedding.
    by destruct (use_vector && embedding_service env),
      (negb (embedding_service env)). }
  unfold search. rewrite Hvector. cbn [andb]. split_and!.
  - done.
  - intros [Hlow Hneg] ->. unfold _text_search.
    assert (((limit <? - 2 ^ 63) || (2 ^ 63 <=? limit)) = false) as ->.
    { apply orb_false_iff. split; [apply Z.ltb_ge | apply Z.leb_gt]; lia. }
    by assert ((limit <? 0) = true) as -> by lia.
  - intros Hout ->. unfold _text_search.
    assert (((limit <? - 2 ^ 63) || (2 ^ 63 <=? limit)) = true) as ->; [|done].
    apply orb_true_iff.
    destruct Hout; [left; apply Z.ltb_lt | right; apply Z.leb_le]; lia.
  - intros -> results.
    destruct (if use_text then _ else _) as [text_results|]; [|done].
    destruct (if use_slack_api then _ else _) as [api_results|]; [|done].
    intros [= <-]. unfold combine, slice_to. simpl. by rewrite take_0.
  - intros -> ->. unfold combine, slice_to. simpl.
    by destruct (0 <=? limit); rewrite ?take_nil.
Qed.

(** A search for [deploy] with the text source: the limit [-1] is refused
    by the database, the limit [2^63] by the driver, and the limit [0]
    gives nothing. *)
Lemma search_edges_witness :
  search Examples.search_env "deploy" (-1) true true false Examples.search_db
  = Raise StorageError
  ∧ search Examples.search_env "deploy" (2 ^ 63) true true false
      Examples.search_db
    = Raise DataError
  ∧ search Examples.search_env "deploy" 0 true true false Examples.search_db
    = Ok [].
Proof.
  split; [|split].
  - apply (search_edges Examples.search_env "deploy" (-1) true true false
             Examples.search_db); [lia | reflexivity].
  - apply (search_edges Examples.search_env "deploy" (2 ^ 63) true true false
             Examples.search_db); [right; lia | reflexivity].
  - destruct (search Examples.search_env "deploy" 0 true true false
                Examples.search_db) as [results|e] eqn:Hrun;
      [|vm_compute in Hrun; discriminate].
    f_equal.
    by apply (search_edges Examples.search_env "deploy" 0 true true false
                Examples.search_db).
Defined.

Lemma text_score_range query t :
  (0 < text_score query t)%Q ∧ (text_score query t <= 1)%Q.
Proof.
  unfold text_score. destruct (re_search query t) as [p|] eqn:Hp; [|done].
  destruct (String.eqb t "") eqn:Ht; [done|]. simpl.
  apply String.eqb_neq in Ht.
  destruct (match_fraction p (String.length t)) as [H0 H1];
    [by eapply re_search_start|].
  split; lra.
Qed.

Lemma newest_first_sorted rows :
  StronglySorted
    (fun a b => desc_nulls_first (row_created_at a) (row_created_at b) = true)
    (newest_first rows).
Proof.
  apply (stable_sort_sorted
           (fun a b : MessageRow =>
              desc_nulls_first (row_created_at a) (row_created_at b))).
  - intros a b. apply desc_nulls_first_total.
  - intros a b c. apply desc_nulls_first_trans.
Qed.

(** X15. A text search that returns has a non-negative [limit] and at
    most [limit] results. Every result is tagged ["text"], has a score
    above 0 and at most 1, the permalink of its message, and is a stored
    message whose text matches [%query%] ignoring case; the results are
    ordered by [created_at], newest first. *)
Theorem text_search_results (query : string) (limit : Z) (db : Database)
    (results : list SearchResult) :
  _text_search query limit db = Ok results ->
  0 <= limit
  ∧ Z.of_nat (length results) <= limit
  ∧ (∀ r, r ∈ results ->
          match_type r = "text"
          ∧ (0 < score r)%Q ∧ (score r <= 1)%Q
          ∧ link r = get_message_link (channel_id (message r))
                       (ts (message r)) (thread_ts (message r))
          ∧ ∃ row t, row ∈ messages db ∧ message r = _row_to_message row
                     ∧ row_text row = Some t
                     ∧ ilike ("%" +:+ query +:+ "%") t = true)
  ∧ (∀ i j a b,
       results !! i = Some a -> results !! j = Some b -> (i < j)%nat ->
       newer_result a b).
Proof.
  unfold _text_search.
  destruct ((limit <? - 2 ^ 63) || (2 ^ 63 <=? limit)); [done|].
  destruct (limit <? 0) eqn:Hlimit; [done|].
  apply Z.ltb_ge in Hlimit. intros [= <-]. split_and!.
  - done.
  - rewrite length_fmap, length_take. lia.
  - intros r (row & -> & Hrow)%list_elem_of_fmap.
    apply elem_of_take_elem, elem_of_stable_sort, elem_of_List_filter in Hrow
      as [Hrow Hlike].
    unfold text_ilike in Hlike.
    destruct (row_text row) as [t|] eqn:Ht; [|done].
    split_and!; try done.
    + apply text_score_range.
    + apply text_score_range.
    + by exists row, t.
  - intros i j a b Ha Hb Hij. rewrite list_lookup_fmap in Ha, Hb.
    destruct (take _ _ !! i) as [ra|] eqn:Hra; [|done].
    destruct (take _ _ !! j) as [rb|] eqn:Hrb; [|done].
    injection Ha as <-. injection Hb as <-. unfold newer_result. cbn.
    eapply (StronglySorted_lookup
              (fun a b => desc_nulls_first (row_created_at a)
                            (row_created_at b) = true));
      [|exact Hra | exact Hrb | exact Hij].
    eapply StronglySorted_sublist; [apply sublist_take|].
    apply newest_first_sorted.
Qed.

(** Two stored messages match [deploy]. *)
Lemma text_search_results_witness :
  ∃ results,
    _text_search "deploy" 10 Examples.search_db = Ok results
    ∧ length results = 2%nat
    ∧ ∀ r, r ∈ results -> (0 < score r)%Q ∧ (score r <= 1)%Q.
Proof.
  destruct (_text_search "deploy" 10 Examples.search_db)
    as [results|e] eqn:Hrun; [|vm_compute in Hrun; discriminate].
  destruct (text_search_results _ _ _ _ Hrun) as (_ & _ & Hall & _).
  exists results. split_and!; try done.
  - vm_compute in Hrun. by injection Hrun as <-.
  - intros r Hr. by destruct (Hall r Hr) as (_ & ? & ? & _).
Defined.

Lemma link_target_archives lib link channel digits :
  url_path (urlparse lib link) = "/archives/" +:+ channel +:+ "/p" +:+ digits ->
  lacks "/" channel = true -> lacks "/" digits = true ->
  link_target lib link
  = (Some channel,
     Some (str_to (-6) digits +:+ "." +:+ str_from (-6) digits)).
Proof.
  intros Hpath Hc Hd. unfold link_target. rewrite Hpath.
  assert (str_startswith ("/archives/" +:+ channel +:+ "/p" +:+ digits)
            "/archives/" = true) as -> by apply str_startswith_app.
  rewrite orb_true_r.
  assert (str_strip "/" ("/archives/" +:+ channel +:+ "/p" +:+ digits)
          = "archives" +:+ String "/" (channel +:+ String "/" (String "p" digits)))
    as ->.
  { unfold str_strip.
    change (str_lstrip "/" ("/archives/" +:+ channel +:+ "/p" +:+ digits))
      with ("archives/" +:+ (channel +:+ ("/" +:+ String "p" digits))).
    change ("archives" +:+ String "/" (channel +:+ String "/" (String "p" digits)))
      with ("archives/" +:+ (channel +:+ ("/" +:+ String "p" digits))).
    assert (Hp : str_rstrip "/" (String "p" digits) = String "p" digits).
    { apply str_rstrip_lacks. simpl. by rewrite Hd. }
    assert (Hs : str_rstrip "/" ("/" +:+ String "p" digits)
                 = "/" +:+ String "p" digits).
    { rewrite str_rstrip_app; rewrite Hp; done. }
    assert (Hch : str_rstrip "/" (channel +:+ ("/" +:+ String "p" digits))
                  = channel +:+ ("/" +:+ String "p" digits)).
    { rewrite str_rstrip_app; rewrite Hs; done. }
    rewrite str_rstrip_app; rewrite Hch; [done|]. by destruct channel. }
  rewrite str_split_app by done. rewrite str_split_app by done.
  rewrite str_split_lacks by (cbn [lacks]; by rewrite Hd).
  cbn [String.eqb Ascii.eqb Bool.eqb andb].
  assert (str_startswith (String "p" digits) "p" = true) as ->
    by apply (str_startswith_app "p").
  assert (str_from 1 (String "p" digits) = digits) as ->; [|done].
  unfold str_from, slice_from. cbn.
  apply String.string_of_list_ascii_of_string.
Qed.

(** X16. [find_context] reads back the links [get_message_link] writes.
    For a channel id that is not empty and holds no slash, and a timestamp
    made of seconds, a dot and six characters of microseconds (no further
    dot, no slash): if [urlparse] gives the link of the message the path
    [/archives/<channel>/p<seconds><microseconds>], the link is read as
    this channel and this timestamp, with or without a [thread_ts]
    parameter, and [find_context] is the search for the text of the
    message stored under them (vector and text source, API source off), or
    empty when there is no such message or it has no text. *)
Theorem permalink_round_trip (lib : UrlLib) (env : Env)
    (channel secs micros : string) (thread : option string) (limit : Z)
    (db : Database) :
  channel ≠ "" -> lacks "/" channel = true ->
  lacks "." secs = true -> lacks "/" secs = true ->
  lacks "." micros = true -> lacks "/" micros = true ->
  String.length micros = 6%nat ->
  url_path (urlparse lib (get_message_link channel (secs +:+ "." +:+ micros)
                            thread))
  = "/archives/" +:+ channel +:+ "/p" +:+ remove_dots (secs +:+ "." +:+ micros) ->
  link_target lib (get_message_link channel (secs +:+ "." +:+ micros) thread)
  = (Some channel, Some (secs +:+ "." +:+ micros))
  ∧ find_context lib env
      (get_message_link channel (secs +:+ "." +:+ micros) thread) limit db
    = match get_message channel (secs +:+ "." +:+ micros) db with
      | Some m =>
          if truthy (text m)
          then search env (get_or "" (text m)) limit true true false db
          else Ok []
      | None => Ok []
      end.
Proof.
  intros Hne Hc Hs1 Hs2 Hm1 Hm2 Hlen Hpath.
  assert (Hdigits : remove_dots (secs +:+ "." +:+ micros) = secs +:+ micros).
  { rewrite remove_dots_app, (remove_dots_lacks secs) by done.
    change ("." +:+ micros) with (String "." micros). simpl.
    by rewrite remove_dots_lacks. }
  rewrite Hdigits in Hpath.
  assert (Hmicros : micros ≠ "") by (by destruct micros).
  assert (Htarget :
            link_target lib
              (get_message_link channel (secs +:+ "." +:+ micros) thread)
            = (Some channel, Some (secs +:+ "." +:+ micros))).
  { rewrite (link_target_archives _ _ _ _ Hpath);
      [|done | by rewrite lacks_app, Hs2, Hm2].
    replace (-6) with (- Z.of_nat (String.length micros)) by (rewrite Hlen; lia).
    by rewrite str_to_app, str_from_app. }
  split; [done|].
  unfold find_context. rewrite Htarget.
  assert (truthy (Some channel) = true) as ->.
  { simpl. apply negb_true_iff, String.eqb_neq. done. }
  assert (truthy (Some (secs +:+ "." +:+ micros)) = true) as ->.
  { simpl. apply negb_true_iff, String.eqb_neq. by destruct secs. }
  done.
Qed.

(** The permalink of [C1/1700000000.000100] leads back to the message. *)
Lemma permalink_round_trip_witness :
  get_message_link "C1" ("1700000000" +:+ "." +:+ "000100") None
  = "https://slack.com/archives/C1/p1700000000000100"
  ∧ link_target Examples.permalink_lib
      (get_message_link "C1" ("1700000000" +:+ "." +:+ "000100") None)
    = (Some "C1", Some ("1700000000" +:+ "." +:+ "000100"))
  ∧ find_context Examples.permalink_lib Examples.quiet_env
      (get_message_link "C1" ("1700000000" +:+ "." +:+ "000100") None) 10
      Examples.linked_db
    = search Examples.quiet_env "deploy tonight" 10 true true false
        Examples.linked_db.
Proof.
  split; [reflexivity|].
  apply (permalink_round_trip Examples.permalink_lib Examples.quiet_env
           "C1" "1700000000" "000100" None 10 Examples.linked_db);
    reflexivity || done.
Defined.

(** ** Configuration *)

(** X17. [Config.validate] reports no error exactly when the token
    starts with [xoxp-] and the poll interval is at least 10 seconds. It
    reports at most two errors; an empty token is reported as missing and
    not as malformed; the interval error is reported exactly when the
    interval is below 10. *)
Theorem validate_accepts (c : Config.Config) :
  (Config.validate c = []
   <-> str_startswith (Config.slack_user_token c) "xoxp-" = true
       ∧ 10 <= Config.poll_interval_seconds c)
  ∧ (length (Config.validate c) <= 2)%nat
  ∧ (Config.slack_user_token c = "" ->
     "SLACK_USER_TOKEN is required" ∈ Config.validate c
     ∧ "SLACK_USER_TOKEN should be a user OAuth token (xoxp-...)"
       ∉ Config.validate c)
  ∧ ("POLL_INTERVAL_SECONDS should be at least 10 to avoid rate limits"
     ∈ Config.validate c
     <-> Config.poll_interval_seconds c < 10).
Proof.
  unfold Config.validate.
  assert (H12 : "SLACK_USER_TOKEN is required"
                ≠ "SLACK_USER_TOKEN should be a user OAuth token (xoxp-...)")
    by discriminate.
  assert (H13 : "SLACK_USER_TOKEN is required"
                ≠ "POLL_INTERVAL_SECONDS should be at least 10 to avoid rate limits")
    by discriminate.
  assert (H23 : "SLACK_USER_TOKEN should be a user OAuth token (xoxp-...)"
                ≠ "POLL_INTERVAL_SECONDS should be at least 10 to avoid rate limits")
    by discriminate.
  revert H12 H13 H23.
  generalize "SLACK_USER_TOKEN is required",
    "SLACK_USER_TOKEN should be a user OAuth token (xoxp-...)",
    "POLL_INTERVAL_SECONDS should be at least 10 to avoid rate limits".
  intros missing malformed interval H12 H13 H23.
  remember (Config.slack_user_token c) as token eqn:Htoken.
  assert (Hempty : truthy (Some token) = false <-> token = "").
  { simpl. rewrite negb_false_iff. apply String.eqb_eq. }
  assert (Hpre : token = "" -> str_startswith token "xoxp-" = false)
    by (by intros ->).
  destruct (truthy (Some token)), (str_startswith token "xoxp-"),
    (Config.poll_interval_seconds c <? 10) eqn:Hpoll;
    first [apply Z.ltb_lt in Hpoll | apply Z.ltb_ge in Hpoll];
    simpl; rewrite ?elem_of_cons, ?elem_of_nil;
    intuition (try discriminate; try lia; try congruence).
Qed.
